(** * Perspective viewer plugins: datagrid cell styling, row selection,
      plugin state serialisation and legend dragging

    A shallow embedding of four functions of the repository:

    - [Legend.enforceContainerBoundaries] (perspective-viewer-d3fc,
      [legend/styling/enableDragging.js]);
    - [CellStyle.table_cell_style_listener]
      (perspective-viewer-datagrid, [style_handlers/table_cell/index.js]);
    - [RowSelect.selectionListener]
      (perspective-viewer-datagrid, [event_handlers/row_select_click.js]);
    - [Save.save] (perspective-viewer-datagrid, the plugin's [save], in
      the same file).

    JavaScript numbers that carry pixel coordinates are binary64 floating
    point numbers, with the rounding of each operation; objects that the
    code mutates or shares live in an explicit heap. *)

From Stdlib Require Import QArith Qpower Lqa.
From Stdlib Require PrimFloat FloatOps SpecFloat FloatAxioms.
From stdpp Require Import gmap strings list pretty.

(* ===================================================================== *)
(** * Legend dragging: [enableDragging.js]                                *)
(* ===================================================================== *)

Module Legend.

Import PrimFloat FloatOps SpecFloat.

Local Open Scope float_scope.

(** The four numbers of a [DOMRect] that the code reads: JavaScript
    numbers, that is binary64 floating point numbers. *)
Record Rect := mkRect { top : float; right : float; bottom : float; left : float }.

Inductive Edge := Right | Left | Top | Bottom.
Inductive Dimension := X | Y.

(** [rect[edge]] *)
Definition rect_edge (r : Rect) (e : Edge) : float :=
  match e with
  | Right => right r
  | Left => left r
  | Top => top r
  | Bottom => bottom r
  end.

Record Bound := mkBound { edge : Edge; dimension : Dimension }.

(** [const adjustedOffsets = {x: offsetX, y: offsetY}] *)
Record Offsets := mkOffsets { x : float; y : float }.

Definition get_dim (o : Offsets) (d : Dimension) : float :=
  match d with X => x o | Y => y o end.

Definition set_dim (o : Offsets) (d : Dimension) (v : float) : Offsets :=
  match d with
  | X => {| x := v; y := y o |}
  | Y => {| x := x o; y := v |}
  end.

Definition margin : float := 10.

Definition boundaries : list Bound :=
  [ mkBound Right X; mkBound Left X; mkBound Top Y; mkBound Bottom Y ].

(** Modelled from the spec: [isElementOverflowing] of [utils/utils.js] is
    not among the sources.  The spec has the offset clamped "when the
    dragged bounding box (plus fixed margin) would exceed the container's
    bounding box" on an edge: past the right or bottom edge is a larger
    coordinate, past the left or top edge a smaller one.  The comparison
    is JavaScript's [<] on numbers. *)
Definition isElementOverflowing (container inner : Rect) (e : Edge) : bool :=
  match e with
  | Right => right container <? right inner
  | Bottom => bottom container <? bottom inner
  | Left => left inner <? left container
  | Top => top inner <? top container
  end.

Section Clamp.

(** The overflow test is a parameter of the embedding. *)
Variable overflowing : Rect -> Rect -> Edge -> bool.

(** [const draggedLegendNodeRect = {...}]; [a + b - c] is [(a + b) - c],
    each operation rounded. *)
Definition draggedRect (legendNodeRect : Rect) (offsetX offsetY : float)
    : Rect :=
  {| top := top legendNodeRect + offsetY - margin;
     right := right legendNodeRect + offsetX + margin;
     bottom := bottom legendNodeRect + offsetY + margin;
     left := left legendNodeRect + offsetX - margin |}.

(** The body of [boundaries.forEach(bound => ...)]. *)
Definition adjust (chartNodeRect draggedLegendNodeRect : Rect)
    (adjustedOffsets : Offsets) (bound : Bound) : Offsets :=
  if overflowing chartNodeRect draggedLegendNodeRect (edge bound) then
    let adjustment :=
      rect_edge draggedLegendNodeRect (edge bound)
      - rect_edge chartNodeRect (edge bound) in
    set_dim adjustedOffsets (dimension bound)
            (get_dim adjustedOffsets (dimension bound) - adjustment)
  else adjustedOffsets.

(** [enforceContainerBoundaries(legendNode, offsetX, offsetY)]; the two
    bounding rectangles that the function reads off the DOM are its
    inputs here. *)
Definition enforceContainerBoundaries (chartNodeRect legendNodeRect : Rect)
    (offsetX offsetY : float) : float * float :=
  let draggedLegendNodeRect := draggedRect legendNodeRect offsetX offsetY in
  let adjustedOffsets :=
    fold_left (adjust chartNodeRect draggedLegendNodeRect) boundaries
              (mkOffsets offsetX offsetY) in
  (x adjustedOffsets, y adjustedOffsets).

End Clamp.

(** ** Numbers as the reals that they are *)

(** The real number that a finite binary64 number is, a rational; none for
    an infinity or [NaN]. *)
Definition F2Q (f : float) : option Q :=
  match Prim2SF f with
  | S754_zero _ => Some 0%Q
  | S754_finite s m e =>
      Some ((if s then -1 else 1) * inject_Z (Z.pos m) * 2 ^ e)%Q
  | S754_infinity _ | S754_nan => None
  end.

(** The number [m * 2^e] in units of [2^-1074], the least positive number
    of the format, and a finite number in these units: an integer. *)
Definition units (m : positive) (e : Z) : Z := (Z.pos m * 2 ^ (e + 1074))%Z.

Definition SFunits (f : spec_float) : Z :=
  match f with
  | S754_finite s m e => if s then (- units m e)%Z else units m e
  | _ => 0%Z
  end.

(** The four numbers of a rectangle, as rationals. *)
Record QRect := mkQRect { qtop : Q; qright : Q; qbottom : Q; qleft : Q }.

Definition rectQ (r : Rect) : option QRect :=
  match F2Q (top r), F2Q (right r), F2Q (bottom r), F2Q (left r) with
  | Some t, Some r, Some b, Some l => Some (mkQRect t r b l)
  | _, _, _, _ => None
  end.

(** The operation [op] on [a] and [b] does not round: its result is the
    result [opq] of the operation on the reals. *)
Definition exact (op : float -> float -> float) (opq : Q -> Q -> Q)
    (a b : float) : bool :=
  match F2Q a, F2Q b, F2Q (op a b) with
  | Some qa, Some qb, Some qr => Qeq_bool qr (opq qa qb)
  | _, _, _ => false
  end.

Definition exact_add : float -> float -> bool := exact PrimFloat.add Qplus.
Definition exact_sub : float -> float -> bool := exact PrimFloat.sub Qminus.

(** None of the four operations that give the adjusted horizontal offset
    for an overflow on the right rounds. *)
Definition exact_right (chart legend : Rect) (offsetX : float) : bool :=
  exact_add (right legend) offsetX
  && exact_add (right legend + offsetX) margin
  && exact_sub (right legend + offsetX + margin) (right chart)
  && exact_sub offsetX (right legend + offsetX + margin - right chart).

(** None of the eight additions and subtractions that give the dragged
    rectangle rounds. *)
Definition exact_dragged (legend : Rect) (offsetX offsetY : float) : bool :=
  exact_add (top legend) offsetY
  && exact_sub (top legend + offsetY) margin
  && exact_add (right legend) offsetX
  && exact_add (right legend + offsetX) margin
  && exact_add (bottom legend) offsetY
  && exact_add (bottom legend + offsetY) margin
  && exact_add (left legend) offsetX
  && exact_sub (left legend + offsetX) margin.

(** ** The claims' conditions *)

(** The code's test is positive on the right edge of the dragged rectangle
    that the code computes, and on no other edge. *)
Definition overflows_right_only (chart legend : Rect)
    (offsetX offsetY : float) : Prop :=
  isElementOverflowing chart (draggedRect legend offsetX offsetY) Right = true
  /\ forall e,
       e <> Right ->
       isElementOverflowing chart (draggedRect legend offsetX offsetY) e
       = false.

(** The legend moved by the given offsets, its margin included, passes the
    right edge of the container and no other edge, on the reals. *)
Definition passes_right_only (chart legend : Rect) (offsetX offsetY : float)
    : Prop :=
  exists c l ox oy,
    rectQ chart = Some c /\ rectQ legend = Some l
    /\ F2Q offsetX = Some ox /\ F2Q offsetY = Some oy
    /\ (qright c < qright l + 10 + ox
        /\ qleft c <= qleft l + ox - 10
        /\ qtop c <= qtop l + oy - 10
        /\ qbottom l + oy + 10 <= qbottom c)%Q.

(** The legend moved by the given offsets, its margin included, passes no
    edge of the container, on the reals. *)
Definition within (chart legend : Rect) (offsetX offsetY : float) : Prop :=
  exists c l ox oy,
    rectQ chart = Some c /\ rectQ legend = Some l
    /\ F2Q offsetX = Some ox /\ F2Q offsetY = Some oy
    /\ (qright l + ox + 10 <= qright c
        /\ qleft c <= qleft l + ox - 10
        /\ qtop c <= qtop l + oy - 10
        /\ qbottom l + oy + 10 <= qbottom c)%Q.

(** The right edge of the legend, moved by [adjX], is one margin left of
    the right edge of the container, on the reals. *)
Definition lands_right (chart legend : Rect) (adjX : float) : Prop :=
  exists cr lr a,
    F2Q (right chart) = Some cr /\ F2Q (right legend) = Some lr
    /\ F2Q adjX = Some a /\ (lr + a + 10 == cr)%Q.

(** None of the four tests of the code is positive on the dragged
    rectangle that the code computes. *)
Definition in_bounds (chart legend : Rect) (offsetX offsetY : float) : Prop :=
  forall e,
    isElementOverflowing chart (draggedRect legend offsetX offsetY) e = false.

End Legend.
(* ===================================================================== *)
(** * JavaScript values                                                   *)
(* ===================================================================== *)

Module Js.

(** Primitive values and references to heap objects.  Numbers are only
    copied and compared by the functions embedded below, never computed
    with, so an integer payload stands for them ([NaN], the one number that
    is not [===] to itself, is outside the model). *)
Inductive val :=
  | VUndef
  | VNull
  | VBool (b : bool)
  | VNum (n : Z)
  | VStr (s : string)
  | VRef (l : nat).

#[global] Instance val_eq_dec : EqDecision val.
Proof. solve_decision. Defined.

(** [a === b] *)
Definition strict_eq (a b : val) : bool := bool_decide (a = b).

(** [!!v] *)
Definition truthy (v : val) : bool :=
  match v with
  | VUndef | VNull => false
  | VBool b => b
  | VNum n => negb (n =? 0)%Z
  | VStr s => negb (String.eqb s "")
  | VRef _ => true
  end.

(** [arr[i]] for a number [i] that may be negative, and for an index that
    is [undefined] or [NaN] ([None]): out of range reads [undefined]. *)
Definition array_get {A} (arr : list A) (i : option Z) : option A :=
  match i with
  | Some i => if (0 <=? i)%Z then arr !! Z.to_nat i else None
  | None => None
  end.

End Js.

(* ===================================================================== *)
(** * Cell styling: [style_handlers/table_cell/index.js]                  *)
(* ===================================================================== *)

Module CellStyle.

Import Js.

(** What [regularTable.getMeta(td)] returns, as far as the listener reads
    it.  [x] and [row_header_x] are absent ([None]) where the grid leaves
    them [undefined]. *)
Record Metadata := mkMetadata {
  x : option Z;
  row_header_x : option Z;
  column_header : option (list string);
  user : val
}.

(** The part of a cell that styling writes: the two inline colours, the
    class list, and every other inline style property. *)
Record Surface := mkSurface {
  backgroundColor : string;
  color : string;
  classList : gset string;
  style_other : gmap string string
}.

(** A rendered [<td>] or [<th>] with the metadata the grid keeps for it. *)
Record Cell := mkCell {
  tagName : string;
  meta : Metadata;
  surface : Surface
}.

Definition with_surface (td : Cell) (s : Surface) : Cell :=
  {| tagName := tagName td; meta := meta td; surface := s |}.

(** The rows of [regularTable.children[0].children[1]]. *)
Abbreviation Grid := (list (list Cell)).

(** A column's plugin configuration object, by property name. *)
Abbreviation Plugin := (gmap string val).

(** The fields of [this] that [get_psp_type] reads. *)
Record Model := mkModel {
  _column_types : list string;
  _row_header_types : list string
}.

(** [metadata.x >= 0]; [undefined >= 0] is false. *)
Definition ge0 (v : option Z) : bool :=
  match v with Some n => (0 <=? n)%Z | None => false end.

Definition get_psp_type (this : Model) (metadata : Metadata) : option string :=
  if ge0 (x metadata) then array_get (_column_types this) (x metadata)
  else array_get (_row_header_types this) (Z.pred <$> row_header_x metadata).

(** [metadata.column_header?.[metadata.column_header?.length - 1]] *)
Definition column_name (metadata : Metadata) : option string :=
  match column_header metadata with
  | Some path => last path
  | None => None
  end.

(** A property key made of a value that may be [undefined]. *)
Definition property_key (k : option string) : string :=
  match k with Some s => s | None => "undefined" end.

(** [type === s] for a type that may be [undefined]. *)
Definition type_is (type : option string) (s : string) : bool :=
  match type with Some t => String.eqb t s | None => false end.

(** [td.classList.toggle(name, force)] *)
Definition toggle (name : string) (force : bool) (s : Surface) : Surface :=
  {| backgroundColor := backgroundColor s;
     color := color s;
     classList := if force then {[ name ]} ∪ classList s
                  else classList s ∖ {[ name ]};
     style_other := style_other s |}.

(** [td.style.backgroundColor = ""; td.style.color = "";] *)
Definition clear_colors (s : Surface) : Surface :=
  {| backgroundColor := ""; color := "";
     classList := classList s; style_other := style_other s |}.

(** [plugin?.number_fg_mode === "bar"] *)
Definition number_fg_mode_is_bar (plugin : option Plugin) : bool :=
  match plugin with
  | Some p =>
      match p !! "number_fg_mode" with
      | Some v => strict_eq v (VStr "bar")
      | None => false
      end
  | None => false
  end.

(** The type of the four type sub-rules and of the row header rule: each
    is called with [this], the column's plugin configuration (the table,
    for the row header rule), the cell and its metadata, and gives the
    cell's surface as it leaves it. *)
Definition type_rule := Model -> option Plugin -> Cell -> Metadata -> Surface.
Definition header_rule := Model -> Grid -> Cell -> Metadata -> Surface.

Section Listener.

(** The five sub-rules are not among the sources.  Each is called with
    [this], the column's plugin configuration (or the table, for the row
    header rule), the cell and its metadata, and writes to the cell; the
    embedding takes them as parameters that return the cell's new
    surface. *)
Variable cell_style_numeric : type_rule.
Variable cell_style_boolean : type_rule.
Variable cell_style_string : type_rule.
Variable cell_style_datetime : type_rule.
Variable cell_style_row_header : header_rule.

Variable this : Model.

(** [regularTable[PRIVATE_PLUGIN_SYMBOL] || {}] *)
Variable plugins : gmap string Plugin.

(** The type dispatch of the loop body. *)
Definition dispatch (type : option string) (plugin : option Plugin)
    (td : Cell) (metadata : Metadata) : Surface :=
  if type_is type "integer" || type_is type "float" then
    cell_style_numeric this plugin td metadata
  else if type_is type "boolean" then
    cell_style_boolean this plugin td metadata
  else if type_is type "string" then
    cell_style_string this plugin td metadata
  else if type_is type "date" || type_is type "datetime" then
    cell_style_datetime this plugin td metadata
  else clear_colors (surface td).

(** The body of the inner loop for the cell [td].  The cell is mutated in
    place, so the table that the row header rule is handed holds the cell as
    styled so far: [regularTable] places a cell in the table around it. *)
Definition style_td (regularTable : Cell -> Grid) (td : Cell) : Cell :=
  let metadata := meta td in
  let column_name := column_name metadata in
  let type := get_psp_type this metadata in
  let plugin := plugins !! property_key column_name in
  let is_numeric := type_is type "integer" || type_is type "float" in
  let td := with_surface td (dispatch type plugin td metadata) in
  let td :=
    with_surface td
      (toggle "psp-bool-type"
         (type_is type "boolean" && negb (strict_eq (user metadata) VNull))
         (surface td)) in
  let is_th := String.eqb (tagName td) "TH" in
  let td :=
    if is_th then
      with_surface td (cell_style_row_header this (regularTable td) td metadata)
    else td in
  let td :=
    with_surface td
      (toggle "psp-align-right" (negb is_th && is_numeric) (surface td)) in
  let td :=
    with_surface td
      (toggle "psp-align-left" (is_th || negb is_numeric) (surface td)) in
  with_surface td
    (toggle "psp-color-mode-bar"
       (number_fg_mode_is_bar plugin && is_numeric) (surface td)).

(** [for (const td of tr.children)]: [done] are the cells of the row styled
    so far, [before] and [after] the rows around it. *)
Fixpoint style_cells (before : Grid) (done todo : list Cell) (after : Grid)
    : list Cell :=
  match todo with
  | [] => done
  | td :: rest =>
      let td' :=
        style_td (fun c => before ++ (done ++ c :: rest) :: after) td in
      style_cells before (done ++ [td']) rest after
  end.

(** [for (const tr of regularTable.children[0].children[1].children)] *)
Fixpoint style_rows (before todo : Grid) : Grid :=
  match todo with
  | [] => before
  | tr :: rest =>
      style_rows (before ++ [style_cells before [] tr rest]) rest
  end.

Definition table_cell_style_listener (regularTable : Grid) : Grid :=
  style_rows [] regularTable.

(** The plugin configuration and the type that the loop body resolves for a
    cell. *)
Definition plugin_of (td : Cell) : option Plugin :=
  plugins !! property_key (column_name (meta td)).

Definition type_of (td : Cell) : option string := get_psp_type this (meta td).

(** The surface of a cell after the type dispatch and the boolean marker. *)
Definition typed (td : Cell) : Surface :=
  toggle "psp-bool-type"
    (type_is (type_of td) "boolean" && negb (strict_eq (user (meta td)) VNull))
    (dispatch (type_of td) (plugin_of td) td (meta td)).

(** The surface of a cell after the row header rule, where it runs. *)
Definition headed (regularTable : Cell -> Grid) (td : Cell) : Surface :=
  if String.eqb (tagName td) "TH" then
    cell_style_row_header this (regularTable (with_surface td (typed td)))
      (with_surface td (typed td)) (meta td)
  else typed td.

(** Cell [b] is cell [a] after the loop body, in some table around it. *)
Definition styled (a b : Cell) : Prop :=
  exists regularTable, b = style_td regularTable a.

End Listener.

(** The attributes of a cell that the listener answers for. *)
Record Attrs := mkAttrs {
  a_backgroundColor : string;
  a_color : string;
  a_bool_type : bool;
  a_align_left : bool;
  a_align_right : bool;
  a_color_mode_bar : bool
}.

Definition has_class (name : string) (td : Cell) : bool :=
  bool_decide (name ∈ classList (surface td)).

Definition attrs (td : Cell) : Attrs :=
  {| a_backgroundColor := backgroundColor (surface td);
     a_color := color (surface td);
     a_bool_type := has_class "psp-bool-type" td;
     a_align_left := has_class "psp-align-left" td;
     a_align_right := has_class "psp-align-right" td;
     a_color_mode_bar := has_class "psp-color-mode-bar" td |}.

Definition grid_attrs (g : Grid) : list (list Attrs) := map (map attrs) g.

(** The two colours of a surface. *)
Definition colors (s : Surface) : string * string :=
  (backgroundColor s, color s).

(** The resolved type is numeric. *)
Definition is_numeric_type (type : option string) : bool :=
  type_is type "integer" || type_is type "float".

(** The resolved type is one of the six that have a sub-rule. *)
Definition is_known_type (type : option string) : bool :=
  type_is type "integer" || type_is type "float" || type_is type "boolean"
  || type_is type "string" || type_is type "date" || type_is type "datetime".

(** The cell in row [i], position [j]. *)
Definition cell_at (g : Grid) (i j : nat) : option Cell :=
  match g !! i with Some tr => tr !! j | None => None end.

(** The index that [get_psp_type] looks up lies within the table it looks
    it up in. *)
Definition type_index_in_range (this : Model) (metadata : Metadata) : bool :=
  if ge0 (x metadata) then
    match x metadata with
    | Some n => bool_decide (Z.to_nat n < length (_column_types this))%nat
    | None => false
    end
  else
    match row_header_x metadata with
    | Some n =>
        bool_decide (1 <= n)%Z
        && bool_decide (Z.to_nat (n - 1) < length (_row_header_types this))%nat
    | None => false
    end.

(** ** The contract of the sub-rules

    The spec has each sub-rule "a pure function of
    (plugin_config_for_column, cell_metadata) -> color/class assignment",
    and the row header rule "orthogonal to" the type-based styling.  What
    the theorems below need of that is stated here. *)

(** A type rule's colours are stable: on a cell that already carries the
    colours the rule gives it, the rule gives the same colours again,
    whatever else has changed on the cell's surface. *)
Definition stable_colors (rule : type_rule) : Prop :=
  forall this plugin td s,
    colors s = colors (rule this plugin td (meta td)) ->
    colors (rule this plugin (with_surface td s) (meta td)) = colors s.

(** The row header rule leaves the two colours alone. *)
Definition keeps_colors (rule : header_rule) : Prop :=
  forall this g td metadata,
    colors (rule this g td metadata) = colors (surface td).

(** The row header rule leaves the boolean marker alone. *)
Definition keeps_bool_type (rule : header_rule) : Prop :=
  forall this g td metadata,
    "psp-bool-type" ∈ classList (rule this g td metadata)
    <-> "psp-bool-type" ∈ classList (surface td).

(** The four classes that the listener toggles. *)
Definition markers : list string :=
  ["psp-bool-type"; "psp-align-right"; "psp-align-left"; "psp-color-mode-bar"].

(** ** Sample sub-rules, for running the listener *)

Module Samples.

(** Foreground from the configuration's [color], if it is a string. *)
Definition plugin_color (plugin : option Plugin) : string :=
  match plugin with
  | Some p => match p !! "color" with Some (VStr c) => c | _ => "" end
  | None => ""
  end.

Definition set_color (c : string) (s : Surface) : Surface :=
  {| backgroundColor := backgroundColor s; color := c;
     classList := classList s; style_other := style_other s |}.

Definition set_background (c : string) (s : Surface) : Surface :=
  {| backgroundColor := c; color := color s;
     classList := classList s; style_other := style_other s |}.

(** Numbers: the configured colour on negative values, and a mark on the
    class list. *)
Definition numeric_rule : type_rule := fun _ plugin td metadata =>
  let negative :=
    match user metadata with VNum n => (n <? 0)%Z | _ => false end in
  toggle "psp-negative" negative
    (set_color (if negative then plugin_color plugin else "") (surface td)).

(** Booleans and dates: no styling without configuration. *)
Definition boolean_rule : type_rule := fun _ _ td _ => surface td.
Definition datetime_rule : type_rule := fun _ plugin td _ =>
  set_color (plugin_color plugin) (surface td).

(** Strings: the configured colour as background. *)
Definition string_rule : type_rule := fun _ plugin td _ =>
  set_background (plugin_color plugin) (set_color "" (surface td)).

(** Row headers: a tree mark on every header with a depth. *)
Definition row_header_rule : header_rule := fun _ _ td metadata =>
  toggle "psp-tree-label" (ge0 (row_header_x metadata)) (surface td).

Definition blank : Surface := mkSurface "" "" ∅ ∅.

Definition stale : Surface :=
  mkSurface "#ff0000" "#00ff00"
    ({[ "psp-bool-type" ]} ∪ {[ "psp-align-right" ]}
     ∪ {[ "psp-color-mode-bar" ]}) ∅.

Definition model : Model :=
  mkModel ["integer"; "string"; "boolean"; "map"] ["string"].

Definition plugins : gmap string Plugin :=
  <["price" := <["number_fg_mode" := VStr "bar"]>
                 (<["color" := VStr "#123456"]> ∅)]>
  (<["name" := <["number_fg_mode" := VStr "bar"]> ∅]> ∅).

Definition th0 : Cell :=
  mkCell "TH" (mkMetadata None (Some 1%Z) None (VStr "Europe")) stale.
Definition price (v : val) : Cell :=
  mkCell "TD" (mkMetadata (Some 0%Z) None (Some ["price"]) v) stale.
Definition name (v : val) : Cell :=
  mkCell "TD" (mkMetadata (Some 1%Z) None (Some ["name"]) v) blank.
Definition flag (v : val) : Cell :=
  mkCell "TD" (mkMetadata (Some 2%Z) None (Some ["flag"]) v) blank.
Definition odd (x : Z) : Cell :=
  mkCell "TD" (mkMetadata (Some x) None (Some []) VNull) stale.

Definition grid : Grid :=
  [ [ th0; price (VNum (-3)); name (VStr "a"); flag VNull; odd 3 ];
    [ th0; price (VNum 7); name (VStr "b"); flag (VBool false); odd 9 ] ].

Definition listener : Grid -> Grid :=
  table_cell_style_listener numeric_rule boolean_rule string_rule datetime_rule
    row_header_rule
    model plugins.

End Samples.

End CellStyle.

(* ===================================================================== *)
(** * Row selection: [event_handlers/row_select_click.js]                 *)
(* ===================================================================== *)

Module RowSelect.

Import Js.

(** What [regularTable.getMeta(event.target)] returns, as far as the
    listener reads it; [y] is absent on cells that are not in a row of the
    body, [x] on cells that are not in a data column. *)
Record Meta := mkMeta { x : option Z; y : option Z; y0 : Z }.

(** The field of [this] that the listener reads: one key sequence per
    rendered row. *)
Record Model := mkModel { _ids : list (list val) }.

(** [Array.prototype.reduce] with an initial value; the callback gets the
    accumulator, the element and its index. *)
Fixpoint reduce_from {A B} (f : B -> A -> nat -> B) (l : list A) (i : nat)
    (acc : B) : B :=
  match l with
  | [] => acc
  | a :: rest => reduce_from f rest (S i) (f acc a i)
  end.

Definition reduce {A B} (f : B -> A -> nat -> B) (l : list A) (init : B) : B :=
  reduce_from f l 0 init.

(** [id[i]] on an array *)
Definition elem (id : list val) (i : nat) : val :=
  match id !! i with Some v => v | None => VUndef end.

(** [selected.reduce((agg, x, i) => agg && x === id[i], true)] *)
Definition key_match (selected id : list val) : bool :=
  reduce (fun agg x i => agg && strict_eq x (elem id i)) selected true.

(** [a >= 0] for a number that may be [undefined]. *)
Definition ge0 (v : option Z) : bool :=
  match v with Some n => (0 <=? n)%Z | None => false end.

Section Listener.

(** The terms of a filter; [getCellConfig] of [get_cell_config.js] is not
    among the sources and is a parameter, standing for
    [(await getCellConfig(this, y, x)).config.filter]. *)
Variable FilterTerm : Type.
Variable getCellConfig : Model -> option Z -> option Z -> list FilterTerm.

(** The [detail] of the [CustomEvent]. *)
Record CustomEvent := mkEvent {
  ev_type : string;
  ev_bubbles : bool;
  ev_composed : bool;
  ev_selected : bool;
  ev_filter : list FilterTerm
}.

(** The event that a click dispatches. *)
Definition select_event (selected : bool) (filter : list FilterTerm)
    : CustomEvent :=
  {| ev_type := "perspective-select"; ev_bubbles := true; ev_composed := true;
     ev_selected := selected; ev_filter := filter |}.

(** What the listener changes: the selection [WeakMap] (tables are keyed by
    identity, a stored [undefined] is [Some None]), the [handled] mark of
    the event, the events dispatched on the viewer and the number of calls
    of [regularTable.draw]. *)
Record World := mkWorld {
  selected_rows_map : gmap nat (option (list val));
  event_handled : bool;
  dispatched : list CustomEvent;
  draws : nat
}.

(** The promise resolves, or is rejected with the [TypeError] of reading a
    property of [undefined]. *)
Inductive result :=
  | Resolved (w : World)
  | TypeError.

(** [selected_rows_map.get(regularTable)] *)
Definition map_get (m : gmap nat (option (list val))) (regularTable : nat)
    : option (list val) :=
  match m !! regularTable with Some v => v | None => None end.

(** [is_deselect], or [None] where computing it throws: with a stored
    selection, [id[i]] and [id.length] are read off [id]. *)
Definition is_deselect (selected id : option (list val)) : option bool :=
  match selected with
  | None => Some false
  | Some selected =>
      match id with
      | None => None
      | Some id =>
          Some ((length id =? length selected)%nat && key_match selected id)
      end
  end.

Definition selectionListener (this : Model) (regularTable : nat)
    (selectable : bool) (meta : option Meta) (which : Z) (w : World) : result :=
  if negb selectable then Resolved w
  else if event_handled w then Resolved w
  else if negb (which =? 1)%Z then Resolved w
  else
    match meta with
    | None => Resolved w
    | Some meta =>
        let id := array_get (_ids this) ((fun y => y - y0 meta)%Z <$> y meta) in
        if ge0 (y meta) then
          let selected := map_get (selected_rows_map w) regularTable in
          match is_deselect selected id with
          | None => TypeError
          | Some is_deselect =>
              let '(map', filter) :=
                if is_deselect then
                  (delete regularTable (selected_rows_map w), [])
                else
                  (<[regularTable := id]> (selected_rows_map w),
                   getCellConfig this (y meta) (x meta)) in
              Resolved
                {| selected_rows_map := map';
                   event_handled := true;
                   dispatched :=
                     dispatched w ++
                     [ {| ev_type := "perspective-select";
                          ev_bubbles := true;
                          ev_composed := true;
                          ev_selected := negb is_deselect;
                          ev_filter := filter |} ];
                   draws := S (draws w) |}
          end
        else Resolved w
    end.

End Listener.

Arguments mkEvent {FilterTerm}.
Arguments ev_type {FilterTerm}.
Arguments ev_bubbles {FilterTerm}.
Arguments ev_composed {FilterTerm}.
Arguments ev_selected {FilterTerm}.
Arguments ev_filter {FilterTerm}.
Arguments mkWorld {FilterTerm}.
Arguments selected_rows_map {FilterTerm}.
Arguments event_handled {FilterTerm}.
Arguments dispatched {FilterTerm}.
Arguments draws {FilterTerm}.
Arguments Resolved {FilterTerm}.
Arguments TypeError {FilterTerm}.
Arguments is_deselect : clear implicits.
Arguments selectionListener {FilterTerm}.
Arguments select_event {FilterTerm}.


(** The click is one that the listener acts on: the viewer is selectable,
    the event not handled, the button the primary one, and the target a
    cell of a data row. *)
Definition acts_on {FilterTerm} (selectable : bool) (meta : option Meta)
    (which : Z) (w : World FilterTerm) : bool :=
  selectable && negb (event_handled w) && (which =? 1)%Z
  && match meta with Some m => ge0 (y m) | None => false end.

(** [this._ids[meta.y - meta.y0]] *)
Definition row_id (this : Model) (meta : Meta) : option (list val) :=
  array_get (_ids this) ((fun y => y - y0 meta)%Z <$> y meta).

(** ** A sample table, for running the listener *)

Module Samples.

Definition model : Model :=
  mkModel [ [VStr "Europe"; VStr "France"]; [VStr "Europe"; VStr "Spain"] ].

(** The filter of a cell is its position. *)
Definition config (_ : Model) (y x : option Z) : list (option Z) := [y; x].

(** A cell of the second rendered row. *)
Definition meta : Meta := mkMeta (Some 2%Z) (Some 11%Z) 10%Z.

(** A cell of a row past the last key sequence. *)
Definition meta_no_id : Meta := mkMeta (Some 2%Z) (Some 15%Z) 10%Z.

Definition fresh : World (option Z) := mkWorld ∅ false [] 0.

(** The first row is selected in table 7. *)
Definition world : World (option Z) :=
  mkWorld (<[7%nat := Some [VStr "Europe"; VStr "France"]]> ∅) false [] 0.

End Samples.

End RowSelect.

(* ===================================================================== *)
(** * Plugin state serialisation: [save]                                  *)
(* ===================================================================== *)

Module Save.

Import Js.

(** ** The heap *)

(** A heap object is a plain object (its own properties by name) or an
    array.  Property maps carry no insertion order: nothing below depends on
    the order in which [Object.keys] lists the names.  Prototypes are not
    modelled: a property is an own property. *)
Inductive obj :=
  | Obj (props : gmap string val)
  | Arr (elems : list val).

(** Objects are allocated one after the other and never freed; a location
    is an index in the heap. *)
Abbreviation heap := (list obj).

(** Heap-passing computations that may throw. *)
Definition M (A : Type) : Type := heap -> option (A * heap).

Definition ret {A} (a : A) : M A := fun h => Some (a, h).

Definition bind {A B} (m : M A) (k : A -> M B) : M B :=
  fun h => match m h with Some (a, h') => k a h' | None => None end.

Definition throw {A} : M A := fun _ => None.

Notation "'let*' x := m 'in' k" := (bind m (fun x => k))
  (at level 10, x pattern, m at level 100, k at level 200).

(** [new] object *)
Definition alloc (o : obj) : M nat := fun h => Some (length h, h ++ [o]).

Definition load (l : nat) : M obj :=
  fun h => match h !! l with Some o => Some (o, h) | None => None end.

Definition store (l : nat) (o : obj) : M unit :=
  fun h =>
    match h !! l with
    | Some _ => Some (tt, <[l := o]> h)
    | None => None
    end.

Fixpoint for_each {A} (l : list A) (body : A -> M unit) : M unit :=
  match l with
  | [] => ret tt
  | a :: rest => let* _ := body a in for_each rest body
  end.

(** ** Property access *)

(** The indexed properties of an array or a string, by decimal name. *)
Definition arr_props (elems : list val) : gmap string val :=
  list_to_map (imap (fun i v => (pretty i, v)) elems).

Definition chars (s : string) : list val :=
  (fun c => VStr (String c EmptyString)) <$> String.list_ascii_of_string s.

(** The own enumerable properties of a value, as [Object.keys] and
    [Object.assign] see them; [None] for a location that holds nothing. *)
Definition own_props (h : heap) (v : val) : option (gmap string val) :=
  match v with
  | VRef l =>
      match h !! l with
      | Some (Obj props) => Some props
      | Some (Arr elems) => Some (arr_props elems)
      | None => None
      end
  | VStr s => Some (arr_props (chars s))
  | VUndef | VNull | VBool _ | VNum _ => Some ∅
  end.

(** [props[k]] *)
Definition prop (props : gmap string val) (k : string) : val :=
  match props !! k with Some v => v | None => VUndef end.

(** [v[0]] for a value that is neither [undefined] nor [null]. *)
Definition index0 (h : heap) (v : val) : option val :=
  match v with
  | VRef l =>
      match h !! l with
      | Some (Obj props) => Some (prop props "0")
      | Some (Arr elems) =>
          Some (match elems !! 0%nat with Some e => e | None => VUndef end)
      | None => None
      end
  | VStr (String c _) => Some (VStr (String c EmptyString))
  | VStr EmptyString | VBool _ | VNum _ => Some VUndef
  | VUndef | VNull => None
  end.

(** [v?.[0]] *)
Definition opt_index0 (h : heap) (v : val) : option val :=
  match v with
  | VUndef | VNull => Some VUndef
  | _ => index0 h v
  end.

Definition lift {A} (f : heap -> option A) : M A :=
  fun h => match f h with Some a => Some (a, h) | None => None end.

(** [o.k], for [o] a plain object on the heap *)
Definition get_prop (l : nat) (k : string) : M val :=
  let* o := load l in
  match o with
  | Obj props => ret (prop props k)
  | Arr _ => throw
  end.

(** [o.k = v], for [o] a plain object on the heap *)
Definition set_prop (l : nat) (k : string) (v : val) : M unit :=
  let* o := load l in
  match o with
  | Obj props => store l (Obj (<[k := v]> props))
  | Arr _ => throw
  end.

(** ** JSON *)

Local Unset Elimination Schemes.

Inductive json :=
  | JNull
  | JBool (b : bool)
  | JNum (n : Z)
  | JStr (s : string)
  | JArr (items : list json)
  | JObj (fields : list (string * json)).

Local Set Elimination Schemes.

(** The fields of an object that have a JSON text: a property whose value
    has none ([undefined]) is left out. *)
Fixpoint collect_fields (l : list (string * option (option json)))
    : option (list (string * json)) :=
  match l with
  | [] => Some []
  | (k, r) :: rest =>
      match r, collect_fields rest with
      | Some (Some t), Some fs => Some ((k, t) :: fs)
      | Some None, Some fs => Some fs
      | _, _ => None
      end
  end.

(** The items of an array: an item without a JSON text is [null]. *)
Fixpoint collect_items (l : list (option (option json))) : option (list json) :=
  match l with
  | [] => Some []
  | r :: rest =>
      match r, collect_items rest with
      | Some (Some t), Some ts => Some (t :: ts)
      | Some None, Some ts => Some (JNull :: ts)
      | _, _ => None
      end
  end.

(** The text of an object, from the results for its property values. *)
Definition object_json (rs : gmap string (option (option json)))
    : option (option json) :=
  match collect_fields (map_to_list rs) with
  | Some fs => Some (Some (JObj fs))
  | None => None
  end.

(** [JSON.stringify(v)], to the syntax tree of the text.  The outer [None]
    is the [TypeError] of a cyclic structure, met here as a nesting deeper
    than [fuel]; the inner [None] is the result [undefined]. *)
Fixpoint stringify (fuel : nat) (h : heap) (v : val) {struct fuel}
    : option (option json) :=
  match v with
  | VUndef => Some None
  | VNull => Some (Some JNull)
  | VBool b => Some (Some (JBool b))
  | VNum n => Some (Some (JNum n))
  | VStr s => Some (Some (JStr s))
  | VRef l =>
      match fuel with
      | O => None
      | S fuel' =>
          match h !! l with
          | Some (Arr elems) =>
              match collect_items (map (stringify fuel' h) elems) with
              | Some ts => Some (Some (JArr ts))
              | None => None
              end
          | Some (Obj props) => object_json (stringify fuel' h <$> props)
          | None => None
          end
      end
  end.

(** The properties that parsing an object text defines: of two fields of one
    name the later wins. *)
Definition props_of_fields (fs : list (string * val)) : gmap string val :=
  fold_left (fun m kv => <[kv.1 := kv.2]> m) fs ∅.

(** [JSON.parse]: every array and object of the text is a new heap
    object. *)
Fixpoint parse (t : json) (h : heap) {struct t} : val * heap :=
  match t with
  | JNull => (VNull, h)
  | JBool b => (VBool b, h)
  | JNum n => (VNum n, h)
  | JStr s => (VStr s, h)
  | JArr items =>
      let '(vs, h1) :=
        (fix parse_items (ts : list json) (h : heap) : list val * heap :=
           match ts with
           | [] => ([], h)
           | t :: rest =>
               let '(v, h1) := parse t h in
               let '(vs, h2) := parse_items rest h1 in
               (v :: vs, h2)
           end) items h in
      (VRef (length h1), h1 ++ [Arr vs])
  | JObj fields =>
      let '(fs, h1) :=
        (fix parse_fields (kts : list (string * json)) (h : heap)
             : list (string * val) * heap :=
           match kts with
           | [] => ([], h)
           | (k, t) :: rest =>
               let '(v, h1) := parse t h in
               let '(fs, h2) := parse_fields rest h1 in
               ((k, v) :: fs, h2)
           end) fields h in
      (VRef (length h1), h1 ++ [Obj (props_of_fields fs)])
  end.

(** [JSON.parse(JSON.stringify(v))] *)
Definition json_round_trip (fuel : nat) (v : val) : M val :=
  fun h =>
    match stringify fuel h v with
    | Some (Some t) => Some (parse t h)
    | Some None | None => None
    end.

(** ** The plugin *)

(** [this.regular_table], as far as [save] reads it: the value kept under
    [PRIVATE_PLUGIN_SYMBOL]. *)
Record Datagrid := mkDatagrid { plugin_symbol : val }.

Record This := mkThis {
  regular_table : option Datagrid;
  _is_scroll_lock : val;
  _is_edit_mode : val
}.

(** [Object.assign({}, src)] *)
Definition object_assign_fresh (src : val) : M nat :=
  let* props := lift (fun h => own_props h src) in
  alloc (Obj props).

(** The two conditionals of the first loop, on the copy [config]. *)
Definition reduce_colors (config : nat) : M unit :=
  let* pos_fg_color := get_prop config "pos_fg_color" in
  let* pos_bg_color := get_prop config "pos_bg_color" in
  let* _ :=
    if truthy pos_fg_color || truthy pos_bg_color then
      let* v := lift (fun h => opt_index0 h pos_fg_color) in
      let* _ := set_prop config "pos_fg_color" v in
      let* neg_fg_color := get_prop config "neg_fg_color" in
      let* v := lift (fun h => opt_index0 h neg_fg_color) in
      let* _ := set_prop config "neg_fg_color" v in
      let* pos_bg_color := get_prop config "pos_bg_color" in
      let* v := lift (fun h => opt_index0 h pos_bg_color) in
      let* _ := set_prop config "pos_bg_color" v in
      let* neg_bg_color := get_prop config "neg_bg_color" in
      let* v := lift (fun h => opt_index0 h neg_bg_color) in
      set_prop config "neg_bg_color" v
    else ret tt in
  let* color := get_prop config "color" in
  if truthy color then
    let* v := lift (fun h => index0 h color) in
    set_prop config "color" v
  else ret tt.

(** The body of the first loop: [col] is a key of the stored
    configuration and [src] the value stored under it; [columns] is
    [token.columns].  The assignment [token.columns[col] = config] makes an
    own property, also where [col] names a function of [Object.prototype];
    the key [__proto__], for which it would set the prototype of
    [token.columns] instead, is outside the model. *)
Definition save_column (columns : nat) (entry : string * val) : M unit :=
  let '(col, src) := entry in
  let* config := object_assign_fresh src in
  let* _ := reduce_colors config in
  set_prop columns col (VRef config).

(** The names of the members of [Object.prototype], which every object
    made by an object literal inherits: functions, and under [__proto__]
    the prototype itself. *)
Definition object_prototype : list string :=
  ["constructor"; "__defineGetter__"; "__defineSetter__"; "hasOwnProperty";
   "__lookupGetter__"; "__lookupSetter__"; "isPrototypeOf";
   "propertyIsEnumerable"; "toString"; "valueOf"; "__proto__";
   "toLocaleString"].

(** What [o[k]] finds on an object made by an object literal: an own
    property, or else a member inherited from [Object.prototype], or else
    [undefined].  The inherited members are not objects of the heap. *)
Inductive member :=
  | Own (v : val)
  | Inherited.

(** [!!m] : functions and the prototype are truthy. *)
Definition member_truthy (m : member) : bool :=
  match m with
  | Own v => truthy v
  | Inherited => true
  end.

(** [o[k]], for [o] an object made by an object literal *)
Definition get_member (l : nat) (k : string) : M member :=
  let* o := load l in
  match o with
  | Obj props =>
      match props !! k with
      | Some v => ret (Own v)
      | None =>
          if bool_decide (k ∈ object_prototype) then ret Inherited
          else ret (Own VUndef)
      end
  | Arr _ => throw
  end.

(** The body of the second loop.  [token.columns[col]] is read through the
    prototype of [token.columns]: for a column that has no entry and is
    named as a member of [Object.prototype], the read finds that member, no
    entry is made, and the size is written on the member, outside the
    heap. *)
Definition save_override (columns : nat) (entry : string * val) : M unit :=
  let '(col, size) := entry in
  let* cur := get_member columns col in
  let* _ :=
    if member_truthy cur then ret tt
    else
      let* fresh := alloc (Obj ∅) in
      set_prop columns col (VRef fresh) in
  let* cur := get_member columns col in
  match cur with
  | Own (VRef l) => set_prop l "column_size_override" size
  | Inherited => ret tt
  | Own _ => throw
  end.

(** [Object.keys(v || {})], each key with the value under it. *)
Definition entries_or_empty (v : val) : M (list (string * val)) :=
  if truthy v then
    let* props := lift (fun h => own_props h v) in
    ret (map_to_list props)
  else ret [].

(** The properties of the object literal
    [{columns: {}, scroll_lock: !!this._is_scroll_lock,
      editable: !!this._is_edit_mode}], [columns] being the location of the
    inner literal. *)
Definition token_props (columns : nat) (this : This) : gmap string val :=
  <["columns" := VRef columns]>
    (<["scroll_lock" := VBool (truthy (_is_scroll_lock this))]>
       (<["editable" := VBool (truthy (_is_edit_mode this))]> ∅)).

(** [save.call(this)].  [save_column_size_overrides] of
    [model/column_overrides.js] is not among the sources: what its call
    returns is the parameter [column_size_overrides]. *)
Definition save (fuel : nat) (column_size_overrides : val) (this : This)
    : M val :=
  match regular_table this with
  | Some datagrid =>
      let* columns := alloc (Obj ∅) in
      let* token := alloc (Obj (token_props columns this)) in
      let* configs := entries_or_empty (plugin_symbol datagrid) in
      let* _ := for_each configs (save_column columns) in
      let* overrides := entries_or_empty column_size_overrides in
      let* _ := for_each overrides (save_override columns) in
      json_round_trip fuel (VRef token)
  | None =>
      let* empty := alloc (Obj ∅) in
      ret (VRef empty)
  end.

(** ** Reading a returned value *)

(** The value [v] of heap [h] is what the text [t] denotes: the arrays and
    objects of [t] are heap objects with these items and these fields.  An
    object text names each of its fields once and the object has as many
    properties as the text has fields, so the object has the fields of the
    text and no other property. *)
Fixpoint represents (h : heap) (v : val) (t : json) {struct t} : bool :=
  match t with
  | JNull => bool_decide (v = VNull)
  | JBool b => bool_decide (v = VBool b)
  | JNum n => bool_decide (v = VNum n)
  | JStr s => bool_decide (v = VStr s)
  | JArr items =>
      match v with
      | VRef l =>
          match h !! l with
          | Some (Arr elems) =>
              (fix all2 (ts : list json) (vs : list val) {struct ts} : bool :=
                 match ts, vs with
                 | [], [] => true
                 | t :: ts, v :: vs => represents h v t && all2 ts vs
                 | _, _ => false
                 end) items elems
          | _ => false
          end
      | _ => false
      end
  | JObj fields =>
      match v with
      | VRef l =>
          match h !! l with
          | Some (Obj props) =>
              bool_decide (NoDup fields.*1)
              && bool_decide (size props = length fields)
              && (fix all (fs : list (string * json)) {struct fs} : bool :=
                    match fs with
                    | [] => true
                    | (k, t) :: fs =>
                        match props !! k with
                        | Some v => represents h v t
                        | None => false
                        end && all fs
                    end) fields
          | _ => false
          end
      | _ => false
      end
  end.

(** The field [k] of an object text. *)
Definition jfield (t : json) (k : string) : option json :=
  match t with
  | JObj fs => (list_to_map fs : gmap string json) !! k
  | _ => None
  end.

Fixpoint jpath (t : json) (path : list string) : option json :=
  match path with
  | [] => Some t
  | k :: rest =>
      match jfield t k with
      | Some t' => jpath t' rest
      | None => None
      end
  end.

(** The values held by an object. *)
Definition children (o : obj) : list val :=
  match o with
  | Obj props => (map_to_list props).*2
  | Arr elems => elems
  end.


(** ** What [save] computes, as a function of the stored state *)

(** The properties of a column's entry: those of the stored configuration
    with the colours reduced as the two conditionals do. *)
Definition reduced_props (h : heap) (props : gmap string val)
    : option (gmap string val) :=
  p1 ← (if truthy (prop props "pos_fg_color") || truthy (prop props "pos_bg_color")
        then
          v1 ← opt_index0 h (prop props "pos_fg_color");
          v2 ← opt_index0 h (prop props "neg_fg_color");
          v3 ← opt_index0 h (prop props "pos_bg_color");
          v4 ← opt_index0 h (prop props "neg_bg_color");
          Some (<["neg_bg_color" := v4]>
                  (<["pos_bg_color" := v3]>
                     (<["neg_fg_color" := v2]>
                        (<["pos_fg_color" := v1]> props))))
        else Some props);
  if truthy (prop p1 "color") then
    v ← index0 h (prop p1 "color");
    Some (<["color" := v]> p1)
  else Some p1.

(** [Object.keys(v || {})] with the values, read off heap [h]. *)
Definition entries (h : heap) (v : val) : option (gmap string val) :=
  if truthy v then own_props h v else Some ∅.

(** The entry of a column that has a stored configuration [src]. *)
Definition config_entry (h : heap) (src : val) : option (gmap string val) :=
  own_props h src ≫= reduced_props h.

(** The size overrides that are recorded in the token: those of the
    columns that have an entry already, and those of the other columns
    unless [token.columns] inherits a member of their name. *)
Definition recorded (configs : gmap string (gmap string val))
    (overrides : gmap string val) : gmap string val :=
  filter (fun kv => is_Some (configs !! kv.1) \/ kv.1 ∉ object_prototype)
         overrides.

(** The entries after the second loop, for the overrides that are
    recorded: a size override is added to the entry of its column, or to a
    new empty one. *)
Definition token_columns (configs : gmap string (gmap string val))
    (overrides : gmap string val) : gmap string (gmap string val) :=
  merge (fun entry size =>
           match size with
           | Some size =>
               Some (<["column_size_override" := size]>
                       (match entry with Some e => e | None => ∅ end))
           | None => entry
           end) configs overrides.

(** The texts of an entry, of [token.columns] and of the token, the
    property values being read off heap [h]. *)
Definition entry_json (n : nat) (h : heap) (entry : gmap string val)
    : option (option json) :=
  object_json (stringify n h <$> entry).

Definition columns_json (n : nat) (h : heap)
    (columns : gmap string (gmap string val)) : option (option json) :=
  object_json (entry_json n h <$> columns).

Definition token_json (n : nat) (h : heap)
    (columns : gmap string (gmap string val)) (scroll_lock editable : bool)
    : option (option json) :=
  object_json
    (<["columns" := columns_json n h columns]>
       (<["scroll_lock" := Some (Some (JBool scroll_lock))]>
          (<["editable" := Some (Some (JBool editable))]> ∅))).

(** The stored state is well formed for serialisation with property values
    nested at most [n] deep: what is kept under the plugin symbol and what
    the size overrides are can be enumerated, every stored configuration
    too, and every property value has a JSON text. *)
Definition serialisable (n : nat) (h : heap) (v : val) : bool :=
  match stringify n h v with Some _ => true | None => false end.

Definition props_ok (n : nat) (h : heap) (props : gmap string val) : bool :=
  forallb (fun kv => serialisable n h kv.2) (map_to_list props).

Definition config_ok (n : nat) (h : heap) (src : val) : bool :=
  match own_props h src with
  | Some props => props_ok n h props
  | None => false
  end.

Definition well_formed (n : nat) (h : heap) (column_size_overrides : val)
    (datagrid : Datagrid) : bool :=
  match entries h (plugin_symbol datagrid), entries h column_size_overrides with
  | Some configs, Some overrides =>
      forallb (fun kv => config_ok n h kv.2) (map_to_list configs)
      && props_ok n h overrides
  | _, _ => false
  end.

(** The text of the token that [save] returns for a well-formed state. *)
Definition saved_json (n : nat) (h : heap) (column_size_overrides : val)
    (this : This) : option (option json) :=
  match regular_table this with
  | Some datagrid =>
      configs ← entries h (plugin_symbol datagrid);
      overrides ← entries h column_size_overrides;
      token_json n h
        (token_columns (omap (config_entry h) configs)
           (recorded (omap (config_entry h) configs) overrides))
        (truthy (_is_scroll_lock this)) (truthy (_is_edit_mode this))
  | None => Some (Some (JObj []))
  end.

(** ** Notions for the proofs *)

(** The two loops of [parse], on their own. *)
Fixpoint parse_items (ts : list json) (h : heap) : list val * heap :=
  match ts with
  | [] => ([], h)
  | t :: rest =>
      let '(v, h1) := parse t h in
      let '(vs, h2) := parse_items rest h1 in
      (v :: vs, h2)
  end.

Fixpoint parse_fields (kts : list (string * json)) (h : heap)
    : list (string * val) * heap :=
  match kts with
  | [] => ([], h)
  | (k, t) :: rest =>
      let '(v, h1) := parse t h in
      let '(fs, h2) := parse_fields rest h1 in
      ((k, v) :: fs, h2)
  end.

(** The two loops of [represents], on their own. *)
Definition represents_items (h : heap) : list json -> list val -> bool :=
  fix all2 (ts : list json) (vs : list val) {struct ts} : bool :=
    match ts, vs with
    | [], [] => true
    | t :: ts, v :: vs => represents h v t && all2 ts vs
    | _, _ => false
    end.

Definition represents_fields (h : heap) (props : gmap string val)
    : list (string * json) -> bool :=
  fix all (fs : list (string * json)) {struct fs} : bool :=
    match fs with
    | [] => true
    | (k, t) :: fs =>
        match props !! k with
        | Some v => represents h v t
        | None => false
        end && all fs
    end.

(** A text whose objects name each field once. *)
Local Unset Elimination Schemes.

Inductive wf_json : json -> Prop :=
  | wf_null : wf_json JNull
  | wf_bool b : wf_json (JBool b)
  | wf_num n : wf_json (JNum n)
  | wf_str s : wf_json (JStr s)
  | wf_arr items : Forall wf_json items -> wf_json (JArr items)
  | wf_obj fields :
      NoDup fields.*1 -> Forall (fun kt => wf_json kt.2) fields ->
      wf_json (JObj fields).

Local Set Elimination Schemes.

(** A value that is no reference, or a reference into [a, b). *)
Definition val_in (a b : nat) (v : val) : Prop :=
  match v with VRef l => a <= l < b | _ => True end.

(** [h'] is [h] with new objects after it; the values [vs] and the values
    held by the new objects refer to new objects only. *)
Definition grows (h h' : heap) (vs : list val) : Prop :=
  (exists ext, h' = h ++ ext)
  /\ Forall (val_in (length h) (length h')) vs
  /\ forall l o, length h <= l -> h' !! l = Some o ->
                 Forall (val_in (length h) (length h')) (children o).

(** The field that a result contributes to an object text. *)
Definition field_of (kr : string * option (option json))
    : option (string * json) :=
  match kr.2 with Some (Some t) => Some (kr.1, t) | _ => None end.

(** The text that a result stands for. *)
Definition text_of (r : option (option json)) : option json :=
  match r with Some (Some t) => Some t | _ => None end.

(** One heap agrees with another where the other has objects. *)
Definition agree (h h' : heap) : Prop :=
  forall l o, h !! l = Some o -> h' !! l = Some o.

(** The state of the loops: [hb] is the heap they start from, [c] the
    location of [token.columns] in it, and [spec] the entries so far, each
    an object allocated since. *)
Record cols_state (hb h : heap) (c : nat)
    (spec : gmap string (gmap string val)) : Prop := {
  cs_len : length hb <= length h;
  cs_keep : forall l, l < length hb -> l <> c -> h !! l = hb !! l;
  cs_c : c < length hb;
  cs_locs : exists locs : gmap string nat,
      h !! c = Some (Obj (VRef <$> locs))
      /\ (forall col, locs !! col = None <-> spec !! col = None)
      /\ (forall col l, locs !! col = Some l ->
            length hb <= l
            /\ exists entry, spec !! col = Some entry
                             /\ h !! l = Some (Obj entry))
      /\ (forall c1 c2 l, locs !! c1 = Some l -> locs !! c2 = Some l -> c1 = c2)
}.

(** A stored configuration whose property values refer to objects of
    [h0]. *)
Definition refs_below (n : nat) (props : gmap string val) : Prop :=
  forall k l, props !! k = Some (VRef l) -> l < n.

(** The entries after a size override for column [col]. *)
Definition with_override (spec : gmap string (gmap string val))
    (col : string) (size : val) : gmap string (gmap string val) :=
  match spec !! col with
  | Some e => <[col := <["column_size_override" := size]> e]> spec
  | None =>
      if bool_decide (col ∈ object_prototype) then spec
      else <[col := <["column_size_override" := size]> ∅]> spec
  end.

(** A stored configuration that [save] can copy and reduce. *)
Definition config_runs (h0 : heap) (src : val) : Prop :=
  exists props rp,
    own_props h0 src = Some props
    /\ refs_below (length h0) props
    /\ reduced_props h0 props = Some rp.

Definition add_config (h0 : heap) (spec : gmap string (gmap string val))
    (e : string * val) : gmap string (gmap string val) :=
  match config_entry h0 e.2 with
  | Some rp => <[e.1 := rp]> spec
  | None => spec
  end.

(** Every property value has a text within [n] levels. *)
Definition props_fine (n : nat) (h : heap) (props : gmap string val) : Prop :=
  forall k v, props !! k = Some v -> serialisable n h v = true.

(** The entries of the token, for a stored state read off [h]. *)
Definition saved_columns (h : heap) (configs overrides : gmap string val)
    : gmap string (gmap string val) :=
  token_columns (omap (config_entry h) configs)
    (recorded (omap (config_entry h) configs) overrides).

(** For a well-formed stored state, [save] returns the parse of the text
    [saved_json], in a heap that extends the one it started from. *)
Arguments token_props : simpl never.

(** [h'] is at least as long as [h] and has the objects of [h] below [n]. *)
Definition above (n : nat) (h h' : heap) : Prop :=
  length h <= length h' /\ forall l, l < n -> h' !! l = h !! l.

(** [h'] is [h] but for the object at [l0]. *)
Definition touch (l0 : nat) (h h' : heap) : Prop :=
  length h' = length h /\ forall l, l <> l0 -> h' !! l = h !! l.




(** [v.k], read off heap [h]. *)
Definition field (h : heap) (v : val) (k : string) : val :=
  match own_props h v with Some props => prop props k | None => VUndef end.

(** [v.k1.k2...] *)
Fixpoint get_path (h : heap) (v : val) (path : list string) : val :=
  match path with
  | [] => v
  | k :: rest => get_path h (field h v k) rest
  end.

(** ** Notions for the further facts *)

(** [save] returns, from heap [h0], a token that reads as the text [t]. *)
Definition saves_as (n : nat) (h0 : heap) (column_size_overrides : val)
    (this : This) (t : json) : Prop :=
  exists v h',
    save (S (S (S n))) column_size_overrides this h0 = Some (v, h')
    /\ represents h' v t = true.

(** [save] returns, from heap [h0], the token [v] in heap [h'], and the
    token reads as the text [t]. *)
Definition saves_token (n : nat) (h0 : heap) (column_size_overrides : val)
    (this : This) (v : val) (h' : heap) (t : json) : Prop :=
  save (S (S (S n))) column_size_overrides this h0 = Some (v, h')
  /\ represents h' v t = true.

(** The value [v] of heap [h] is what an optional text denotes:
    [undefined] where there is no text. *)
Definition reads_as (h : heap) (v : val) (o : option json) : Prop :=
  match o with
  | Some t => represents h v t = true
  | None => v = VUndef
  end.





(** ** Notions for the proof that a cycle makes [save] throw *)





(** ** A sample state *)

Module Samples.

(** Column [a] has a negative colour ramp alone, column [b] a positive and
    a negative one and a single colour, column [c] no configuration; [b] and
    [c] have a size override. *)
Definition stored : heap :=
  [ Arr [VStr "#f00"; VStr "#0f0"];
    Obj (<["neg_fg_color" := VRef 0]> (<["fixed" := VNum 2]> ∅));
    Arr [VStr "#00f"; VNum 1];
    Arr [VStr "#abc"; VStr "#def"];
    Obj (<["pos_fg_color" := VRef 2]>
           (<["neg_fg_color" := VRef 0]> (<["color" := VRef 3]> ∅)));
    Obj (<["a" := VRef 1]> (<["b" := VRef 4]> ∅));
    Obj (<["b" := VNum 100]> (<["c" := VNum 50]> ∅)) ].

Definition plugin : This :=
  mkThis (Some (mkDatagrid (VRef 5))) VUndef (VBool true).

Definition overrides : val := VRef 6.

Definition detached : This := mkThis None VUndef VUndef.

(** The stored state as [save] enumerates it. *)
Definition configs : gmap string val :=
  <["a" := VRef 1]> (<["b" := VRef 4]> ∅).

Definition override_sizes : gmap string val :=
  <["b" := VNum 100]> (<["c" := VNum 50]> ∅).



End Samples.

(** A second sample: column [a] stores its colour as a string, an empty
    array as positive foreground and [null] as negative foreground; there
    are no size overrides. *)
Module Plain.

Definition plain_heap : heap :=
  [ Arr [];
    Obj (<["color" := VStr "#ff0000"]>
           (<["pos_fg_color" := VRef 0]>
              (<["neg_fg_color" := VNull]> (<["fixed" := VNum 2]> ∅))));
    Obj (<["a" := VRef 1]> ∅) ].

Definition plain_plugin : This :=
  mkThis (Some (mkDatagrid (VRef 2))) (VNum 1) VNull.


(** A plugin whose table has no stored configuration. *)
Definition bare_plugin : This :=
  mkThis (Some (mkDatagrid VUndef)) VUndef (VStr "yes").

End Plain.

(** A third sample: the configuration of column [a] refers to itself
    under [owner]. *)
Module Cyclic.



End Cyclic.

(** A fourth sample: columns named as members of [Object.prototype].
    Column [toString] has a stored configuration and a size override,
    column [constructor] a size override alone, as column [c]. *)
Module Named.

Definition named_heap : heap :=
  [ Obj (<["fixed" := VNum 2]> ∅);
    Obj (<["toString" := VRef 0]> ∅);
    Obj (<["constructor" := VNum 100]>
           (<["toString" := VNum 70]> (<["c" := VNum 50]> ∅))) ].

Definition named_plugin : This :=
  mkThis (Some (mkDatagrid (VRef 1))) VUndef VUndef.

Definition named_overrides : val := VRef 2.

(** The stored state as [save] enumerates it. *)
Definition named_configs : gmap string val := <["toString" := VRef 0]> ∅.

Definition named_sizes : gmap string val :=
  <["constructor" := VNum 100]>
    (<["toString" := VNum 70]> (<["c" := VNum 50]> ∅)).

End Named.

End Save.


(* ===================================================================== *)
(** * Facts: legend dragging                                              *)
(* ===================================================================== *)

Module LegendFacts.

Import PrimFloat FloatOps SpecFloat.
Import Legend.
Local Open Scope float_scope.
Set Warnings "-inexact-float".

(** ** The order of binary64 numbers *)

Import FloatAxioms.

Lemma digits2_pos_bounds m :
  (2 ^ (Z.pos (digits2_pos m) - 1) <= Z.pos m < 2 ^ Z.pos (digits2_pos m))%Z.
Proof.
  induction m as [m IH | m IH |]; cbn [digits2_pos].
  - rewrite Pos2Z.inj_succ.
    replace (Z.succ (Z.pos (digits2_pos m)) - 1)%Z
      with (Z.succ (Z.pos (digits2_pos m) - 1)) by lia.
    rewrite !Z.pow_succ_r by lia. lia.
  - rewrite Pos2Z.inj_succ.
    replace (Z.succ (Z.pos (digits2_pos m)) - 1)%Z
      with (Z.succ (Z.pos (digits2_pos m) - 1)) by lia.
    rewrite !Z.pow_succ_r by lia. lia.
  - cbn. lia.
Qed.

(** The mantissa and the exponent of a binary64 number: the exponent is
    at least -1074, the mantissa is below 2^53, and it is at least 2^52
    unless the exponent is -1074. *)
Lemma bounded_inv m e :
  bounded prec emax m e = true ->
  (-1074 <= e)%Z /\ (Z.pos m < 2 ^ 53)%Z
  /\ (e = -1074 \/ 2 ^ 52 <= Z.pos m)%Z.
Proof.
  unfold bounded, canonical_mantissa, fexp, SpecFloat.emin, prec, emax.
  intros H. apply andb_prop in H as [H _]. apply Z.eqb_eq in H.
  pose proof (digits2_pos_bounds m) as [Hlo Hhi].
  assert (Z.pos (digits2_pos m) <= 53)%Z as Hd by lia.
  split; [lia|]. split.
  - eapply Z.lt_le_trans; [exact Hhi|]. apply Z.pow_le_mono_r; lia.
  - destruct (Z.eq_dec e (-1074)%Z) as [He | He]; [by left | right].
    assert (Z.pos (digits2_pos m) = 53)%Z as Hd53 by lia.
    rewrite Hd53 in Hlo. exact Hlo.
Qed.

Lemma units_pos m e : (-1074 <= e)%Z -> (0 < units m e)%Z.
Proof.
  intros He. unfold units. apply Z.mul_pos_pos; [lia|].
  apply Z.pow_pos_nonneg; lia.
Qed.

Lemma units_lt m e m' e' :
  (-1074 <= e)%Z -> (e < e')%Z -> (Z.pos m < 2 ^ 53)%Z ->
  (2 ^ 52 <= Z.pos m')%Z -> (units m e < units m' e')%Z.
Proof.
  intros He Hee Hm Hm'. unfold units.
  assert (0 < 2 ^ (e + 1074))%Z as HP by (apply Z.pow_pos_nonneg; lia).
  assert (2 ^ (e' + 1074) = 2 ^ (e + 1074) * 2 ^ (e' - e))%Z as ->.
  { rewrite <- Z.pow_add_r by lia. f_equal. lia. }
  assert (2 ^ 1 <= 2 ^ (e' - e))%Z as HR by (apply Z.pow_le_mono_r; lia).
  change (2 ^ 1)%Z with 2%Z in HR.
  change (2 ^ 53)%Z with (2 ^ 52 * 2)%Z in Hm.
  assert (0 < 2 ^ 52)%Z as HT by (apply Z.pow_pos_nonneg; lia).
  revert Hm Hm' HT HP HR.
  generalize (2 ^ 52)%Z (2 ^ (e + 1074))%Z (2 ^ (e' - e))%Z.
  intros T P R Hm Hm' HT HP HR.
  apply Z.lt_le_trans with (T * 2 * P)%Z.
  - apply Z.mul_lt_mono_pos_r; assumption.
  - apply Z.le_trans with (T * (P * R))%Z.
    + rewrite <- Z.mul_assoc. apply Z.mul_le_mono_nonneg_l; [lia|].
      rewrite (Z.mul_comm 2 P). apply Z.mul_le_mono_nonneg_l; lia.
    + apply Z.mul_le_mono_nonneg_r; [|assumption].
      apply Z.mul_nonneg_nonneg; lia.
Qed.

(** Numbers of the format are ordered by exponent, then by mantissa. *)
Lemma units_compare m1 e1 m2 e2 :
  bounded prec emax m1 e1 = true -> bounded prec emax m2 e2 = true ->
  (units m1 e1 ?= units m2 e2)%Z
  = match (e1 ?= e2)%Z with
    | Eq => Pos.compare_cont Eq m1 m2
    | Lt => Lt
    | Gt => Gt
    end.
Proof.
  intros (He1 & Hm1 & Hn1)%bounded_inv (He2 & Hm2 & Hn2)%bounded_inv.
  destruct (Z.compare_spec e1 e2) as [-> | Hee | Hee].
  - unfold units. rewrite <- Zmult_compare_compat_r
      by (apply Z.lt_gt, Z.pow_pos_nonneg; lia).
    reflexivity.
  - apply Z.compare_lt_iff. apply units_lt; try assumption.
    destruct Hn2 as [-> | Hn2]; [lia | exact Hn2].
  - apply Z.compare_gt_iff. apply units_lt; try assumption.
    destruct Hn1 as [-> | Hn1]; [lia | exact Hn1].
Qed.

Lemma F2Q_units f q :
  F2Q f = Some q -> (q * 2 ^ 1074 == inject_Z (SFunits (Prim2SF f)))%Q.
Proof.
  unfold F2Q. pose proof (Prim2SF_valid f) as Hv.
  destruct (Prim2SF f) as [s | s | | s m e]; try discriminate.
  - intros [= <-]. cbn [SFunits]. ring.
  - intros [= <-]. cbn [SFunits valid_binary] in *.
    apply bounded_inv in Hv as (He & _).
    assert (inject_Z (units m e) == inject_Z (Z.pos m) * 2 ^ e * 2 ^ 1074)%Q
      as Hu.
    { unfold units. rewrite inject_Z_mult, Zpower_Qpower by lia.
      rewrite Qpower_plus by discriminate. change (inject_Z 2) with 2%Q.
      ring. }
    destruct s.
    + rewrite inject_Z_opp, Hu. ring.
    + rewrite Hu. ring.
Qed.

Lemma F2Q_lt a b qa qb :
  F2Q a = Some qa -> F2Q b = Some qb ->
  (qa < qb)%Q <-> (SFunits (Prim2SF a) < SFunits (Prim2SF b))%Z.
Proof.
  intros Ha%F2Q_units Hb%F2Q_units.
  assert (0 < 2 ^ 1074)%Q as Hp by (apply Qpower_0_lt; reflexivity).
  rewrite Zlt_Qlt, <- Ha, <- Hb. symmetry. apply Qmult_lt_r. exact Hp.
Qed.

(** JavaScript's [<] on finite numbers is the order of the reals. *)
Lemma ltb_F2Q a b qa qb :
  F2Q a = Some qa -> F2Q b = Some qb ->
  (a <? b) = true <-> (qa < qb)%Q.
Proof.
  intros Ha Hb. rewrite (F2Q_lt a b qa qb Ha Hb), ltb_spec.
  pose proof (Prim2SF_valid a) as Hva. pose proof (Prim2SF_valid b) as Hvb.
  unfold F2Q in Ha, Hb. unfold SFltb.
  destruct (Prim2SF a) as [sa | sa | | sa ma ea]; try discriminate;
    destruct (Prim2SF b) as [sb | sb | | sb mb eb]; try discriminate;
    cbn [SFcompare SFunits valid_binary] in *.
  - split; [discriminate | lia].
  - apply bounded_inv in Hvb as (He & _). pose proof (units_pos mb eb He).
    destruct sb; split; try discriminate; try reflexivity; lia.
  - apply bounded_inv in Hva as (He & _). pose proof (units_pos ma ea He).
    destruct sa; split; try discriminate; try reflexivity; lia.
  - pose proof (units_compare ma ea mb eb Hva Hvb) as Hc.
    apply bounded_inv in Hva as (Hea & _).
    apply bounded_inv in Hvb as (Heb & _).
    pose proof (units_pos ma ea Hea). pose proof (units_pos mb eb Heb).
    destruct sa, sb;
      [ | split; [lia | reflexivity] | split; [discriminate | lia] | ];
      (destruct (ea ?= eb)%Z;
       [destruct (Pos.compare_cont Eq ma mb) | |]);
      cbn [CompOpp];
      rewrite ?Z.compare_eq_iff, ?Z.compare_lt_iff, ?Z.compare_gt_iff in Hc;
      split; intros; try discriminate; try reflexivity; lia.
Qed.

(** With any overflow test: when the test is negative on the four edges the
    offsets come back as they went in, and when it is positive on the right
    edge alone the horizontal offset loses the excess that the code
    computes. *)
Lemma enforce_no_overflow overflowing chart legend offsetX offsetY :
  (forall e, overflowing chart (draggedRect legend offsetX offsetY) e = false) ->
  enforceContainerBoundaries overflowing chart legend offsetX offsetY
  = (offsetX, offsetY).
Proof.
  intros H. unfold enforceContainerBoundaries, boundaries, adjust. simpl.
  now rewrite !H.
Qed.

Lemma enforce_right_only overflowing chart legend offsetX offsetY :
  overflowing chart (draggedRect legend offsetX offsetY) Right = true ->
  (forall e, e <> Right ->
             overflowing chart (draggedRect legend offsetX offsetY) e = false) ->
  enforceContainerBoundaries overflowing chart legend offsetX offsetY
  = (offsetX - (right legend + offsetX + margin - right chart), offsetY).
Proof.
  intros Hr Ho. unfold enforceContainerBoundaries, boundaries, adjust. simpl.
  rewrite Hr, !Ho by discriminate. reflexivity.
Qed.

(** What an operation that does not round computes. *)
Lemma exact_inv op opq a b :
  exact op opq a b = true ->
  exists qa qb qr,
    F2Q a = Some qa /\ F2Q b = Some qb /\ F2Q (op a b) = Some qr
    /\ (qr == opq qa qb)%Q.
Proof.
  unfold exact.
  destruct (F2Q a) as [qa|]; [|discriminate].
  destruct (F2Q b) as [qb|]; [|discriminate].
  destruct (F2Q (op a b)) as [qr|]; [|discriminate].
  intros H. apply Qeq_bool_iff in H. now exists qa, qb, qr.
Qed.

Lemma F2Q_margin q : F2Q margin = Some q -> (q == 10)%Q.
Proof. intros H. vm_compute in H. injection H as <-. reflexivity. Qed.

(** ** The dragged rectangle on the reals *)

Lemma rectQ_inv r q :
  rectQ r = Some q ->
  F2Q (top r) = Some (qtop q) /\ F2Q (right r) = Some (qright q)
  /\ F2Q (bottom r) = Some (qbottom q) /\ F2Q (left r) = Some (qleft q).
Proof.
  unfold rectQ.
  destruct (F2Q (top r)) as [qt|]; [|discriminate].
  destruct (F2Q (right r)) as [qr|]; [|discriminate].
  destruct (F2Q (bottom r)) as [qb|]; [|discriminate].
  destruct (F2Q (left r)) as [ql|]; [|discriminate].
  intros [= <-]. repeat split.
Qed.

(** The code's test on an edge of two rectangles of finite numbers is the
    comparison of the reals. *)
Lemma overflowing_iff chart inner c d e :
  rectQ chart = Some c -> rectQ inner = Some d ->
  isElementOverflowing chart inner e = true
  <-> match e with
      | Right => qright c < qright d
      | Bottom => qbottom c < qbottom d
      | Left => qleft d < qleft c
      | Top => qtop d < qtop c
      end%Q.
Proof.
  intros (Hct & Hcr & Hcb & Hcl)%rectQ_inv (Hdt & Hdr & Hdb & Hdl)%rectQ_inv.
  destruct e; cbn [isElementOverflowing]; by apply ltb_F2Q.
Qed.

(** When none of its eight operations rounds, the dragged rectangle that
    the code computes is the legend's rectangle moved by the offsets, its
    margin included. *)
Lemma dragged_exact legend offsetX offsetY l ox oy :
  exact_dragged legend offsetX offsetY = true ->
  rectQ legend = Some l -> F2Q offsetX = Some ox -> F2Q offsetY = Some oy ->
  exists d,
    rectQ (draggedRect legend offsetX offsetY) = Some d
    /\ (qtop d == qtop l + oy - 10 /\ qright d == qright l + ox + 10
        /\ qbottom d == qbottom l + oy + 10
        /\ qleft d == qleft l + ox - 10)%Q.
Proof.
  unfold exact_dragged, exact_add, exact_sub.
  intros H (Hlt & Hlr & Hlb & Hll)%rectQ_inv Hox Hoy.
  repeat (apply andb_prop in H as [H ?]).
  repeat match goal with
         | E : exact _ _ _ _ = true |- _ =>
             apply exact_inv in E as (? & ? & ? & ? & ? & ? & ?)
         end.
  repeat match goal with
         | E : F2Q margin = Some _ |- _ => apply F2Q_margin in E
         end.
  repeat match goal with
         | E1 : F2Q ?a = Some ?q1, E2 : F2Q ?a = Some ?q2 |- _ =>
             assert (q2 = q1) as -> by congruence; clear E2
         end.
  unfold rectQ, draggedRect. cbn [top right bottom left].
  repeat match goal with
         | E : F2Q ?a = Some _ |- context [F2Q ?a] => rewrite E
         end.
  eexists. split; [reflexivity|]. cbn [qtop qright qbottom qleft].
  repeat split; lra.
Qed.

(** What the claims suppose of the reals, the code's tests find when
    nothing is rounded. *)
Lemma within_in_bounds chart legend offsetX offsetY :
  exact_dragged legend offsetX offsetY = true ->
  within chart legend offsetX offsetY ->
  in_bounds chart legend offsetX offsetY.
Proof.
  intros Hex (c & l & ox & oy & Hc & Hl & Hox & Hoy & Hr & Hle & Ht & Hb).
  destruct (dragged_exact _ _ _ _ _ _ Hex Hl Hox Hoy)
    as (d & Hd & Edt & Edr & Edb & Edl).
  intros e.
  destruct (isElementOverflowing chart (draggedRect legend offsetX offsetY) e)
    eqn:E; [|reflexivity].
  apply (overflowing_iff _ _ c d e Hc Hd) in E. destruct e; lra.
Qed.

Lemma passes_right_overflows chart legend offsetX offsetY :
  exact_dragged legend offsetX offsetY = true ->
  passes_right_only chart legend offsetX offsetY ->
  overflows_right_only chart legend offsetX offsetY.
Proof.
  intros Hex (c & l & ox & oy & Hc & Hl & Hox & Hoy & Hr & Hle & Ht & Hb).
  destruct (dragged_exact _ _ _ _ _ _ Hex Hl Hox Hoy)
    as (d & Hd & Edt & Edr & Edb & Edl).
  split.
  - apply (overflowing_iff _ _ c d Right Hc Hd). lra.
  - intros e Hne.
    destruct (isElementOverflowing chart
                (draggedRect legend offsetX offsetY) e) eqn:E; [|reflexivity].
    apply (overflowing_iff _ _ c d e Hc Hd) in E.
    destruct e; [congruence | lra | lra | lra].
Qed.

(** C8, as the code has it: when the code's tests find the dragged
    rectangle past the right edge of the container and past no other edge
    - as they do when the moved legend, its margin included, passes the
    right edge alone and none of the operations that give the dragged
    rectangle rounds - the horizontal offset comes back less the excess
    that the code computes, each operation rounded, and the vertical offset
    as it was given; when none of the four operations on the way rounds,
    the legend's right edge plus the adjusted offset plus the margin is the
    container's right edge. *)
Theorem clamp_right_edge chart legend offsetX offsetY :
  overflows_right_only chart legend offsetX offsetY
  \/ (exact_dragged legend offsetX offsetY = true
      /\ passes_right_only chart legend offsetX offsetY) ->
  enforceContainerBoundaries isElementOverflowing chart legend offsetX offsetY
  = (offsetX - (right legend + offsetX + margin - right chart), offsetY)
  /\ (exact_right chart legend offsetX = true ->
      lands_right chart legend
        (offsetX - (right legend + offsetX + margin - right chart))).
Proof.
  intros H.
  assert (overflows_right_only chart legend offsetX offsetY) as [Hr Ho].
  { destruct H as [H | [Hex H]]; [exact H|].
    by apply passes_right_overflows. }
  clear H. split.
  - by apply enforce_right_only.
  - unfold exact_right, exact_add, exact_sub. intros H.
    apply andb_prop in H as [H H4]. apply andb_prop in H as [H H3].
    apply andb_prop in H as [H1 H2].
    apply exact_inv in H1 as (ql & qo & q1 & Hql & Hqo & Hq1 & E1).
    apply exact_inv in H2 as (q1' & qm & q2 & Hq1' & Hqm & Hq2 & E2).
    apply exact_inv in H3 as (q2' & qc & q3 & Hq2' & Hqc & Hq3 & E3).
    apply exact_inv in H4 as (qo' & q3' & q4 & Hqo' & Hq3' & Hq4 & E4).
    assert (q1' = q1) as -> by congruence.
    assert (q2' = q2) as -> by congruence.
    assert (q3' = q3) as -> by congruence.
    assert (qo' = qo) as -> by congruence.
    apply F2Q_margin in Hqm.
    exists qc, ql, q4. repeat split; try assumption.
    rewrite E4, E3, E2, E1, Hqm. ring.
Qed.

Lemma clamp_right_edge_witness :
  enforceContainerBoundaries isElementOverflowing
    (mkRect 0 400 300 0) (mkRect 20 380 120 280.5) 25 3.5
  = (25 - (380 + 25 + margin - 400), 3.5)
  /\ lands_right (mkRect 0 400 300 0) (mkRect 20 380 120 280.5)
       (25 - (380 + 25 + margin - 400)).
Proof.
  destruct (clamp_right_edge (mkRect 0 400 300 0) (mkRect 20 380 120 280.5)
              25 3.5) as [H1 H2].
  - right. split; [vm_compute; reflexivity|].
    eexists _, _, _, _.
    split; [vm_compute; reflexivity|]. split; [vm_compute; reflexivity|].
    split; [vm_compute; reflexivity|]. split; [vm_compute; reflexivity|].
    repeat split; vm_compute; congruence.
  - split; [exact H1 | apply H2; vm_compute; reflexivity].
Defined.

(** C8 as worded does not hold of every drag: with the container's right
    edge at 356.3, the legend's at 293 and a drag of 173.1, the right edge
    alone is passed, on the reals and by the code's tests; the code returns
    53.29999999999998, and the legend's right edge plus this offset plus
    the margin is not the container's right edge, neither computed nor on
    the reals. *)
Lemma clamp_right_edge_rounds :
  passes_right_only (mkRect 0 356.3 300 0) (mkRect 20 293 120 193) 173.1 0
  /\ isElementOverflowing (mkRect 0 356.3 300 0)
       (draggedRect (mkRect 20 293 120 193) 173.1 0) Right = true
  /\ isElementOverflowing (mkRect 0 356.3 300 0)
       (draggedRect (mkRect 20 293 120 193) 173.1 0) Left = false
  /\ isElementOverflowing (mkRect 0 356.3 300 0)
       (draggedRect (mkRect 20 293 120 193) 173.1 0) Top = false
  /\ isElementOverflowing (mkRect 0 356.3 300 0)
       (draggedRect (mkRect 20 293 120 193) 173.1 0) Bottom = false
  /\ enforceContainerBoundaries isElementOverflowing
       (mkRect 0 356.3 300 0) (mkRect 20 293 120 193) 173.1 0
     = (53.29999999999998, 0)
  /\ (293 + 53.29999999999998 + margin =? 356.3) = false
  /\ ~ lands_right (mkRect 0 356.3 300 0) (mkRect 20 293 120 193)
         53.29999999999998.
Proof.
  split.
  { eexists _, _, _, _.
    split; [vm_compute; reflexivity|]. split; [vm_compute; reflexivity|].
    split; [vm_compute; reflexivity|]. split; [vm_compute; reflexivity|].
    repeat split; vm_compute; congruence. }
  repeat (split; [vm_compute; reflexivity|]).
  intros (cr & lr & a & Hcr & Hlr & Ha & E).
  vm_compute in Hcr, Hlr, Ha.
  injection Hcr as <-. injection Hlr as <-. injection Ha as <-.
  vm_compute in E. discriminate E.
Qed.

(** C9, as the code has it: when none of the code's four tests is positive
    on the dragged rectangle that the code computes - as none is when the
    moved legend, its margin included, passes no edge of the container and
    none of the operations that give the dragged rectangle rounds - the
    offsets are returned as they were given. *)
Theorem clamp_identity_in_bounds chart legend offsetX offsetY :
  in_bounds chart legend offsetX offsetY
  \/ (exact_dragged legend offsetX offsetY = true
      /\ within chart legend offsetX offsetY) ->
  enforceContainerBoundaries isElementOverflowing chart legend offsetX offsetY
  = (offsetX, offsetY).
Proof.
  intros H. apply enforce_no_overflow.
  destruct H as [H | [Hex H]]; [exact H|]. by apply within_in_bounds.
Qed.

Lemma clamp_identity_in_bounds_witness :
  enforceContainerBoundaries isElementOverflowing
    (mkRect 0 400 300 0) (mkRect 20 380 120 280.5) (-5) 3.5
  = (-5, 3.5).
Proof.
  apply (clamp_identity_in_bounds (mkRect 0 400 300 0)
           (mkRect 20 380 120 280.5) (-5) 3.5).
  right. split; [vm_compute; reflexivity|].
  eexists _, _, _, _.
  split; [vm_compute; reflexivity|]. split; [vm_compute; reflexivity|].
  split; [vm_compute; reflexivity|]. split; [vm_compute; reflexivity|].
  repeat split; vm_compute; congruence.
Defined.

(** C9 as worded does not hold of every input: with the container's left
    edge at 0.1, the legend's at 10 and a drag of 0.1, the moved legend
    less its margin passes no edge on the reals, its left edge being on the
    container's; the code computes 10 + 0.1 - 10 as 0.09999999999999964,
    which is less than 0.1, and returns 0.10000000000000037 for 0.1. *)
Lemma clamp_identity_rounds :
  within (mkRect 0 400 300 0.1) (mkRect 20 110 120 10) 0.1 0
  /\ left (draggedRect (mkRect 20 110 120 10) 0.1 0) = 0.09999999999999964
  /\ enforceContainerBoundaries isElementOverflowing
       (mkRect 0 400 300 0.1) (mkRect 20 110 120 10) 0.1 0
     = (0.10000000000000037, 0)
  /\ enforceContainerBoundaries isElementOverflowing
       (mkRect 0 400 300 0.1) (mkRect 20 110 120 10) 0.1 0
     <> (0.1, 0).
Proof.
  split.
  { eexists _, _, _, _.
    split; [vm_compute; reflexivity|]. split; [vm_compute; reflexivity|].
    split; [vm_compute; reflexivity|]. split; [vm_compute; reflexivity|].
    repeat split; vm_compute; congruence. }
  split; [vm_compute; reflexivity|]. split; [vm_compute; reflexivity|].
  intros H. apply (f_equal (fun p => Prim2SF (fst p))) in H.
  vm_compute in H. discriminate H.
Qed.

End LegendFacts.

(* ===================================================================== *)
(** * Facts: cell styling                                                 *)
(* ===================================================================== *)

Module CellStyleFacts.

Import Js CellStyle.

Lemma type_is_true type s : type_is type s = true <-> type = Some s.
Proof.
  destruct type as [t|]; simpl.
  - rewrite String.eqb_eq. split; congruence.
  - split; discriminate.
Qed.

Lemma is_numeric_type_true type :
  is_numeric_type type = true <-> type = Some "integer" \/ type = Some "float".
Proof.
  unfold is_numeric_type. rewrite orb_true_iff, !type_is_true. tauto.
Qed.

Lemma strict_eq_true a b : strict_eq a b = true <-> a = b.
Proof. unfold strict_eq. apply bool_decide_eq_true. Qed.

Lemma elem_of_toggle n name force s :
  n ∈ classList (toggle name force s)
  <-> (n = name /\ force = true) \/ (n <> name /\ n ∈ classList s).
Proof.
  unfold toggle; simpl. destruct force.
  - rewrite elem_of_union, elem_of_singleton.
    destruct (decide (n = name)); intuition congruence.
  - rewrite elem_of_difference, elem_of_singleton. intuition congruence.
Qed.

Lemma colors_toggle name force s : colors (toggle name force s) = colors s.
Proof. reflexivity. Qed.

Lemma with_surface_surface td : with_surface td (surface td) = td.
Proof. now destruct td. Qed.

Lemma with_surface_twice td s1 s2 :
  with_surface (with_surface td s1) s2 = with_surface td s2.
Proof. reflexivity. Qed.

(** Out of its table, the type lookup gives [undefined]. *)
Lemma get_psp_type_out_of_range this metadata :
  type_index_in_range this metadata = false ->
  get_psp_type this metadata = None.
Proof.
  unfold type_index_in_range, get_psp_type, array_get.
  destruct (x metadata) as [n|] eqn:Ex; simpl.
  - destruct (0 <=? n)%Z eqn:E0.
    + intros H. apply bool_decide_eq_false in H.
      apply lookup_ge_None. lia.
    + destruct (row_header_x metadata) as [r|]; simpl; [|reflexivity].
      intros H. destruct (0 <=? Z.pred r)%Z eqn:E1; [|reflexivity].
      apply lookup_ge_None. apply Z.leb_le in E1.
      apply andb_false_iff in H as [H | H].
      * apply bool_decide_eq_false in H. lia.
      * apply bool_decide_eq_false in H.
        replace (Z.pred r) with (r - 1)%Z by lia. lia.
  - destruct (row_header_x metadata) as [r|]; simpl; [|reflexivity].
    intros H. destruct (0 <=? Z.pred r)%Z eqn:E1; [|reflexivity].
    apply lookup_ge_None. apply Z.leb_le in E1.
    apply andb_false_iff in H as [H | H].
    + apply bool_decide_eq_false in H. lia.
    + apply bool_decide_eq_false in H.
      replace (Z.pred r) with (r - 1)%Z by lia. lia.
Qed.

Lemma is_known_type_None : is_known_type None = false.
Proof. reflexivity. Qed.

Section Facts.

Variables numeric boolean string_ datetime : type_rule.
Variable row_header : header_rule.
Variable this : Model.
Variable plugins : gmap string Plugin.

Abbreviation dispatch := (dispatch numeric boolean string_ datetime this).
Abbreviation plugin_of := (plugin_of plugins).
Abbreviation type_of := (type_of this).
Abbreviation typed := (typed numeric boolean string_ datetime this plugins).
Abbreviation headed :=
  (headed numeric boolean string_ datetime row_header this plugins).
Abbreviation styled :=
  (styled numeric boolean string_ datetime row_header this plugins).
Abbreviation style_td :=
  (style_td numeric boolean string_ datetime row_header this plugins).
Abbreviation style_cells :=
  (style_cells numeric boolean string_ datetime row_header this plugins).
Abbreviation style_rows :=
  (style_rows numeric boolean string_ datetime row_header this plugins).
Abbreviation listener :=
  (table_cell_style_listener numeric boolean string_ datetime row_header
     this plugins).

Lemma style_td_unfold regularTable td :
  style_td regularTable td =
  with_surface td
    (toggle "psp-color-mode-bar"
       (number_fg_mode_is_bar (plugin_of td) && is_numeric_type (type_of td))
       (toggle "psp-align-left"
          (String.eqb (tagName td) "TH" || negb (is_numeric_type (type_of td)))
          (toggle "psp-align-right"
             (negb (String.eqb (tagName td) "TH") && is_numeric_type (type_of td))
             (headed regularTable td)))).
Proof.
  unfold CellStyle.style_td, CellStyle.headed, CellStyle.typed, CellStyle.type_of,
    CellStyle.plugin_of, is_numeric_type.
  cbn [tagName meta surface with_surface].
  destruct (String.eqb (tagName td) "TH"); reflexivity.
Qed.

Lemma style_td_tagName regularTable td :
  tagName (style_td regularTable td) = tagName td.
Proof. now rewrite style_td_unfold. Qed.

Lemma style_td_meta regularTable td :
  meta (style_td regularTable td) = meta td.
Proof. now rewrite style_td_unfold. Qed.

Lemma style_td_align_right regularTable td :
  "psp-align-right" ∈ classList (surface (style_td regularTable td))
  <-> tagName td <> "TH" /\ is_numeric_type (type_of td) = true.
Proof.
  rewrite style_td_unfold. cbn [surface with_surface].
  rewrite !elem_of_toggle.
  destruct (String.eqb (tagName td) "TH") eqn:E;
    [apply String.eqb_eq in E | apply String.eqb_neq in E];
    destruct (is_numeric_type (type_of td)); simpl; intuition congruence.
Qed.

Lemma style_td_align_left regularTable td :
  "psp-align-left" ∈ classList (surface (style_td regularTable td))
  <-> tagName td = "TH" \/ is_numeric_type (type_of td) = false.
Proof.
  rewrite style_td_unfold. cbn [surface with_surface].
  rewrite !elem_of_toggle.
  destruct (String.eqb (tagName td) "TH") eqn:E;
    [apply String.eqb_eq in E | apply String.eqb_neq in E];
    destruct (is_numeric_type (type_of td)); simpl; intuition congruence.
Qed.

Lemma style_td_color_mode_bar regularTable td :
  "psp-color-mode-bar" ∈ classList (surface (style_td regularTable td))
  <-> number_fg_mode_is_bar (plugin_of td) = true
      /\ is_numeric_type (type_of td) = true.
Proof.
  rewrite style_td_unfold. cbn [surface with_surface].
  rewrite !elem_of_toggle.
  destruct (number_fg_mode_is_bar (plugin_of td));
    destruct (is_numeric_type (type_of td)); simpl; intuition congruence.
Qed.

Lemma typed_bool_type td :
  "psp-bool-type" ∈ classList (typed td)
  <-> type_of td = Some "boolean" /\ user (meta td) <> VNull.
Proof.
  unfold CellStyle.typed. rewrite elem_of_toggle, <- type_is_true.
  unfold strict_eq.
  destruct (type_is (type_of td) "boolean");
    destruct (bool_decide_reflect (user (meta td) = VNull));
    simpl; intuition congruence.
Qed.

Lemma style_td_bool_type regularTable td :
  (tagName td = "TH" -> keeps_bool_type row_header) ->
  "psp-bool-type" ∈ classList (surface (style_td regularTable td))
  <-> type_of td = Some "boolean" /\ user (meta td) <> VNull.
Proof.
  intros Hk. rewrite style_td_unfold. cbn [surface with_surface].
  rewrite !elem_of_toggle.
  rewrite <- typed_bool_type.
  assert ("psp-bool-type" ∈ classList (headed regularTable td)
          <-> "psp-bool-type" ∈ classList (typed td)) as Hh.
  { unfold CellStyle.headed. destruct (String.eqb (tagName td) "TH") eqn:E; [|done].
    apply String.eqb_eq in E. apply (Hk E). }
  rewrite <- Hh. intuition congruence.
Qed.

Lemma style_td_colors regularTable td :
  (tagName td = "TH" -> keeps_colors row_header) ->
  colors (surface (style_td regularTable td))
  = colors (dispatch (type_of td) (plugin_of td) td (meta td)).
Proof.
  intros Hk. rewrite style_td_unfold. cbn [surface with_surface].
  rewrite !colors_toggle. unfold CellStyle.headed.
  destruct (String.eqb (tagName td) "TH") eqn:E; [|reflexivity].
  apply String.eqb_eq in E. apply (Hk E).
Qed.

Lemma dispatch_unknown type plugin td metadata :
  is_known_type type = false ->
  dispatch type plugin td metadata = clear_colors (surface td).
Proof.
  unfold is_known_type, CellStyle.dispatch. intros H.
  repeat (apply orb_false_iff in H as [H ?]).
  now repeat match goal with E : type_is _ _ = false |- _ => rewrite E; clear E end.
Qed.

Lemma dispatch_stable type plugin td s :
  stable_colors numeric -> stable_colors boolean ->
  stable_colors string_ -> stable_colors datetime ->
  colors s = colors (dispatch type plugin td (meta td)) ->
  colors (dispatch type plugin (with_surface td s) (meta td)) = colors s.
Proof.
  intros Hn Hb Hs Hd. unfold CellStyle.dispatch.
  repeat match goal with |- context [if ?c then _ else _] => destruct c end;
    intros H; try (by (apply Hn || apply Hb || apply Hs || apply Hd)).
  rewrite H. reflexivity.
Qed.

(** ** The traversal *)

Lemma style_cells_spec before after todo : forall done,
  exists cells, style_cells before done todo after = done ++ cells
                /\ Forall2 styled todo cells.
Proof.
  induction todo as [|td rest IH]; intros done; simpl.
  - exists []. split; [by rewrite app_nil_r | constructor].
  - destruct (IH (done ++ [style_td (fun c => before ++ (done ++ c :: rest) :: after) td]))
      as (cells & -> & HF).
    eexists (_ :: cells). split; [by rewrite <- app_assoc|].
    constructor; [by eexists | done].
Qed.

Lemma style_rows_spec todo : forall before,
  exists rows, style_rows before todo = before ++ rows
               /\ Forall2 (Forall2 styled) todo rows.
Proof.
  induction todo as [|tr rest IH]; intros before; simpl.
  - exists []. split; [by rewrite app_nil_r | constructor].
  - destruct (style_cells_spec before rest tr []) as (cells & Hc & HF).
    destruct (IH (before ++ [style_cells before [] tr rest])) as (rows & -> & HR).
    exists (cells :: rows). split.
    + rewrite Hc. simpl. by rewrite <- app_assoc.
    + by constructor.
Qed.

Lemma listener_spec g : Forall2 (Forall2 styled) g (listener g).
Proof.
  unfold table_cell_style_listener.
  destruct (style_rows_spec g []) as (rows & -> & H). exact H.
Qed.

(** Every cell of the table is styled once, in its place. *)
Lemma listener_cell_at g i j td :
  cell_at g i j = Some td ->
  exists regularTable,
    cell_at (listener g) i j = Some (style_td regularTable td).
Proof.
  unfold cell_at. intros H.
  destruct (g !! i) as [tr|] eqn:Ei; [|discriminate].
  destruct (Forall2_lookup_l _ _ _ _ _ (listener_spec g) Ei) as (tr' & Hl & Htr).
  destruct (Forall2_lookup_l _ _ _ _ _ Htr H) as (td' & Htd & rt & ->).
  exists rt. by rewrite Hl.
Qed.

(** ** The claims about the listener *)

Lemma styled_attrs_again a b c :
  stable_colors numeric -> stable_colors boolean ->
  stable_colors string_ -> stable_colors datetime ->
  keeps_colors row_header -> keeps_bool_type row_header ->
  styled a b -> styled b c -> attrs c = attrs b.
Proof.
  intros Hn Hb Hs Hd Hkc Hkb [rt1 ->] [rt2 ->].
  pose proof (style_td_meta rt1 a) as Hm.
  pose proof (style_td_tagName rt1 a) as Ht.
  assert (Hty : type_of (style_td rt1 a) = type_of a)
    by (unfold CellStyle.type_of; now rewrite Hm).
  assert (Hpl : plugin_of (style_td rt1 a) = plugin_of a)
    by (unfold CellStyle.plugin_of; now rewrite Hm).
  assert (Hcol : colors (surface (style_td rt2 (style_td rt1 a)))
                 = colors (surface (style_td rt1 a))).
  { rewrite (style_td_colors rt2) by done. rewrite Hty, Hpl, Hm.
    transitivity
      (colors (dispatch (type_of a) (plugin_of a)
                 (with_surface a (surface (style_td rt1 a))) (meta a))).
    - do 2 f_equal. rewrite style_td_unfold. reflexivity.
    - apply dispatch_stable; try done. now rewrite style_td_colors. }
  unfold attrs, has_class. injection Hcol as Hbg Hfg.
  f_equal; try done; apply bool_decide_ext.
  - rewrite (style_td_bool_type rt2), (style_td_bool_type rt1) by done.
    now rewrite Hty, Hm.
  - rewrite (style_td_align_left rt2), (style_td_align_left rt1).
    now rewrite Hty, Ht.
  - rewrite (style_td_align_right rt2), (style_td_align_right rt1).
    now rewrite Hty, Ht.
  - rewrite (style_td_color_mode_bar rt2), (style_td_color_mode_bar rt1).
    now rewrite Hty, Hpl.
Qed.

Lemma Forall2_chain_map {A B} (R : A -> A -> Prop) (f : A -> B) l1 :
  (forall a b c, R a b -> R b c -> f c = f b) ->
  forall l2 l3, Forall2 R l1 l2 -> Forall2 R l2 l3 -> map f l3 = map f l2.
Proof.
  intros HR. induction l1 as [|a l1 IH]; intros l2 l3 H12 H23.
  - inversion H12; subst. inversion H23; subst. reflexivity.
  - inversion H12 as [|? b ? l2' Hab H12']; subst.
    inversion H23 as [|? c ? l3' Hbc H23']; subst.
    simpl. f_equal; [by eapply HR | by eapply IH].
Qed.

(** C1: on any table, with sub-rules whose colours are stable and a row
    header rule that leaves the colours and the boolean marker alone,
    running the listener on its own result leaves the background colour,
    the foreground colour and the four class flags of every cell as the
    first run left them. *)
Theorem listener_idempotent :
  stable_colors numeric -> stable_colors boolean ->
  stable_colors string_ -> stable_colors datetime ->
  keeps_colors row_header -> keeps_bool_type row_header ->
  forall g : Grid,
    grid_attrs (listener (listener g)) = grid_attrs (listener g).
Proof.
  intros Hn Hb Hs Hd Hkc Hkb g. unfold grid_attrs.
  apply (Forall2_chain_map (Forall2 styled) (map attrs) g);
    [| apply listener_spec | apply listener_spec].
  intros r1 r2 r3 H12 H23.
  apply (Forall2_chain_map styled attrs r1); try done.
  intros a b c. by apply styled_attrs_again.
Qed.

(** C2: after a pass, a cell carries [psp-bool-type] exactly when its
    resolved type is boolean and its user value is not [null]; for a header
    cell this is under the row header rule leaving that class alone. *)
Theorem bool_type_marker (g : Grid) i j td :
  (tagName td = "TH" -> keeps_bool_type row_header) ->
  cell_at g i j = Some td ->
  exists td',
    cell_at (listener g) i j = Some td'
    /\ tagName td' = tagName td /\ meta td' = meta td
    /\ ("psp-bool-type" ∈ classList (surface td')
        <-> get_psp_type this (meta td) = Some "boolean"
            /\ user (meta td) <> VNull).
Proof.
  intros Hk H. destruct (listener_cell_at g i j td H) as [rt Hrt].
  eexists. split; [exact Hrt|].
  split; [apply style_td_tagName|]. split; [apply style_td_meta|].
  by apply style_td_bool_type.
Qed.

(** C3: after a pass, a cell carries [psp-align-right] exactly when it is
    not a [TH] and its type is integer or float, and [psp-align-left]
    exactly when it does not carry [psp-align-right]; a [TH] is left-aligned
    whatever its type. *)
Theorem alignment_markers (g : Grid) i j td :
  cell_at g i j = Some td ->
  exists td',
    cell_at (listener g) i j = Some td'
    /\ tagName td' = tagName td /\ meta td' = meta td
    /\ ("psp-align-right" ∈ classList (surface td')
        <-> tagName td <> "TH"
            /\ (get_psp_type this (meta td) = Some "integer"
                \/ get_psp_type this (meta td) = Some "float"))
    /\ ("psp-align-left" ∈ classList (surface td')
        <-> "psp-align-right" ∉ classList (surface td'))
    /\ (tagName td = "TH" ->
        "psp-align-left" ∈ classList (surface td')
        /\ "psp-align-right" ∉ classList (surface td')).
Proof.
  intros H. destruct (listener_cell_at g i j td H) as [rt Hrt].
  eexists. split; [exact Hrt|].
  split; [apply style_td_tagName|]. split; [apply style_td_meta|].
  rewrite style_td_align_right, style_td_align_left.
  rewrite <- is_numeric_type_true. fold (type_of td).
  destruct (is_numeric_type (type_of td));
    destruct (decide (tagName td = "TH")); intuition congruence.
Qed.

(** C4: a cell whose resolved type is none of integer, float, boolean,
    string, date and datetime has both colours set to the empty string by
    the type dispatch, and carries them empty after the pass (for a header
    cell, under the row header rule leaving the colours alone); a type
    index outside its table resolves to no type, without an error, and is
    such a cell. *)
Theorem unknown_type_reset (g : Grid) i j td :
  (tagName td = "TH" -> keeps_colors row_header) ->
  cell_at g i j = Some td ->
  is_known_type (get_psp_type this (meta td)) = false
  \/ type_index_in_range this (meta td) = false ->
  colors (dispatch (get_psp_type this (meta td)) (plugin_of td) td (meta td))
  = (""%string, ""%string)
  /\ exists td',
      cell_at (listener g) i j = Some td'
      /\ backgroundColor (surface td') = ""%string
      /\ color (surface td') = ""%string.
Proof.
  intros Hk H Hu.
  assert (Hunk : is_known_type (get_psp_type this (meta td)) = false).
  { destruct Hu as [Hu | Hu]; [exact Hu|].
    now rewrite (get_psp_type_out_of_range _ _ Hu). }
  assert (Hd : colors (dispatch (get_psp_type this (meta td)) (plugin_of td)
                         td (meta td)) = (""%string, ""%string)).
  { now rewrite dispatch_unknown. }
  split; [exact Hd|].
  destruct (listener_cell_at g i j td H) as [rt Hrt].
  eexists. split; [exact Hrt|].
  pose proof (style_td_colors rt td Hk) as Hc.
  unfold CellStyle.type_of in Hc. rewrite Hd in Hc.
  by injection Hc.
Qed.

(** C5: after a pass, a cell carries [psp-color-mode-bar] exactly when its
    type is integer or float and the plugin configuration found under its
    column name has [number_fg_mode] equal to the string [bar]. *)
Theorem bar_mode_marker (g : Grid) i j td :
  cell_at g i j = Some td ->
  exists td',
    cell_at (listener g) i j = Some td'
    /\ tagName td' = tagName td /\ meta td' = meta td
    /\ ("psp-color-mode-bar" ∈ classList (surface td')
        <-> (get_psp_type this (meta td) = Some "integer"
             \/ get_psp_type this (meta td) = Some "float")
            /\ exists plugin,
                plugins !! property_key (column_name (meta td)) = Some plugin
                /\ plugin !! "number_fg_mode" = Some (VStr "bar")).
Proof.
  intros H. destruct (listener_cell_at g i j td H) as [rt Hrt].
  eexists. split; [exact Hrt|].
  split; [apply style_td_tagName|]. split; [apply style_td_meta|].
  rewrite style_td_color_mode_bar, is_numeric_type_true.
  unfold CellStyle.type_of, CellStyle.plugin_of, number_fg_mode_is_bar.
  destruct (plugins !! property_key (column_name (meta td))) as [p|].
  - destruct (p !! "number_fg_mode") as [v|] eqn:Ev.
    + rewrite strict_eq_true. split.
      * intros [-> ?]. split; [done|]. by exists p.
      * intros [? (p' & [= <-] & Hp)]. split; [congruence | done].
    + split; [intros [? _]; done|].
      intros [_ (p' & [= <-] & Hp)]. congruence.
  - split; [intros [? _]; done | intros [_ (p' & ? & _)]; done].
Qed.

End Facts.

(** ** The sample rules meet the contract *)

Lemma sample_numeric_stable : stable_colors Samples.numeric_rule.
Proof.
  intros this plugin td s. unfold Samples.numeric_rule, colors; simpl.
  intros [= Hbg Hfg]. by rewrite <- Hfg.
Qed.

Lemma sample_boolean_stable : stable_colors Samples.boolean_rule.
Proof. intros this plugin td s _. reflexivity. Qed.

Lemma sample_string_stable : stable_colors Samples.string_rule.
Proof.
  intros this plugin td s. unfold Samples.string_rule, colors; simpl.
  intros [= Hbg Hfg]. by rewrite <- Hfg, <- Hbg.
Qed.

Lemma sample_datetime_stable : stable_colors Samples.datetime_rule.
Proof.
  intros this plugin td s. unfold Samples.datetime_rule, colors; simpl.
  intros [= Hbg Hfg]. by rewrite <- Hfg.
Qed.

Lemma sample_row_header_keeps_colors : keeps_colors Samples.row_header_rule.
Proof. intros this g td metadata. reflexivity. Qed.

Lemma sample_row_header_keeps_bool_type :
  keeps_bool_type Samples.row_header_rule.
Proof.
  intros this g td metadata. unfold Samples.row_header_rule.
  rewrite elem_of_toggle. intuition congruence.
Qed.

(** The sample table after one pass: a stale colour stays where the rule
    does not set it (the background of the numbers), both are cleared on the
    cells of no known type, and every flag is recomputed. *)
Example sample_pass :
  grid_attrs (Samples.listener Samples.grid)
  = [ [ mkAttrs "" "" false true false false;
        mkAttrs "#ff0000" "#123456" false false true true;
        mkAttrs "" "" false true false false;
        mkAttrs "" "" false true false false;
        mkAttrs "" "" false true false false ];
      [ mkAttrs "" "" false true false false;
        mkAttrs "#ff0000" "" false false true true;
        mkAttrs "" "" false true false false;
        mkAttrs "" "" true true false false;
        mkAttrs "" "" false true false false ] ].
Proof. vm_compute. reflexivity. Qed.

Lemma listener_idempotent_witness :
  grid_attrs (Samples.listener (Samples.listener Samples.grid))
  = grid_attrs (Samples.listener Samples.grid).
Proof.
  apply (listener_idempotent Samples.numeric_rule Samples.boolean_rule
           Samples.string_rule Samples.datetime_rule Samples.row_header_rule
           Samples.model Samples.plugins
           sample_numeric_stable sample_boolean_stable sample_string_stable
           sample_datetime_stable sample_row_header_keeps_colors
           sample_row_header_keeps_bool_type Samples.grid).
Defined.

Lemma bool_type_marker_witness :
  exists td',
    cell_at (Samples.listener Samples.grid) 1 3 = Some td'
    /\ tagName td' = "TD" /\ meta td' = meta (Samples.flag (VBool false))
    /\ ("psp-bool-type" ∈ classList (surface td')
        <-> get_psp_type Samples.model (meta (Samples.flag (VBool false)))
            = Some "boolean"
            /\ VBool false <> VNull).
Proof.
  apply (bool_type_marker Samples.numeric_rule Samples.boolean_rule
           Samples.string_rule Samples.datetime_rule Samples.row_header_rule
           Samples.model Samples.plugins Samples.grid 1 3
           (Samples.flag (VBool false))).
  - intros _. apply sample_row_header_keeps_bool_type.
  - reflexivity.
Defined.

Lemma alignment_markers_witness :
  exists td',
    cell_at (Samples.listener Samples.grid) 0 0 = Some td'
    /\ tagName td' = "TH" /\ meta td' = meta Samples.th0
    /\ ("psp-align-right" ∈ classList (surface td')
        <-> "TH" <> "TH"
            /\ (get_psp_type Samples.model (meta Samples.th0) = Some "integer"
                \/ get_psp_type Samples.model (meta Samples.th0) = Some "float"))
    /\ ("psp-align-left" ∈ classList (surface td')
        <-> "psp-align-right" ∉ classList (surface td'))
    /\ ("TH" = "TH" ->
        "psp-align-left" ∈ classList (surface td')
        /\ "psp-align-right" ∉ classList (surface td')).
Proof.
  apply (alignment_markers Samples.numeric_rule Samples.boolean_rule
           Samples.string_rule Samples.datetime_rule Samples.row_header_rule
           Samples.model Samples.plugins Samples.grid 0 0 Samples.th0).
  reflexivity.
Defined.

Lemma unknown_type_reset_witness :
  colors (dispatch Samples.numeric_rule Samples.boolean_rule
            Samples.string_rule Samples.datetime_rule Samples.model
            (get_psp_type Samples.model (meta (Samples.odd 9)))
            (plugin_of Samples.plugins (Samples.odd 9))
            (Samples.odd 9) (meta (Samples.odd 9)))
  = (""%string, ""%string)
  /\ exists td',
      cell_at (Samples.listener Samples.grid) 1 4 = Some td'
      /\ backgroundColor (surface td') = ""%string
      /\ color (surface td') = ""%string.
Proof.
  apply (unknown_type_reset Samples.numeric_rule Samples.boolean_rule
           Samples.string_rule Samples.datetime_rule Samples.row_header_rule
           Samples.model Samples.plugins Samples.grid 1 4 (Samples.odd 9)).
  - intros _. apply sample_row_header_keeps_colors.
  - reflexivity.
  - right. reflexivity.
Defined.

Lemma bar_mode_marker_witness :
  exists td',
    cell_at (Samples.listener Samples.grid) 0 1 = Some td'
    /\ tagName td' = "TD" /\ meta td' = meta (Samples.price (VNum (-3)))
    /\ ("psp-color-mode-bar" ∈ classList (surface td')
        <-> (get_psp_type Samples.model (meta (Samples.price (VNum (-3))))
             = Some "integer"
             \/ get_psp_type Samples.model (meta (Samples.price (VNum (-3))))
                = Some "float")
            /\ exists plugin,
                Samples.plugins !! "price" = Some plugin
                /\ plugin !! "number_fg_mode" = Some (VStr "bar")).
Proof.
  apply (bar_mode_marker Samples.numeric_rule Samples.boolean_rule
           Samples.string_rule Samples.datetime_rule Samples.row_header_rule
           Samples.model Samples.plugins Samples.grid 0 1
           (Samples.price (VNum (-3)))).
  reflexivity.
Defined.

(** The same configuration on a string cell leaves the bar marker off, and
    a boolean cell whose value is [null] has no boolean marker. *)
Example sample_string_cell_no_bar :
  (a_color_mode_bar <$> (attrs <$> cell_at (Samples.listener Samples.grid) 0 2),
   a_bool_type <$> (attrs <$> cell_at (Samples.listener Samples.grid) 0 3))
  = (Some false, Some false).
Proof. vm_compute. reflexivity. Qed.

End CellStyleFacts.

(* ===================================================================== *)
(** * Facts: row selection                                                *)
(* ===================================================================== *)

Module RowSelectFacts.

Import Js RowSelect.

(** The reduction is true when it starts true and every element is
    strictly equal to the element of [id] at its index. *)
Lemma reduce_from_key_match id selected : forall i acc,
  reduce_from (fun agg x i => agg && strict_eq x (elem id i)) selected i acc
  = true
  <-> acc = true
      /\ forall k x, selected !! k = Some x -> x = elem id (i + k).
Proof.
  induction selected as [|a rest IH]; intros i acc; simpl.
  - split; [intros ->; split; [done | intros k x; by rewrite lookup_nil]
           | by intros [-> _]].
  - rewrite IH, andb_true_iff. unfold strict_eq at 1.
    rewrite bool_decide_eq_true. split.
    + intros [[-> Ha] Hrest]. split; [done|].
      intros [|k] x; simpl.
      * intros [= <-]. by rewrite Nat.add_0_r.
      * intros Hk. rewrite (Hrest k x Hk). f_equal. lia.
    + intros [-> Hall]. split.
      * split; [done|]. rewrite (Hall 0%nat a eq_refl). f_equal. lia.
      * intros k x Hk. rewrite (Hall (S k) x Hk). f_equal. lia.
Qed.

(** With a stored selection and a key sequence, the click deselects
    exactly when the two are the same sequence. *)
Lemma is_deselect_true selected id :
  is_deselect (Some selected) (Some id) = Some true <-> selected = id.
Proof.
  simpl. split.
  - intros [= H]. apply andb_true_iff in H as [Hlen Hk].
    apply Nat.eqb_eq in Hlen.
    apply reduce_from_key_match in Hk as [_ Hall].
    apply list_eq. intros k.
    destruct (selected !! k) as [x|] eqn:Ex.
    + rewrite (Hall k x Ex). simpl. unfold elem.
      destruct (id !! k) eqn:Ei; [done|].
      apply lookup_lt_Some in Ex. apply lookup_ge_None in Ei. lia.
    + apply lookup_ge_None in Ex. symmetry. apply lookup_ge_None. lia.
  - intros ->. f_equal. apply andb_true_iff. split; [apply Nat.eqb_refl|].
    apply reduce_from_key_match. split; [done|].
    intros k x Hk. simpl. unfold elem. by rewrite Hk.
Qed.

Lemma is_deselect_false selected id :
  selected <> Some id ->
  is_deselect selected (Some id) = Some false.
Proof.
  intros Hne. destruct selected as [sel|]; [|done].
  destruct (is_deselect (Some sel) (Some id)) as [[]|] eqn:E; try done.
  apply is_deselect_true in E. congruence.
Qed.

Section Facts.

Variable FilterTerm : Type.
Variable getCellConfig : Model -> option Z -> option Z -> list FilterTerm.

Abbreviation selectionListener := (selectionListener getCellConfig).

(** C6, as the code has it: on a viewer that is selectable, for an event
    not yet handled and a click on a data row that has a key sequence, a
    primary-button click stores the row's key sequence and dispatches
    [perspective-select] with [selected: true] when the stored selection is
    not that sequence, and removes the stored selection and dispatches
    [selected: false] when it is; a click with another button returns the
    world as it found it. *)
Theorem selection_toggle this regularTable meta yv id (w : World FilterTerm) :
  event_handled w = false ->
  y meta = Some yv -> (0 <= yv)%Z ->
  array_get (_ids this) (Some (yv - y0 meta)%Z) = Some id ->
  (map_get (selected_rows_map w) regularTable <> Some id ->
   selectionListener this regularTable true (Some meta) 1 w
   = Resolved
       {| selected_rows_map := <[regularTable := Some id]> (selected_rows_map w);
          event_handled := true;
          dispatched :=
            dispatched w
            ++ [select_event true (getCellConfig this (y meta) (x meta))];
          draws := S (draws w) |})
  /\ (map_get (selected_rows_map w) regularTable = Some id ->
      selectionListener this regularTable true (Some meta) 1 w
      = Resolved
          {| selected_rows_map := delete regularTable (selected_rows_map w);
             event_handled := true;
             dispatched := dispatched w ++ [select_event false []];
             draws := S (draws w) |})
  /\ (forall which selectable meta' (w' : World FilterTerm),
        which <> 1%Z ->
        selectionListener this regularTable selectable meta' which w'
        = Resolved w').
Proof.
  intros Hh Hy Hy0 Hid. repeat split.
  - intros Hne. unfold RowSelect.selectionListener.
    rewrite Hh, Hy. cbn -[array_get is_deselect map_get]. rewrite Hid.
    assert ((0 <=? yv)%Z = true) as -> by (apply Z.leb_le; lia).
    by rewrite (is_deselect_false _ _ Hne).
  - intros He. unfold RowSelect.selectionListener.
    rewrite Hh, Hy. cbn -[array_get is_deselect map_get]. rewrite Hid.
    assert ((0 <=? yv)%Z = true) as -> by (apply Z.leb_le; lia).
    rewrite He. by rewrite (proj2 (is_deselect_true id id) eq_refl).
  - intros which selectable meta' w' Hw.
    unfold RowSelect.selectionListener.
    destruct selectable; [|done]. simpl.
    destruct (event_handled w'); [done|].
    assert ((which =? 1)%Z = false) as -> by (apply Z.eqb_neq; lia).
    done.
Qed.

End Facts.

Lemma selection_toggle_witness :
  (map_get (selected_rows_map Samples.world) 7
   <> Some [VStr "Europe"; VStr "Spain"] ->
   selectionListener Samples.config Samples.model 7 true (Some Samples.meta) 1
     Samples.world
   = Resolved
       {| selected_rows_map :=
            <[7%nat := Some [VStr "Europe"; VStr "Spain"]]>
              (selected_rows_map Samples.world);
          event_handled := true;
          dispatched :=
            [select_event true [Some 11%Z; Some 2%Z]];
          draws := 1 |})
  /\ (map_get (selected_rows_map Samples.world) 7
      = Some [VStr "Europe"; VStr "Spain"] ->
      selectionListener Samples.config Samples.model 7 true (Some Samples.meta) 1
        Samples.world
      = Resolved
          {| selected_rows_map := delete 7%nat (selected_rows_map Samples.world);
             event_handled := true;
             dispatched := [select_event false []];
             draws := 1 |})
  /\ (forall which selectable meta' (w' : World (option Z)),
        which <> 1%Z ->
        selectionListener Samples.config Samples.model 7 selectable meta' which w'
        = Resolved w').
Proof.
  apply (selection_toggle (option Z) Samples.config Samples.model 7 Samples.meta
           11 [VStr "Europe"; VStr "Spain"] Samples.world);
    [reflexivity | reflexivity | lia | reflexivity].
Defined.

(** Two clicks on one row: the first selects it, the second, a new event on
    the same row, deselects it. *)
Example sample_click_twice :
  match selectionListener Samples.config Samples.model 7 true (Some Samples.meta) 1
          Samples.fresh with
  | Resolved w1 =>
      match selectionListener Samples.config Samples.model 7 true
              (Some Samples.meta) 1
              (mkWorld (selected_rows_map w1) false (dispatched w1) (draws w1)) with
      | Resolved w2 =>
          (ev_selected <$> dispatched w2, selected_rows_map w2 !! 7%nat)
      | TypeError => ([], None)
      end
  | TypeError => ([], None)
  end
  = ([true; false], None).
Proof. vm_compute. reflexivity. Qed.

(** C6 as worded does not hold of every primary-button click on a data row:
    on a viewer without the [selectable] attribute such a click, on a row
    that is not the stored selection, stores nothing and dispatches
    nothing. *)
Lemma selection_needs_selectable :
  ~ (exists w',
        selectionListener Samples.config Samples.model 7 false
          (Some Samples.meta) 1 Samples.world = Resolved w'
        /\ map_get (selected_rows_map w') 7
           = Some [VStr "Europe"; VStr "Spain"]
        /\ exists filter,
            dispatched w' = [select_event true filter]).
Proof.
  intros (w' & Hr & _ & filter & Hd).
  injection Hr as <-. discriminate Hd.
Qed.

(** A row without a key sequence: the click throws when a selection is
    stored, and otherwise stores [undefined] and reports a selection. *)
Example sample_click_without_id :
  (selectionListener Samples.config Samples.model 7 true
     (Some Samples.meta_no_id) 1 Samples.world,
   selectionListener Samples.config Samples.model 7 true
     (Some Samples.meta_no_id) 1 Samples.fresh)
  = (TypeError,
     Resolved (mkWorld (<[7%nat := None]> ∅) true
                 [select_event true [Some 15%Z; Some 2%Z]] 1)).
Proof. vm_compute. reflexivity. Qed.

End RowSelectFacts.

(* ===================================================================== *)
(** * Facts: plugin state serialisation                                   *)
(* ===================================================================== *)

Module SaveFacts.

Import Js Save.

(** ** Induction on JSON texts *)
Lemma json_ind (P : json -> Prop) :
  P JNull -> (forall b, P (JBool b)) -> (forall n, P (JNum n)) ->
  (forall s, P (JStr s)) ->
  (forall items, Forall P items -> P (JArr items)) ->
  (forall fields, Forall (fun kt => P kt.2) fields -> P (JObj fields)) ->
  forall t, P t.
Proof.
  intros Hnull Hbool Hnum Hstr Harr Hobj.
  fix IH 1. intros [| b | n | s | items | fields].
  - exact Hnull.
  - apply Hbool.
  - apply Hnum.
  - apply Hstr.
  - apply Harr. induction items as [|t items IHitems]; constructor.
    + apply IH.
    + exact IHitems.
  - apply Hobj. induction fields as [|[k t] fields IHfields]; constructor.
    + apply IH.
    + exact IHfields.
Qed.

Lemma represents_arr h v items :
  represents h v (JArr items)
  = match v with
    | VRef l =>
        match h !! l with
        | Some (Arr elems) => represents_items h items elems
        | _ => false
        end
    | _ => false
    end.
Proof. reflexivity. Qed.

Lemma represents_obj h v fields :
  represents h v (JObj fields)
  = match v with
    | VRef l =>
        match h !! l with
        | Some (Obj props) =>
            bool_decide (NoDup fields.*1)
            && bool_decide (size props = length fields)
            && represents_fields h props fields
        | _ => false
        end
    | _ => false
    end.
Proof. reflexivity. Qed.

Lemma parse_arr items h :
  parse (JArr items) h
  = let '(vs, h1) := parse_items items h in
    (VRef (length h1), h1 ++ [Arr vs]).
Proof. reflexivity. Qed.

Lemma parse_obj fields h :
  parse (JObj fields) h
  = let '(fs, h1) := parse_fields fields h in
    (VRef (length h1), h1 ++ [Obj (props_of_fields fs)]).
Proof. reflexivity. Qed.

Ltac len := rewrite ?length_app in *; simpl in *; lia.

(** ** Heaps that grow *)

Lemma val_in_weaken a b a' b' v :
  a' <= a -> b <= b' -> val_in a b v -> val_in a' b' v.
Proof. destruct v; simpl; try done. lia. Qed.

Lemma grows_refl h : grows h h [].
Proof.
  split; [exists []; by rewrite app_nil_r|]. split; [constructor|].
  intros l o Hl Ho. apply lookup_lt_Some in Ho. lia.
Qed.

Lemma grows_trans h h1 h2 vs1 vs2 :
  grows h h1 vs1 -> grows h1 h2 vs2 -> grows h h2 (vs1 ++ vs2).
Proof.
  intros ([e1 ->] & Hv1 & Ho1) ([e2 ->] & Hv2 & Ho2).
  rewrite !length_app in *.
  split; [exists (e1 ++ e2); by rewrite app_assoc|]. split.
  - apply Forall_app. split.
    + eapply Forall_impl; [exact Hv1|]. intros v Hv. eapply val_in_weaken; [| |exact Hv]; len.
    + eapply Forall_impl; [exact Hv2|]. intros v Hv. eapply val_in_weaken; [| |exact Hv]; len.
  - intros l o Hl Ho.
    destruct (decide (l < length h + length e1)) as [Hlt | Hge].
    + rewrite lookup_app_l in Ho by len.
      eapply Forall_impl; [exact (Ho1 l o Hl Ho)|].
      intros v Hv. eapply val_in_weaken; [| |exact Hv]; len.
    + eapply Forall_impl; [apply (Ho2 l o); [len | exact Ho]|].
      intros v Hv. eapply val_in_weaken; [| |exact Hv]; len.
Qed.

Lemma grows_alloc h h1 vs o :
  grows h h1 vs -> children o ⊆ vs ->
  grows h (h1 ++ [o]) [VRef (length h1)].
Proof.
  intros ([e1 ->] & Hv1 & Ho1) Hsub.
  rewrite !length_app in *. simpl.
  split; [exists (e1 ++ [o]); by rewrite app_assoc|]. split.
  - constructor; [simpl; len | constructor].
  - intros l o' Hl Ho'.
    destruct (decide (l < length h + length e1)) as [Hlt | Hge].
    + rewrite lookup_app_l in Ho' by len.
      eapply Forall_impl; [exact (Ho1 l o' Hl Ho')|].
      intros v Hv. eapply val_in_weaken; [| |exact Hv]; len.
    + assert (l = length (h ++ e1)) as ->.
      { apply lookup_lt_Some in Ho'. len. }
      rewrite lookup_app_r in Ho' by lia. rewrite Nat.sub_diag in Ho'.
      injection Ho' as <-.
      apply Forall_forall. intros v Hv. apply Hsub in Hv.
      rewrite Forall_forall in Hv1.
      eapply val_in_weaken; [| |exact (Hv1 v Hv)]; len.
Qed.

Lemma props_of_fields_values fs : forall k v,
  props_of_fields fs !! k = Some v -> (k, v) ∈ fs.
Proof.
  unfold props_of_fields.
  assert (forall (m : gmap string val) k v,
             fold_left (fun m kv => <[kv.1 := kv.2]> m) fs m !! k = Some v ->
             (k, v) ∈ fs \/ m !! k = Some v) as H.
  { induction fs as [|[k' v'] fs IH]; intros m k v; simpl; [by right|].
    intros Hf. destruct (IH _ _ _ Hf) as [Hin | Hm].
    - left. by right.
    - destruct (decide (k' = k)) as [-> | Hne].
      + rewrite lookup_insert_eq in Hm. injection Hm as ->. left. by left.
      + rewrite lookup_insert_ne in Hm by done. by right. }
  intros k v Hf. destruct (H ∅ k v Hf) as [? | Hm]; [done|].
  by rewrite lookup_empty in Hm.
Qed.

Lemma children_props_of_fields fs :
  children (Obj (props_of_fields fs)) ⊆ fs.*2.
Proof.
  intros v Hv. simpl in Hv.
  apply list_elem_of_fmap in Hv as ([k v'] & -> & Hin).
  apply elem_of_map_to_list in Hin. apply props_of_fields_values in Hin.
  apply list_elem_of_fmap. by exists (k, v').
Qed.

(** Parsing allocates: the heap it starts from is kept, and the value it
    returns and the objects it allocates refer to allocated objects only. *)
Lemma parse_grows t : forall h, grows h (parse t h).2 [(parse t h).1].
Proof.
  induction t as [| b | n | s | items IH | fields IH] using json_ind; intros h;
    try (simpl; destruct (grows_refl h) as (He & _ & Ho);
         split; [exact He|]; split; [by repeat constructor | exact Ho]).
  - rewrite parse_arr.
    assert (forall h, grows h (parse_items items h).2 (parse_items items h).1)
      as Hitems.
    { clear h. induction IH as [|t items Ht _ IHitems]; intros h; simpl.
      - apply grows_refl.
      - specialize (Ht h). destruct (parse t h) as [v h1]. simpl in Ht.
        specialize (IHitems h1). destruct (parse_items items h1) as [vs h2].
        simpl in *. apply (grows_trans _ _ _ [v] vs Ht IHitems). }
    specialize (Hitems h). destruct (parse_items items h) as [vs h1].
    simpl in *. by apply (grows_alloc _ _ vs).
  - rewrite parse_obj.
    assert (forall h, grows h (parse_fields fields h).2
                        (parse_fields fields h).1.*2) as Hfields.
    { clear h. induction IH as [|[k t] fields Ht _ IHfields]; intros h; simpl.
      - apply grows_refl.
      - simpl in Ht. specialize (Ht h). destruct (parse t h) as [v h1].
        simpl in Ht. specialize (IHfields h1). destruct (parse_fields fields h1) as [fs h2].
        simpl in *. apply (grows_trans _ _ _ [v] (fs.*2) Ht IHfields). }
    specialize (Hfields h). destruct (parse_fields fields h) as [fs h1].
    simpl in *. apply (grows_alloc _ _ (fs.*2)); [done|].
    apply children_props_of_fields.
Qed.

Lemma parse_items_grows items h :
  grows h (parse_items items h).2 (parse_items items h).1.
Proof.
  revert h. induction items as [|t items IH]; intros h; simpl.
  - apply grows_refl.
  - pose proof (parse_grows t h) as Ht. destruct (parse t h) as [v h1].
    specialize (IH h1). destruct (parse_items items h1) as [vs h2].
    simpl in *. apply (grows_trans _ _ _ [v] vs Ht IH).
Qed.

Lemma parse_fields_grows fields h :
  grows h (parse_fields fields h).2 (parse_fields fields h).1.*2.
Proof.
  revert h. induction fields as [|[k t] fields IH]; intros h; simpl.
  - apply grows_refl.
  - pose proof (parse_grows t h) as Ht. destruct (parse t h) as [v h1].
    specialize (IH h1). destruct (parse_fields fields h1) as [fs h2].
    simpl in *. apply (grows_trans _ _ _ [v] (fs.*2) Ht IH).
Qed.

Lemma parse_fields_keys fields h :
  (parse_fields fields h).1.*1 = fields.*1.
Proof.
  revert h. induction fields as [|[k t] fields IH]; intros h; simpl; [done|].
  destruct (parse t h) as [v h1]. specialize (IH h1).
  destruct (parse_fields fields h1) as [fs h2]. simpl in *. by f_equal.
Qed.

(** ** Reading back *)
Lemma represents_mono t : forall h v ext,
  represents h v t = true -> represents (h ++ ext) v t = true.
Proof.
  induction t as [| b | n | s | items IH | fields IH] using json_ind;
    intros h v ext; try done.
  - rewrite !represents_arr. destruct v as [| | | | |l]; try done.
    destruct (h !! l) as [[props|elems]|] eqn:El; try done.
    rewrite (lookup_app_l_Some _ _ _ _ El). clear El.
    revert elems. induction IH as [|t items Ht _ IHitems];
      intros [|e elems]; simpl; try done.
    intros [H1 H2]%andb_true_iff. apply andb_true_iff. split.
    + by apply Ht.
    + by apply IHitems.
  - rewrite !represents_obj. destruct v as [| | | | |l]; try done.
    destruct (h !! l) as [[props|elems]|] eqn:El; try done.
    rewrite (lookup_app_l_Some _ _ _ _ El). clear El.
    intros [Hs H]%andb_true_iff. apply andb_true_iff. split; [done|].
    clear Hs. induction IH as [|[k t] fields Ht _ IHfields];
      cbn [represents_fields] in *; [done|].
    apply andb_true_iff in H as [H1 H2]. apply andb_true_iff. split.
    + destruct (props !! k); [by apply Ht | done].
    + by apply IHfields.
Qed.

Lemma represents_items_mono h ext ts : forall vs,
  represents_items h ts vs = true ->
  represents_items (h ++ ext) ts vs = true.
Proof.
  induction ts as [|t ts IH]; intros [|v vs]; simpl; try done.
  intros [H1 H2]%andb_true_iff. apply andb_true_iff. split.
  - by apply represents_mono.
  - by apply IH.
Qed.

Lemma represents_fields_mono h ext props fs :
  represents_fields h props fs = true ->
  represents_fields (h ++ ext) props fs = true.
Proof.
  induction fs as [|[k t] fs IH]; simpl; [done|].
  intros [H1 H2]%andb_true_iff. apply andb_true_iff. split.
  - destruct (props !! k); [by apply represents_mono | done].
  - by apply IH.
Qed.

Lemma props_of_fields_list_to_map fs :
  NoDup fs.*1 -> props_of_fields fs = list_to_map fs.
Proof.
  unfold props_of_fields. intros Hnd.
  assert (forall m : gmap string val,
             fold_left (fun m kv => <[kv.1 := kv.2]> m) fs m
             = list_to_map fs ∪ m) as H.
  { induction fs as [|[k v] fs IH]; intros m; simpl.
    - by rewrite (left_id_L ∅ (∪)).
    - apply NoDup_cons in Hnd as [Hk Hnd]. rewrite (IH Hnd).
      rewrite <- insert_union_l. rewrite insert_union_r; [done|].
      by apply not_elem_of_list_to_map_1. }
  rewrite H. by rewrite (right_id_L ∅ (∪)).
Qed.

(** A well-formed text, parsed, reads back as itself. *)
Lemma parse_represents t :
  wf_json t -> forall h, represents (parse t h).2 (parse t h).1 t = true.
Proof.
  induction t as [| b | n | s | items IH | fields IH] using json_ind;
    intros Hwf h;
    try (cbn [parse represents fst snd]; by apply bool_decide_eq_true_2).
  - inversion Hwf as [| | | | ? Hitems |]; subst.
    rewrite parse_arr.
    assert (forall h, represents_items (parse_items items h).2 items
                        (parse_items items h).1 = true) as H.
    { clear h Hwf. induction IH as [|t items Ht _ IHitems]; intros h; simpl;
        [done|].
      apply Forall_cons in Hitems as [Hwt Hitems].
      specialize (Ht Hwt h). pose proof (parse_items_grows items (parse t h).2) as Hg.
      destruct (parse t h) as [v h1]. specialize (IHitems Hitems h1).
      simpl in Hg. destruct (parse_items items h1) as [vs h2]. simpl in *.
      destruct Hg as ([ext ->] & _). rewrite IHitems, andb_true_r.
      by apply represents_mono. }
    specialize (H h). destruct (parse_items items h) as [vs h1].
    cbn [fst snd] in *.
    rewrite represents_arr, lookup_app_r by lia. rewrite Nat.sub_diag.
    cbn [lookup list_lookup].
    by apply represents_items_mono.
  - inversion Hwf as [| | | | | ? Hnd Hfields]; subst.
    rewrite parse_obj.
    assert (forall h, Forall2 (fun kt kv => kt.1 = kv.1
                         /\ represents (parse_fields fields h).2 kv.2 kt.2 = true)
                        fields (parse_fields fields h).1) as H.
    { clear h Hwf Hnd. induction IH as [|[k t] fields Ht _ IHfields]; intros h;
        simpl; [constructor|].
      apply Forall_cons in Hfields as [Hwt Hfields]. simpl in *.
      specialize (Ht Hwt h).
      pose proof (parse_fields_grows fields (parse t h).2) as Hg.
      destruct (parse t h) as [v h1]. specialize (IHfields Hfields h1).
      simpl in Hg. destruct (parse_fields fields h1) as [fs h2]. simpl in *.
      destruct Hg as ([ext ->] & _). constructor; [|done].
      split; [done|]. by apply represents_mono. }
    specialize (H h). pose proof (parse_fields_keys fields h) as Hk.
    destruct (parse_fields fields h) as [fs h1]. cbn [fst snd] in *.
    rewrite represents_obj, lookup_app_r by lia. rewrite Nat.sub_diag.
    cbn [lookup list_lookup].
    assert (NoDup fs.*1) as Hnd' by (by rewrite Hk).
    rewrite (props_of_fields_list_to_map _ Hnd').
    apply andb_true_iff. split; [apply andb_true_iff; split|].
    + by apply bool_decide_eq_true.
    + apply bool_decide_eq_true. rewrite (map_size_list_to_map _ Hnd').
      by apply Forall2_length in H.
    + apply represents_fields_mono.
      assert (forall k v, (k, v) ∈ fs ->
                (list_to_map fs : gmap string val) !! k = Some v) as Hl.
      { intros k v. by apply elem_of_list_to_map_1. }
      revert Hl. generalize (list_to_map fs : gmap string val). intros props Hl.
      clear Hnd Hnd' Hk Hfields Hwf IH.
      induction H as [|[k t] [k' v] fields fs [Hkk Hr] _ IHf]; simpl in *;
        [done|].
      subst k'. rewrite (Hl k v) by by left.
      apply andb_true_iff. split; [done|].
      apply IHf. intros ???. apply Hl. by right.
Qed.

(** ** Serialisation *)

Lemma collect_fields_Some l :
  Forall (fun kr => is_Some kr.2) l ->
  collect_fields l = Some (omap field_of l).
Proof.
  induction 1 as [|[k r] l [r' Hr] _ IH]; simpl in *; [done|].
  subst r. rewrite IH. unfold field_of; simpl. by destruct r'.
Qed.

Lemma collect_fields_inv l fs :
  collect_fields l = Some fs -> Forall (fun kr => is_Some kr.2) l.
Proof.
  revert fs. induction l as [|[k r] l IH]; intros fs; simpl; [constructor|].
  destruct r as [r'|]; [|done].
  destruct (collect_fields l) as [fs'|] eqn:E; [|by destruct r'].
  intros _. constructor; [by eexists | by eapply IH].
Qed.

Lemma collect_items_Some l :
  Forall is_Some l ->
  collect_items l
  = Some (map (fun r => match r with Some (Some t) => t | _ => JNull end) l).
Proof.
  induction 1 as [|r l [r' ->] _ IH]; simpl; [done|].
  rewrite IH. by destruct r'.
Qed.

Lemma collect_items_inv l ts :
  collect_items l = Some ts -> Forall is_Some l.
Proof.
  revert ts. induction l as [|r l IH]; intros ts; simpl; [constructor|].
  destruct r as [r'|]; [|done].
  destruct (collect_items l) as [ts'|] eqn:E; [|by destruct r'].
  intros _. constructor; [by eexists | by eapply IH].
Qed.

Lemma object_json_Some rs :
  map_Forall (fun _ r => is_Some r) rs ->
  object_json rs = Some (Some (JObj (omap field_of (map_to_list rs)))).
Proof.
  intros H. unfold object_json. rewrite collect_fields_Some; [done|].
  apply Forall_forall. intros [k r] Hin. apply elem_of_map_to_list in Hin.
  by apply (H k r).
Qed.

Lemma object_json_inv rs r :
  object_json rs = Some r ->
  map_Forall (fun _ r => is_Some r) rs
  /\ r = Some (JObj (omap field_of (map_to_list rs))).
Proof.
  unfold object_json.
  destruct (collect_fields (map_to_list rs)) as [fs|] eqn:E; [|done].
  intros [= <-]. apply collect_fields_inv in E as HF.
  assert (map_Forall (fun _ r => is_Some r) rs) as Hall.
  { intros k r Hk. rewrite Forall_forall in HF.
    apply (HF (k, r)). by apply elem_of_map_to_list. }
  split; [done|]. rewrite (collect_fields_Some _ HF) in E. congruence.
Qed.

Lemma omap_field_of_keys l : (omap field_of l).*1 `sublist_of` l.*1.
Proof.
  induction l as [|[k r] l IH]; simpl; [done|].
  unfold field_of at 1; simpl. destruct r as [[t|]|]; simpl.
  - by apply sublist_skip.
  - by apply sublist_cons.
  - by apply sublist_cons.
Qed.

Lemma omap_field_of_NoDup (rs : gmap string (option (option json))) :
  NoDup (omap field_of (map_to_list rs)).*1.
Proof.
  apply (sublist_NoDup _ (map_to_list rs).*1).
  - apply NoDup_fst_map_to_list.
  - apply omap_field_of_keys.
Qed.

(** The fields of an object text are the results of its properties that
    stand for a text. *)
Lemma fields_of_results (rs : gmap string (option (option json))) :
  (list_to_map (omap field_of (map_to_list rs)) : gmap string json)
  = omap text_of rs.
Proof.
  apply map_eq. intros k. apply option_eq. intros t.
  rewrite <- elem_of_list_to_map by apply omap_field_of_NoDup.
  rewrite lookup_omap, list_elem_of_omap. split.
  - intros ([k' r] & Hin & Hf). apply elem_of_map_to_list in Hin.
    unfold field_of in Hf; simpl in Hf.
    destruct r as [[t'|]|]; try done. injection Hf as <- <-.
    by rewrite Hin.
  - destruct (rs !! k) as [r|] eqn:Ek; [|done]. simpl. intros Ht.
    exists (k, r). split; [by apply elem_of_map_to_list|].
    unfold field_of; simpl. by destruct r as [[t'|]|]; simplify_eq/=.
Qed.

Lemma jfield_object (rs : gmap string (option (option json))) k :
  jfield (JObj (omap field_of (map_to_list rs))) k = rs !! k ≫= text_of.
Proof. simpl. by rewrite fields_of_results, lookup_omap. Qed.

(** A text that is found with some fuel in some heap is found with more
    fuel in any heap that agrees with it. *)
Lemma stringify_stable n : forall h h' m v r,
  stringify n h v = Some r -> n <= m -> agree h h' ->
  stringify m h' v = Some r.
Proof.
  induction n as [|n IH]; intros h h' m v r Hs Hle Hag.
  - destruct v; simpl in Hs; try done; by destruct m.
  - destruct m as [|m]; [lia|].
    destruct v as [| | | | |l]; simpl in *; try done.
    destruct (h !! l) as [[props|elems]|] eqn:El; [| |done].
    + rewrite (Hag _ _ El).
      apply object_json_inv in Hs as Hall. destruct Hall as [Hall _].
      rewrite <- Hs. f_equal. apply map_fmap_ext. intros k v Hk.
      destruct (Hall k (stringify n h v)) as [r' Hr'].
      { by rewrite lookup_fmap, Hk. }
      rewrite Hr'. apply (IH h h'); [done | lia | done].
    + rewrite (Hag _ _ El).
      destruct (collect_items (map (stringify n h) elems)) as [ts|] eqn:E;
        [|done].
      apply collect_items_inv in E as HF.
      assert (map (stringify m h') elems = map (stringify n h) elems) as ->;
        [|by rewrite E].
      apply map_ext_in. intros v Hv.
      rewrite Forall_forall in HF.
      destruct (HF (stringify n h v)) as [r' Hr'].
      { apply list_elem_of_In. apply in_map. exact Hv. }
      rewrite Hr'. apply (IH h h'); [done | lia | done].
Qed.

Lemma agree_app h ext : agree h (h ++ ext).
Proof. intros l o. apply lookup_app_l_Some. Qed.

Lemma agree_refl h : agree h h.
Proof. by intros l o. Qed.

(** What [stringify] produces names each field of an object once. *)
Lemma stringify_wf n : forall h v t,
  stringify n h v = Some (Some t) -> wf_json t.
Proof.
  induction n as [|n IH]; intros h v t Hs.
  - destruct v; simpl in Hs; simplify_eq; constructor.
  - destruct v as [| | | | |l]; simpl in Hs; simplify_eq; try constructor.
    destruct (h !! l) as [[props|elems]|] eqn:El; [| |done].
    + apply object_json_inv in Hs as [Hall [= ->]].
      constructor; [apply omap_field_of_NoDup|].
      apply Forall_forall. intros [k t] Hin. simpl.
      apply list_elem_of_omap in Hin as ([k' r] & Hin & Hf).
      apply elem_of_map_to_list in Hin.
      rewrite lookup_fmap in Hin.
      destruct (props !! k') as [v|] eqn:Ek; [|done].
      simpl in Hin. injection Hin as <-.
      unfold field_of in Hf; simpl in Hf.
      destruct (stringify n h v) as [[t'|]|] eqn:E; try done.
      injection Hf as <- <-. by eapply IH.
    + destruct (collect_items (map (stringify n h) elems)) as [ts|] eqn:E;
        [|done].
      injection Hs as <-. constructor.
      apply collect_items_inv in E as HF.
      rewrite (collect_items_Some _ HF) in E. injection E as <-.
      apply Forall_forall. intros t Hin.
      apply list_elem_of_fmap in Hin as (r & -> & Hin).
      apply list_elem_of_fmap in Hin as (v & -> & Hv).
      destruct (stringify n h v) as [[t'|]|] eqn:E; try constructor.
      by eapply IH.
Qed.


(** ** Running the heap computations *)

Lemma bind_run {A B} (m : M A) (k : A -> M B) h a h' :
  m h = Some (a, h') -> bind m k h = k a h'.
Proof. unfold bind. by intros ->. Qed.


Lemma get_prop_run h l props k :
  h !! l = Some (Obj props) -> get_prop l k h = Some (prop props k, h).
Proof. intros H. unfold get_prop, bind, load. by rewrite H. Qed.

Lemma set_prop_run h l props k v :
  h !! l = Some (Obj props) ->
  set_prop l k v h = Some (tt, <[l := Obj (<[k := v]> props)]> h).
Proof. intros H. unfold set_prop, bind, load, store. by rewrite H, H. Qed.

Lemma lift_run {A} (f : heap -> option A) h a :
  f h = Some a -> lift f h = Some (a, h).
Proof. unfold lift. by intros ->. Qed.

Lemma prop_insert_ne props k k' v :
  k <> k' -> prop (<[k := v]> props) k' = prop props k'.
Proof. intros H. unfold prop. by rewrite lookup_insert_ne. Qed.

Lemma prop_insert_eq props k v : prop (<[k := v]> props) k = v.
Proof. unfold prop. by rewrite lookup_insert_eq. Qed.

(** Reads that succeed in a heap succeed, with the same result, in a heap
    that agrees with it. *)
Lemma own_props_agree h h' v props :
  agree h h' -> own_props h v = Some props -> own_props h' v = Some props.
Proof.
  intros Hag. destruct v as [| | | | |l]; simpl; try done.
  destruct (h !! l) as [o|] eqn:E; [|done]. by rewrite (Hag _ _ E).
Qed.

Lemma index0_agree h h' v r :
  agree h h' -> index0 h v = Some r -> index0 h' v = Some r.
Proof.
  intros Hag. destruct v as [| | | | |l]; simpl; try done.
  destruct (h !! l) as [o|] eqn:E; [|done]. by rewrite (Hag _ _ E).
Qed.

Lemma opt_index0_agree h h' v r :
  agree h h' -> opt_index0 h v = Some r -> opt_index0 h' v = Some r.
Proof.
  intros Hag. destruct v; try done; exact (index0_agree _ _ _ _ Hag).
Qed.

Lemma reduced_props_agree h h' props rp :
  agree h h' -> reduced_props h props = Some rp ->
  reduced_props h' props = Some rp.
Proof.
  intros Hag. unfold reduced_props.
  destruct (truthy (prop props "pos_fg_color") || truthy (prop props "pos_bg_color")).
  - destruct (opt_index0 h (prop props "pos_fg_color")) as [v1|] eqn:E1; [|done].
    destruct (opt_index0 h (prop props "neg_fg_color")) as [v2|] eqn:E2; [|done].
    destruct (opt_index0 h (prop props "pos_bg_color")) as [v3|] eqn:E3; [|done].
    destruct (opt_index0 h (prop props "neg_bg_color")) as [v4|] eqn:E4; [|done].
    rewrite (opt_index0_agree _ _ _ _ Hag E1), (opt_index0_agree _ _ _ _ Hag E2),
      (opt_index0_agree _ _ _ _ Hag E3), (opt_index0_agree _ _ _ _ Hag E4).
    simpl. match goal with |- context [truthy ?c] => destruct (truthy c) end;
      [|done].
    match goal with |- context [index0 h ?c] =>
      destruct (index0 h c) as [v|] eqn:E5; [|done] end.
    by rewrite (index0_agree _ _ _ _ Hag E5).
  - simpl. destruct (truthy (prop props "color")); [|done].
    destruct (index0 h (prop props "color")) as [v|] eqn:E5; [|done].
    by rewrite (index0_agree _ _ _ _ Hag E5).
Qed.

(** The two conditionals, run on a copy whose property values refer to
    other objects. *)
Lemma reduce_colors_run h config props rp :
  h !! config = Some (Obj props) ->
  (forall k l, props !! k = Some (VRef l) -> l <> config) ->
  reduced_props h props = Some rp ->
  reduce_colors config h = Some (tt, <[config := Obj rp]> h).
Proof.
  intros Hc Hforeign Hr.
  assert (Hlen : config < length h) by (by eapply lookup_lt_Some).
  (* the heap with the copy holding [p] *)
  set (hc := fun p : gmap string val => <[config := Obj p]> h).
  assert (Hget : forall p k, get_prop config k (hc p) = Some (prop p k, hc p)).
  { intros p k. apply get_prop_run. by apply list_lookup_insert_eq. }
  assert (Hset : forall p k v,
             set_prop config k v (hc p) = Some (tt, hc (<[k := v]> p))).
  { intros p k v. unfold hc.
    rewrite (set_prop_run _ config p) by by apply list_lookup_insert_eq.
    by rewrite list_insert_insert_eq. }
  assert (Hag : forall p v r, (forall l, v = VRef l -> l <> config) ->
             index0 h v = Some r -> index0 (hc p) v = Some r).
  { intros p v r Hv. destruct v as [| | | | |l]; simpl; try done.
    unfold hc. rewrite list_lookup_insert_ne; [done|].
    intros E. by apply (Hv l). }
  assert (Hago : forall p v r, (forall l, v = VRef l -> l <> config) ->
             opt_index0 h v = Some r -> opt_index0 (hc p) v = Some r).
  { intros p v r Hv. destruct v; try done; exact (Hag _ _ _ Hv). }
  assert (Hf : forall k l, prop props k = VRef l -> l <> config).
  { intros k l. unfold prop. destruct (props !! k) eqn:E; [|done].
    intros ->. by eapply Hforeign. }
  assert (h = hc props) as Hh.
  { unfold hc. symmetry. by apply list_insert_id. }
  rewrite Hh at 1. unfold reduce_colors, reduced_props in *.
  rewrite (bind_run _ _ _ _ _ (Hget _ _)), (bind_run _ _ _ _ _ (Hget _ _)).
  destruct (truthy (prop props "pos_fg_color") || truthy (prop props "pos_bg_color")).
  - destruct (opt_index0 h (prop props "pos_fg_color")) as [v1|] eqn:E1; [|done].
    destruct (opt_index0 h (prop props "neg_fg_color")) as [v2|] eqn:E2; [|done].
    destruct (opt_index0 h (prop props "pos_bg_color")) as [v3|] eqn:E3; [|done].
    destruct (opt_index0 h (prop props "neg_bg_color")) as [v4|] eqn:E4; [|done].
    simpl in Hr.
    unfold bind at 1.
    rewrite (bind_run _ _ _ _ _ (lift_run _ _ _ (Hago _ _ _ (Hf _) E1))).
    rewrite (bind_run _ _ _ _ _ (Hset _ _ _)).
    rewrite (bind_run _ _ _ _ _ (Hget _ _)).
    rewrite prop_insert_ne by done.
    rewrite (bind_run _ _ _ _ _ (lift_run _ _ _ (Hago _ _ _ (Hf _) E2))).
    rewrite (bind_run _ _ _ _ _ (Hset _ _ _)).
    rewrite (bind_run _ _ _ _ _ (Hget _ _)).
    rewrite !prop_insert_ne by done.
    rewrite (bind_run _ _ _ _ _ (lift_run _ _ _ (Hago _ _ _ (Hf _) E3))).
    rewrite (bind_run _ _ _ _ _ (Hset _ _ _)).
    rewrite (bind_run _ _ _ _ _ (Hget _ _)).
    rewrite !prop_insert_ne by done.
    rewrite (bind_run _ _ _ _ _ (lift_run _ _ _ (Hago _ _ _ (Hf _) E4))).
    rewrite (Hset _ _ _).
    rewrite (bind_run _ _ _ _ _ (Hget _ _)).
    rewrite !prop_insert_ne in * by done.
    destruct (truthy (prop props "color")).
    + destruct (index0 h (prop props "color")) as [v|] eqn:E5; [|done].
      rewrite (bind_run _ _ _ _ _ (lift_run _ _ _ (Hag _ _ _ (Hf _) E5))).
      rewrite Hset. by injection Hr as <-.
    + by injection Hr as <-.
  - simpl in Hr. unfold bind at 1. unfold ret at 1.
    rewrite (bind_run _ _ _ _ _ (Hget _ _)).
    destruct (truthy (prop props "color")).
    + destruct (index0 h (prop props "color")) as [v|] eqn:E5; [|done].
      rewrite (bind_run _ _ _ _ _ (lift_run _ _ _ (Hag _ _ _ (Hf _) E5))).
      rewrite Hset. by injection Hr as <-.
    + by injection Hr as <-.
Qed.



(** ** The two loops *)

Lemma cols_state_agree h0 hb h c spec :
  agree h0 hb -> length h0 <= c -> cols_state hb h c spec -> agree h0 h.
Proof.
  intros Hag Hc [Hlen Hkeep Hcb _] l o Hl.
  assert (l < length h0) by (by eapply lookup_lt_Some).
  rewrite Hkeep; [by apply Hag | | lia].
  apply Hag in Hl. by eapply lookup_lt_Some.
Qed.

Lemma save_column_run h0 hb h c spec col src props rp :
  agree h0 hb -> length h0 <= c ->
  cols_state hb h c spec ->
  own_props h0 src = Some props ->
  refs_below (length h0) props ->
  reduced_props h0 props = Some rp ->
  exists h',
    save_column c (col, src) h = Some (tt, h')
    /\ cols_state hb h' c (<[col := rp]> spec).
Proof.
  intros Hag Hc Hst Hown Hrefs Hred.
  pose proof (cols_state_agree _ _ _ _ _ Hag Hc Hst) as Hagh.
  destruct Hst as [Hlen Hkeep Hcb (locs & Hlc & Hdom & Hlocs & Hinj)].
  assert (length h0 <= length h) as Hh0.
  { apply lookup_lt_Some in Hlc. lia. }
  set (config := length h).
  set (h1 := h ++ [Obj props]).
  assert (agree h h1) as Hag1 by apply agree_app.
  assert (h1 !! config = Some (Obj props)) as Hcfg.
  { unfold h1, config. rewrite lookup_app_r by lia.
    by rewrite Nat.sub_diag. }
  assert (reduce_colors config h1 = Some (tt, <[config := Obj rp]> h1)) as Hrun.
  { apply (reduce_colors_run _ _ props).
    - done.
    - intros k l Hk. apply Hrefs in Hk. unfold config. lia.
    - apply (reduced_props_agree h0); [|done].
      intros l o Hl. apply Hag1. by apply Hagh. }
  set (h2 := <[config := Obj rp]> h1) in *.
  assert (h2 = h ++ [Obj rp]) as Hh2.
  { unfold h2, h1, config. rewrite insert_app_r_alt by lia.
    by rewrite Nat.sub_diag. }
  assert (h2 !! c = Some (Obj (VRef <$> locs))) as Hc2.
  { rewrite Hh2. by apply lookup_app_l_Some. }
  exists (<[c := Obj (<[col := VRef config]> (VRef <$> locs))]> h2). split.
  - unfold save_column, object_assign_fresh.
    rewrite (bind_run _ _ _ _ _
               (bind_run _ _ _ _ _
                  (lift_run (fun h => own_props h src) h props
                     (own_props_agree _ _ _ _ Hagh Hown)))).
    change (alloc (Obj props) h) with (Some (config, h1)).
    cbv beta iota. rewrite (bind_run _ _ _ _ _ Hrun).
    by apply set_prop_run.
  - rewrite <- fmap_insert. rewrite Hh2.
    assert (c < length h) as Hclt by lia.
    split.
    + rewrite length_insert, length_app. lia.
    + intros l Hl Hne. rewrite list_lookup_insert_ne by done.
      rewrite lookup_app_l by lia. by apply Hkeep.
    + done.
    + exists (<[col := config]> locs). split; [|split; [|split]].
      * apply list_lookup_insert_eq. rewrite length_app. lia.
      * intros col'. destruct (decide (col = col')) as [-> | Hne].
        -- by rewrite !lookup_insert_eq.
        -- rewrite !lookup_insert_ne by done. apply Hdom.
      * intros col' l. destruct (decide (col = col')) as [-> | Hne].
        -- rewrite !lookup_insert_eq. intros [= <-]. split; [unfold config; lia|].
           exists rp. split; [done|].
           rewrite list_lookup_insert_ne by (unfold config; lia).
           rewrite lookup_app_r by (unfold config; lia).
           unfold config. by rewrite Nat.sub_diag.
        -- rewrite !lookup_insert_ne by done. intros Hl.
           destruct (Hlocs _ _ Hl) as (Hge & entry & Hsp & Hhl).
           split; [done|]. exists entry. split; [done|].
           rewrite list_lookup_insert_ne by lia.
           by apply lookup_app_l_Some.
      * intros c1 c2 l.
        destruct (decide (col = c1)) as [<- | Hne1];
          destruct (decide (col = c2)) as [<- | Hne2]; try done.
        -- rewrite lookup_insert_eq, lookup_insert_ne by done.
           intros [= <-] Hl. destruct (Hlocs _ _ Hl) as (_ & entry & _ & Hhl).
           apply lookup_lt_Some in Hhl. unfold config in Hhl. lia.
        -- rewrite lookup_insert_eq, lookup_insert_ne by done.
           intros Hl [= <-]. destruct (Hlocs _ _ Hl) as (_ & entry & _ & Hhl).
           apply lookup_lt_Some in Hhl. unfold config in Hhl. lia.
        -- rewrite !lookup_insert_ne by done. apply Hinj.
Qed.

Lemma get_member_run h l props k :
  h !! l = Some (Obj props) ->
  get_member l k h
  = Some (match props !! k with
          | Some v => Own v
          | None =>
              if bool_decide (k ∈ object_prototype) then Inherited
              else Own VUndef
          end, h).
Proof.
  intros H. unfold get_member, bind, load. rewrite H.
  destruct (props !! k); [done|]. by destruct (bool_decide _).
Qed.

Lemma save_override_run hb h c spec col size :
  cols_state hb h c spec ->
  exists h',
    save_override c (col, size) h = Some (tt, h')
    /\ cols_state hb h' c (with_override spec col size).
Proof.
  intros [Hlen Hkeep Hcb (locs & Hlc & Hdom & Hlocs & Hinj)].
  assert (c < length h) as Hclt by lia.
  unfold save_override, with_override.
  rewrite (bind_run _ _ _ _ _ (get_member_run _ _ _ col Hlc)).
  rewrite lookup_fmap.
  destruct (locs !! col) as [l|] eqn:El; cbn [fmap option_fmap option_map].
  - destruct (Hlocs _ _ El) as (Hge & entry & Hsp & Hhl).
    cbn [member_truthy truthy].
    unfold bind at 1, ret at 1.
    rewrite (bind_run _ _ _ _ _ (get_member_run _ _ _ col Hlc)).
    rewrite lookup_fmap, El. cbn [fmap option_fmap option_map].
    rewrite (set_prop_run _ _ _ _ _ Hhl). rewrite Hsp.
    eexists. split; [done|].
    assert (l < length h) as Hllt by (by eapply lookup_lt_Some).
    split.
    + by rewrite length_insert.
    + intros l' Hl' Hne. rewrite list_lookup_insert_ne by lia. by apply Hkeep.
    + done.
    + exists locs. split; [|split; [|split]].
      * rewrite list_lookup_insert_ne by lia. done.
      * intros col'. destruct (decide (col = col')) as [<- | Hne].
        -- rewrite lookup_insert_eq, El. split; done.
        -- rewrite lookup_insert_ne by done. apply Hdom.
      * intros col' l' Hl'. destruct (decide (col = col')) as [<- | Hne].
        -- assert (l' = l) as -> by congruence. split; [done|].
           eexists. rewrite lookup_insert_eq. split; [done|].
           by apply list_lookup_insert_eq.
        -- destruct (Hlocs _ _ Hl') as (Hge' & entry' & Hsp' & Hhl').
           split; [done|]. exists entry'.
           rewrite lookup_insert_ne by done. split; [done|].
           rewrite list_lookup_insert_ne; [done|].
           intros <-. apply Hne. by eapply Hinj.
      * done.
  - assert (spec !! col = None) as Hsp by (by apply Hdom). rewrite Hsp.
    destruct (bool_decide (col ∈ object_prototype)) eqn:Eproto.
    { (* an inherited member: nothing is written in the heap *)
      cbn [member_truthy]. unfold bind at 1, ret at 1.
      rewrite (bind_run _ _ _ _ _ (get_member_run _ _ _ col Hlc)).
      rewrite lookup_fmap, El. cbn [fmap option_fmap option_map].
      rewrite Eproto. exists h. split; [done|].
      split; [done | done | done |]. by exists locs. }
    cbn [member_truthy truthy].
    set (fresh := length h).
    assert ((h ++ [Obj ∅]) !! c = Some (Obj (VRef <$> locs))) as Hc1
      by (by apply lookup_app_l_Some).
    set (h1 := <[c := Obj (<[col := VRef fresh]> (VRef <$> locs))]> (h ++ [Obj ∅])).
    assert ((let* fresh0 := alloc (Obj ∅) in set_prop c col (VRef fresh0)) h
            = Some (tt, h1)) as Hinner.
    { unfold bind, alloc. by rewrite (set_prop_run _ _ _ _ _ Hc1). }
    rewrite (bind_run _ _ _ _ _ Hinner).
    assert (h1 !! c = Some (Obj (<[col := VRef fresh]> (VRef <$> locs)))) as Hc2.
    { unfold h1. apply list_lookup_insert_eq. rewrite length_app. lia. }
    rewrite (bind_run _ _ _ _ _ (get_member_run _ _ _ col Hc2)).
    rewrite lookup_insert_eq.
    assert (h1 !! fresh = Some (Obj ∅)) as Hf1.
    { unfold h1. rewrite list_lookup_insert_ne by (unfold fresh; lia).
      rewrite lookup_app_r by (unfold fresh; lia).
      unfold fresh. by rewrite Nat.sub_diag. }
    rewrite (set_prop_run _ _ _ _ _ Hf1).
    eexists. split; [done|].
    split.
    + unfold h1. rewrite !length_insert, length_app. lia.
    + intros l' Hl' Hne. unfold h1.
      rewrite !list_lookup_insert_ne by (unfold fresh; lia).
      rewrite lookup_app_l by lia. by apply Hkeep.
    + done.
    + exists (<[col := fresh]> locs). rewrite fmap_insert.
      split; [|split; [|split]].
      * rewrite list_lookup_insert_ne by (unfold fresh; lia). done.
      * intros col'. destruct (decide (col = col')) as [<- | Hne].
        -- by rewrite !lookup_insert_eq.
        -- rewrite !lookup_insert_ne by done. apply Hdom.
      * intros col' l'. destruct (decide (col = col')) as [<- | Hne].
        -- rewrite !lookup_insert_eq. intros [= <-].
           split; [unfold fresh; lia|]. eexists. split; [done|].
           apply list_lookup_insert_eq. unfold h1.
           rewrite length_insert, length_app. unfold fresh. simpl. lia.
        -- rewrite !lookup_insert_ne by done. intros Hl'.
           destruct (Hlocs _ _ Hl') as (Hge' & entry' & Hsp' & Hhl').
           split; [done|]. exists entry'. split; [done|].
           assert (l' < length h) by (by eapply lookup_lt_Some).
           unfold h1.
           rewrite !list_lookup_insert_ne by (unfold fresh; lia).
           by apply lookup_app_l_Some.
      * intros c1 c2 l'.
        destruct (decide (col = c1)) as [<- | Hne1];
          destruct (decide (col = c2)) as [<- | Hne2]; try done.
        -- rewrite lookup_insert_eq, lookup_insert_ne by done.
           intros [= <-] Hl. destruct (Hlocs _ _ Hl) as (_ & entry & _ & Hhl).
           apply lookup_lt_Some in Hhl. unfold fresh in Hhl. lia.
        -- rewrite lookup_insert_eq, lookup_insert_ne by done.
           intros Hl [= <-]. destruct (Hlocs _ _ Hl) as (_ & entry & _ & Hhl).
           apply lookup_lt_Some in Hhl. unfold fresh in Hhl. lia.
        -- rewrite !lookup_insert_ne by done. apply Hinj.
Qed.



Lemma configs_loop_run h0 hb c es : forall h spec,
  agree h0 hb -> length h0 <= c ->
  cols_state hb h c spec ->
  Forall (fun e => config_runs h0 e.2) es ->
  exists h',
    for_each es (save_column c) h = Some (tt, h')
    /\ cols_state hb h' c (fold_left (add_config h0) es spec).
Proof.
  induction es as [|[col src] es IH]; intros h spec Hag Hc Hst Hes; simpl.
  - by exists h.
  - apply Forall_cons in Hes as [(props & rp & Ho & Hr & Hred) Hes].
    simpl in *.
    destruct (save_column_run _ _ _ _ _ col src _ _ Hag Hc Hst Ho Hr Hred)
      as (h1 & Hrun & Hst1).
    rewrite (bind_run _ _ _ _ _ Hrun).
    unfold add_config at 2, config_entry. simpl. rewrite Ho. simpl. rewrite Hred.
    by apply IH.
Qed.

Lemma overrides_loop_run hb c es : forall h spec,
  cols_state hb h c spec ->
  exists h',
    for_each es (save_override c) h = Some (tt, h')
    /\ cols_state hb h' c
         (fold_left (fun sp e => with_override sp e.1 e.2) es spec).
Proof.
  induction es as [|[col size] es IH]; intros h spec Hst; simpl.
  - by exists h.
  - destruct (save_override_run _ _ _ _ col size Hst) as (h1 & Hrun & Hst1).
    rewrite (bind_run _ _ _ _ _ Hrun). by apply IH.
Qed.

(** The loops over the entries of a map compute maps. *)
Lemma fold_add_config h0 (configs : gmap string val) :
  fold_left (add_config h0) (map_to_list configs) ∅
  = omap (config_entry h0) configs.
Proof.
  assert (forall es (spec : gmap string (gmap string val)),
             NoDup es.*1 ->
             fold_left (add_config h0) es spec
             = omap (config_entry h0) (list_to_map es) ∪ spec) as H.
  { induction es as [|[k v] es IH]; intros spec Hnd; simpl.
    - by rewrite omap_empty, (left_id_L ∅ (∪)).
    - apply NoDup_cons in Hnd as [Hk Hnd]. rewrite (IH _ Hnd).
      assert ((list_to_map es : gmap string val) !! k = None) as Hnone
        by (by apply not_elem_of_list_to_map_1).
      unfold add_config. simpl.
      destruct (config_entry h0 v) as [rp|] eqn:E.
      + rewrite (omap_insert_Some _ _ _ _ _ E).
        rewrite <- insert_union_l. rewrite insert_union_r; [done|].
        by rewrite lookup_omap, Hnone.
      + rewrite (omap_insert_None _ _ _ _ E).
        by rewrite delete_id by (by rewrite lookup_omap, Hnone). }
  rewrite H by apply NoDup_fst_map_to_list.
  by rewrite list_to_map_to_list, (right_id_L ∅ (∪)).
Qed.

Lemma lookup_token_columns configs overrides col :
  token_columns configs overrides !! col
  = match overrides !! col with
    | Some size =>
        Some (<["column_size_override" := size]>
                (match configs !! col with Some e => e | None => ∅ end))
    | None => configs !! col
    end.
Proof.
  unfold token_columns. rewrite lookup_merge.
  destruct (configs !! col), (overrides !! col); done.
Qed.

Lemma lookup_recorded (configs : gmap string (gmap string val))
    (overrides : gmap string val) col :
  recorded configs overrides !! col
  = match overrides !! col with
    | Some size =>
        match configs !! col with
        | Some _ => Some size
        | None =>
            if bool_decide (col ∈ object_prototype) then None else Some size
        end
    | None => None
    end.
Proof.
  unfold recorded. destruct (overrides !! col) as [size|] eqn:Eo.
  - destruct (configs !! col) as [e|] eqn:Ec.
    + apply map_lookup_filter_Some. split; [done|]. left. by eexists.
    + destruct (bool_decide_reflect (col ∈ object_prototype)) as [Hin | Hin].
      * apply map_lookup_filter_None. right. intros x Hx [Hs | Hn].
        -- cbn [fst] in Hs. rewrite Ec in Hs. by destruct Hs.
        -- done.
      * apply map_lookup_filter_Some. split; [done|]. by right.
  - apply map_lookup_filter_None. by left.
Qed.

(** The entry of a column in the token, from its configuration and its
    size override. *)
Lemma lookup_saved_columns h configs overrides col :
  saved_columns h configs overrides !! col
  = match configs !! col ≫= config_entry h with
    | Some e =>
        Some (match overrides !! col with
              | Some size => <["column_size_override" := size]> e
              | None => e
              end)
    | None =>
        match overrides !! col with
        | Some size =>
            if bool_decide (col ∈ object_prototype) then None
            else Some (<["column_size_override" := size]> ∅)
        | None => None
        end
    end.
Proof.
  unfold saved_columns.
  rewrite lookup_token_columns, lookup_recorded, lookup_omap.
  destruct (configs !! col ≫= config_entry h) as [e|];
    destruct (overrides !! col) as [size|]; try done.
  by destruct (bool_decide _).
Qed.

Lemma fold_with_override (overrides : gmap string val) spec :
  fold_left (fun sp e => with_override sp e.1 e.2) (map_to_list overrides) spec
  = token_columns spec (recorded spec overrides).
Proof.
  assert (forall es (spec : gmap string (gmap string val)),
             NoDup es.*1 ->
             fold_left (fun sp e => with_override sp e.1 e.2) es spec
             = token_columns spec (recorded spec (list_to_map es))) as H.
  { induction es as [|[k size] es IH]; intros sp Hnd; simpl.
    - apply map_eq. intros col.
      by rewrite lookup_token_columns, lookup_recorded, lookup_empty.
    - apply NoDup_cons in Hnd as [Hk Hnd]. rewrite (IH _ Hnd).
      assert ((list_to_map es : gmap string val) !! k = None) as Hnone
        by (by apply not_elem_of_list_to_map_1).
      apply map_eq. intros col.
      rewrite !lookup_token_columns, !lookup_recorded.
      unfold with_override.
      destruct (decide (k = col)) as [<- | Hne].
      + rewrite Hnone, lookup_insert_eq.
        destruct (sp !! k) as [e|] eqn:Esp.
        * by rewrite lookup_insert_eq.
        * destruct (bool_decide (k ∈ object_prototype)).
          -- by rewrite Esp.
          -- by rewrite lookup_insert_eq.
      + rewrite lookup_insert_ne by done.
        assert (forall x : gmap string val,
                  (match sp !! k with
                   | Some e => <[k := <["column_size_override" := size]> e]> sp
                   | None =>
                       if bool_decide (k ∈ object_prototype) then sp
                       else <[k := x]> sp
                   end) !! col = sp !! col) as Hsame.
        { intros x. destruct (sp !! k).
          - by rewrite lookup_insert_ne.
          - destruct (bool_decide _); [done | by rewrite lookup_insert_ne]. }
        by rewrite Hsame. }
  rewrite H by apply NoDup_fst_map_to_list.
  by rewrite list_to_map_to_list.
Qed.

(** ** Well-formed states *)

Lemma props_ok_fine n h props :
  props_ok n h props = true <-> props_fine n h props.
Proof.
  unfold props_ok, props_fine. rewrite forallb_forall. split.
  - intros H k v Hk. apply (H (k, v)).
    apply list_elem_of_In. by apply elem_of_map_to_list.
  - intros H [k v] Hin. apply list_elem_of_In, elem_of_map_to_list in Hin.
    by apply (H k v).
Qed.

Lemma serialisable_Some n h v :
  serialisable n h v = true <-> is_Some (stringify n h v).
Proof.
  unfold serialisable. destruct (stringify n h v); split; try done.
Qed.

Lemma serialisable_ref n h l :
  serialisable n h (VRef l) = true -> l < length h.
Proof.
  unfold serialisable. destruct n; simpl; [done|].
  destruct (h !! l) eqn:E; [|done]. intros _. by eapply lookup_lt_Some.
Qed.

Lemma props_fine_refs n h props :
  props_fine n h props -> refs_below (length h) props.
Proof. intros H k l Hk. eapply serialisable_ref. by eapply H. Qed.

Lemma serialisable_prop n h props k :
  props_fine n h props -> serialisable n h (prop props k) = true.
Proof.
  intros H. unfold prop. destruct (props !! k) eqn:E; [by eapply H|].
  by destruct n.
Qed.

Lemma props_fine_insert n h props k v :
  props_fine n h props -> serialisable n h v = true ->
  props_fine n h (<[k := v]> props).
Proof.
  intros H Hv k' v'. destruct (decide (k = k')) as [<- | Hne].
  - rewrite lookup_insert_eq. by intros [= <-].
  - rewrite lookup_insert_ne by done. apply H.
Qed.

Lemma serialisable_weaken n m h v :
  n <= m -> serialisable n h v = true -> serialisable m h v = true.
Proof.
  intros Hle. rewrite !serialisable_Some. intros [r Hr]. exists r.
  eapply stringify_stable; [exact Hr | done | apply agree_refl].
Qed.

(** The first element of a value that has a text has a text. *)
Lemma index0_fine n h v :
  serialisable n h v = true -> truthy v = true ->
  exists e, index0 h v = Some e /\ serialisable n h e = true.
Proof.
  intros Hs Ht. destruct v as [| | b | z | s | l]; try done.
  - exists VUndef. split; [done|]. by destruct n.
  - exists VUndef. split; [done|]. by destruct n.
  - destruct s as [|a s]; [done|]. eexists. split; [done|]. by destruct n.
  - destruct n as [|n]; [done|].
    apply serialisable_Some in Hs as [r Hr]. simpl in Hr. simpl.
    destruct (h !! l) as [[props|elems]|] eqn:El; [| |done].
    + eexists. split; [done|].
      apply object_json_inv in Hr as [Hall _].
      unfold prop. destruct (props !! "0") as [e|] eqn:E0; [|done].
      apply (serialisable_weaken n); [lia|]. apply serialisable_Some.
      apply (Hall "0"). by rewrite lookup_fmap, E0.
    + eexists. split; [done|].
      destruct (collect_items (map (stringify n h) elems)) as [ts|] eqn:E;
        [|done].
      apply collect_items_inv in E.
      destruct elems as [|e elems]; [done|]. simpl.
      apply Forall_cons in E as [He _].
      apply (serialisable_weaken n); [lia|]. by apply serialisable_Some.
Qed.

Lemma opt_index0_fine n h v :
  serialisable n h v = true ->
  exists e, opt_index0 h v = Some e /\ serialisable n h e = true.
Proof.
  intros Hs. destruct v as [| | b | z | s | l] eqn:Ev;
    try (exists VUndef; split; [done | by destruct n]).
  - destruct s as [|a s]; eexists; (split; [done | by destruct n]).
  - destruct (index0_fine n h (VRef l) Hs eq_refl) as (e & He & Hse).
    by exists e.
Qed.

Lemma reduced_props_fine n h props :
  props_fine n h props ->
  exists rp, reduced_props h props = Some rp /\ props_fine n h rp.
Proof.
  intros Hp. unfold reduced_props.
  assert (forall p1, props_fine n h p1 ->
            exists rp,
              (if truthy (prop p1 "color")
               then v ← index0 h (prop p1 "color"); Some (<["color" := v]> p1)
               else Some p1) = Some rp
              /\ props_fine n h rp) as Hcolor.
  { intros p1 Hp1. destruct (truthy (prop p1 "color")) eqn:Et.
    - destruct (index0_fine n h _ (serialisable_prop _ _ _ "color" Hp1) Et)
        as (e & -> & He).
      eexists. split; [done|]. by apply props_fine_insert.
    - by exists p1. }
  destruct (truthy (prop props "pos_fg_color") || truthy (prop props "pos_bg_color")).
  - destruct (opt_index0_fine n h _ (serialisable_prop _ _ _ "pos_fg_color" Hp))
      as (v1 & -> & H1).
    destruct (opt_index0_fine n h _ (serialisable_prop _ _ _ "neg_fg_color" Hp))
      as (v2 & -> & H2).
    destruct (opt_index0_fine n h _ (serialisable_prop _ _ _ "pos_bg_color" Hp))
      as (v3 & -> & H3).
    destruct (opt_index0_fine n h _ (serialisable_prop _ _ _ "neg_bg_color" Hp))
      as (v4 & -> & H4).
    simpl. apply Hcolor. by repeat apply props_fine_insert.
  - simpl. by apply Hcolor.
Qed.



Lemma entries_or_empty_run h0 h v m :
  agree h0 h -> entries h0 v = Some m ->
  entries_or_empty v h = Some (map_to_list m, h).
Proof.
  intros Hag. unfold entries, entries_or_empty. destruct (truthy v).
  - intros Ho. by rewrite (bind_run _ _ _ _ _
                            (lift_run (fun h => own_props h v) h m
                               (own_props_agree _ _ _ _ Hag Ho))).
  - intros [= <-]. by rewrite map_to_list_empty.
Qed.

Lemma entry_json_Some n h entry :
  props_fine n h entry -> is_Some (entry_json n h entry).
Proof.
  intros Hf. unfold entry_json. rewrite object_json_Some; [by eexists|].
  intros k r. rewrite lookup_fmap.
  destruct (entry !! k) as [v|] eqn:E; [|done]. intros [= <-].
  apply serialisable_Some. by eapply Hf.
Qed.

Lemma columns_json_Some n h spec :
  (forall col entry, spec !! col = Some entry -> props_fine n h entry) ->
  exists t, columns_json n h spec = Some (Some t).
Proof.
  intros Hf. unfold columns_json. rewrite object_json_Some; [by eexists|].
  intros k r. rewrite lookup_fmap.
  destruct (spec !! k) as [entry|] eqn:E; [|done]. intros [= <-].
  apply entry_json_Some. by eapply Hf.
Qed.

Lemma token_json_Some n h spec sl ed :
  (forall col entry, spec !! col = Some entry -> props_fine n h entry) ->
  exists t, token_json n h spec sl ed = Some (Some t).
Proof.
  intros Hf. unfold token_json. rewrite object_json_Some; [by eexists|].
  destruct (columns_json_Some n h spec Hf) as [tc Htc].
  intros k r Hk.
  destruct (decide (k = "columns")) as [-> | H1].
  { rewrite lookup_insert_eq in Hk. injection Hk as <-. by rewrite Htc. }
  rewrite lookup_insert_ne in Hk by done.
  destruct (decide (k = "scroll_lock")) as [-> | H2].
  { rewrite lookup_insert_eq in Hk. by injection Hk as <-. }
  rewrite lookup_insert_ne in Hk by done.
  destruct (decide (k = "editable")) as [-> | H3].
  { rewrite lookup_insert_eq in Hk. by injection Hk as <-. }
  rewrite lookup_insert_ne in Hk by done. by rewrite lookup_empty in Hk.
Qed.

(** In the heap the loops leave, [token.columns] has the text that the
    entries have in the stored state. *)
Lemma columns_stringify n h0 hb hm c spec :
  cols_state hb hm c spec -> agree h0 hm ->
  (forall col entry, spec !! col = Some entry -> props_fine n h0 entry) ->
  stringify (S (S n)) hm (VRef c) = columns_json n h0 spec.
Proof.
  intros [_ _ _ (locs & Hlc & Hdom & Hlocs & _)] Hag Hf.
  simpl. rewrite Hlc. unfold columns_json. f_equal.
  apply map_eq. intros col. rewrite <- map_fmap_compose, !lookup_fmap.
  destruct (locs !! col) as [l|] eqn:El; simpl.
  - destruct (Hlocs _ _ El) as (_ & entry & Hsp & Hhl).
    rewrite Hsp, Hhl. simpl. f_equal. unfold entry_json. f_equal.
    apply map_fmap_ext. intros k v Hk.
    assert (is_Some (stringify n h0 v)) as [r Hr].
    { apply serialisable_Some. by eapply (Hf col entry). }
    rewrite Hr. by apply (stringify_stable n h0 hm n v r).
  - apply Hdom in El. by rewrite El.
Qed.

Lemma token_stringify n h0 hb hm c tok spec this :
  cols_state hb hm c spec -> agree h0 hm ->
  (forall col entry, spec !! col = Some entry -> props_fine n h0 entry) ->
  hm !! tok = Some (Obj (token_props c this)) ->
  stringify (S (S (S n))) hm (VRef tok)
  = token_json n h0 spec (truthy (_is_scroll_lock this))
      (truthy (_is_edit_mode this)).
Proof.
  intros Hst Hag Hf Htok.
  change (stringify (S (S (S n))) hm (VRef tok))
    with (match hm !! tok with
          | Some (Arr elems) =>
              match collect_items (map (stringify (S (S n)) hm) elems) with
              | Some ts => Some (Some (JArr ts))
              | None => None
              end
          | Some (Obj props) => object_json (stringify (S (S n)) hm <$> props)
          | None => None
          end).
  rewrite Htok. unfold token_props, token_json.
  rewrite !fmap_insert, fmap_empty.
  by rewrite (columns_stringify n h0 hb hm c spec Hst Hag Hf).
Qed.

Lemma well_formed_inv n h ov datagrid :
  well_formed n h ov datagrid = true ->
  exists configs overrides,
    entries h (plugin_symbol datagrid) = Some configs
    /\ entries h ov = Some overrides
    /\ (forall col src, configs !! col = Some src ->
          exists props, own_props h src = Some props /\ props_fine n h props)
    /\ props_fine n h overrides.
Proof.
  unfold well_formed.
  destruct (entries h (plugin_symbol datagrid)) as [configs|]; [|done].
  destruct (entries h ov) as [overrides|]; [|done].
  intros [Hc Ho]%andb_true_iff. exists configs, overrides.
  split; [done|]. split; [done|]. split; [|by apply props_ok_fine].
  intros col src Hcol. rewrite forallb_forall in Hc.
  specialize (Hc (col, src)). unfold config_ok in Hc. simpl in Hc.
  destruct (own_props h src) as [props|].
  - exists props. split; [done|]. apply props_ok_fine. apply Hc.
    apply list_elem_of_In. by apply elem_of_map_to_list.
  - exfalso. assert (false = true); [|done]. apply Hc.
    apply list_elem_of_In. by apply elem_of_map_to_list.
Qed.

Lemma saved_columns_fine n h configs overrides :
  (forall col src, configs !! col = Some src ->
     exists props, own_props h src = Some props /\ props_fine n h props) ->
  props_fine n h overrides ->
  forall col entry,
    saved_columns h configs overrides !! col = Some entry ->
    props_fine n h entry.
Proof.
  intros Hc Ho col entry. rewrite lookup_saved_columns.
  assert (forall e, configs !! col ≫= config_entry h = Some e ->
                    props_fine n h e) as He.
  { intros e. destruct (configs !! col) as [src|] eqn:E; [|done]. simpl.
    destruct (Hc _ _ E) as (props & Hown & Hp).
    unfold config_entry. rewrite Hown. simpl.
    destruct (reduced_props_fine n h props Hp) as (rp & -> & Hrp).
    by intros [= <-]. }
  destruct (configs !! col ≫= config_entry h) as [e|] eqn:Ee.
  - specialize (He e eq_refl).
    destruct (overrides !! col) as [size|] eqn:Eo; intros [= <-]; [|done].
    apply props_fine_insert; [done | by eapply Ho].
  - destruct (overrides !! col) as [size|] eqn:Eo; [|done].
    destruct (bool_decide _); [done|]. intros [= <-].
    apply props_fine_insert; [|by eapply Ho].
    intros k v. by rewrite lookup_empty.
Qed.

Lemma alloc_run o h : alloc o h = Some (length h, h ++ [o]).
Proof. reflexivity. Qed.

Lemma cols_state_init hb c :
  c < length hb -> hb !! c = Some (Obj ∅) -> cols_state hb hb c ∅.
Proof.
  intros Hc Hl. split; [done | done | done |].
  exists ∅. rewrite fmap_empty. split; [done|]. split; [|split].
  - intros col. by rewrite !lookup_empty.
  - intros col l. by rewrite lookup_empty.
  - intros c1 c2 l. by rewrite lookup_empty.
Qed.

Lemma save_run n h0 ov this datagrid :
  regular_table this = Some datagrid ->
  well_formed n h0 ov datagrid = true ->
  exists t hm,
    saved_json n h0 ov this = Some (Some t)
    /\ wf_json t
    /\ (exists ext, hm = h0 ++ ext)
    /\ save (S (S (S n))) ov this h0 = Some (parse t hm).
Proof.
  intros Hrt Hwf.
  destruct (well_formed_inv _ _ _ _ Hwf)
    as (configs & overrides & Hec & Heo & Hc & Ho).
  pose proof (saved_columns_fine n h0 configs overrides Hc Ho) as Hfine.
  destruct (token_json_Some n h0 (saved_columns h0 configs overrides)
              (truthy (_is_scroll_lock this)) (truthy (_is_edit_mode this))
              Hfine) as [t Ht].
  set (c := length h0). set (tok := S (length h0)).
  set (hb := (h0 ++ [Obj ∅]) ++ [Obj (token_props c this)]).
  assert (agree h0 hb) as Hag.
  { intros l o Hl. unfold hb. by do 2 apply lookup_app_l_Some. }
  assert (cols_state hb hb c ∅) as Hst0.
  { apply cols_state_init.
    - unfold hb, c. rewrite !length_app. cbn [length]. lia.
    - unfold hb, c.
      rewrite lookup_app_l by (rewrite length_app; cbn [length]; lia).
      rewrite lookup_app_r by lia. by rewrite Nat.sub_diag. }
  destruct (configs_loop_run h0 hb c (map_to_list configs) hb ∅ Hag
              (Nat.le_refl _) Hst0) as (h1 & Hrun1 & Hst1).
  { apply Forall_forall. intros [col src] Hin.
    apply elem_of_map_to_list in Hin.
    destruct (Hc _ _ Hin) as (props & Hown & Hp).
    destruct (reduced_props_fine n h0 props Hp) as (rp & Hrp & _).
    exists props, rp. split; [done|]. split; [|done].
    by eapply props_fine_refs. }
  rewrite fold_add_config in Hst1.
  destruct (overrides_loop_run hb c (map_to_list overrides) h1 _ Hst1)
    as (hm & Hrun2 & Hst2).
  rewrite fold_with_override in Hst2.
  fold (saved_columns h0 configs overrides) in Hst2.
  pose proof (cols_state_agree h0 hb h1 c _ Hag (Nat.le_refl _) Hst1) as Hag1.
  pose proof (cols_state_agree h0 hb hm c _ Hag (Nat.le_refl _) Hst2) as Hagm.
  assert (hm !! tok = Some (Obj (token_props c this))) as Htok.
  { rewrite (cs_keep _ _ _ _ Hst2).
    - unfold hb, tok.
      rewrite lookup_app_r by (rewrite length_app; cbn [length]; lia).
      rewrite length_app. cbn [length].
      by replace (S (length h0) - (length h0 + 1)) with 0 by lia.
    - unfold hb, tok. rewrite !length_app. cbn [length]. lia.
    - unfold tok, c. lia. }
  pose proof (token_stringify n h0 hb hm c tok _ this Hst2 Hagm Hfine Htok)
    as Hstr.
  exists t, hm. split; [|split; [|split]].
  - unfold saved_json. rewrite Hrt, Hec. cbn [mbind option_bind].
    rewrite Heo. exact Ht.
  - apply (stringify_wf (S (S (S n))) hm (VRef tok)). by rewrite Hstr.
  - exists (drop (length h0) hm).
    rewrite <- (take_drop (length h0) hm) at 1. f_equal.
    apply list_eq. intros l.
    destruct (decide (l < length h0)) as [Hl | Hl].
    + rewrite lookup_take_lt by done.
      destruct (h0 !! l) as [o|] eqn:E.
      * by apply Hagm.
      * apply lookup_ge_None in E. lia.
    + rewrite lookup_take_ge by lia. symmetry. apply lookup_ge_None. lia.
  - unfold save. rewrite Hrt.
    rewrite (bind_run _ _ _ _ _ (alloc_run _ _)).
    rewrite (bind_run _ _ _ _ _ (alloc_run _ _)).
    replace (length (h0 ++ [Obj ∅])) with tok
      by (rewrite length_app; cbn [length]; unfold tok; lia).
    fold c. fold hb.
    rewrite (bind_run _ _ _ _ _ (entries_or_empty_run h0 hb _ _ Hag Hec)).
    rewrite (bind_run _ _ _ _ _ Hrun1).
    rewrite (bind_run _ _ _ _ _ (entries_or_empty_run h0 h1 _ _ Hag1 Heo)).
    rewrite (bind_run _ _ _ _ _ Hrun2).
    unfold json_round_trip.
    by rewrite Hstr, Ht.
Qed.



(** ** What a run of [save] leaves alone *)





Lemma touch_above n l0 h h' : n <= l0 -> touch l0 h h' -> above n h h'.
Proof.
  intros Hn [L K]. split; [lia|]. intros l Hl. apply K. lia.
Qed.

Lemma above_app n h o : n <= length h -> above n h (h ++ [o]).
Proof.
  intros Hn. split; [rewrite length_app; lia|].
  intros l Hl. apply lookup_app_l. lia.
Qed.


Lemma get_prop_inv_val l k h v h' :
  get_prop l k h = Some (v, h') ->
  exists p, h !! l = Some (Obj p) /\ v = prop p k /\ h' = h.
Proof.
  unfold get_prop, bind, load, ret, throw.
  destruct (h !! l) as [[p|es]|]; try done. intros [= <- <-]. by exists p.
Qed.















(** ** The token of a well-formed state *)

Lemma save_returns n h0 ov this datagrid :
  regular_table this = Some datagrid ->
  well_formed n h0 ov datagrid = true ->
  exists v h' t,
    save (S (S (S n))) ov this h0 = Some (v, h')
    /\ saved_json n h0 ov this = Some (Some t)
    /\ represents h' v t = true
    /\ agree h0 h'.
Proof.
  intros Hrt Hwf.
  destruct (save_run n h0 ov this datagrid Hrt Hwf)
    as (t & hm & Hj & Hwft & [ext ->] & Hs).
  exists (parse t (h0 ++ ext)).1, (parse t (h0 ++ ext)).2, t.
  split; [by rewrite Hs; destruct (parse t (h0 ++ ext))|].
  split; [done|]. split; [by apply parse_represents|].
  destruct (parse_grows t (h0 ++ ext)) as ([ext' ->] & _).
  intros l o Hl. by do 2 apply lookup_app_l_Some.
Qed.








(** ** The fields of the token *)
Lemma jpath_cons t k path :
  jpath t (k :: path) = jfield t k ≫= fun t' => jpath t' path.
Proof. simpl. by destruct (jfield t k). Qed.

Lemma object_json_field rs t k :
  object_json rs = Some (Some t) -> jfield t k = rs !! k ≫= text_of.
Proof.
  intros (_ & [= ->])%object_json_inv. apply jfield_object.
Qed.

Lemma entry_json_inv n h entry te :
  entry_json n h entry = Some (Some te) ->
  forall f, jfield te f = entry !! f ≫= fun v => text_of (stringify n h v).
Proof.
  intros Hte f. rewrite (object_json_field _ _ f Hte), lookup_fmap.
  by destruct (entry !! f).
Qed.

Lemma columns_json_inv n h spec tc :
  columns_json n h spec = Some (Some tc) ->
  (forall col, jfield tc col
               = spec !! col ≫= fun entry => text_of (entry_json n h entry))
  /\ forall col entry, spec !! col = Some entry ->
       exists te, entry_json n h entry = Some (Some te).
Proof.
  intros Htc. split.
  - intros col. rewrite (object_json_field _ _ col Htc), lookup_fmap.
    by destruct (spec !! col).
  - intros col entry Hcol. apply object_json_inv in Htc as (Hall & _).
    destruct (Hall col (entry_json n h entry)) as [r Hr];
      [by rewrite lookup_fmap, Hcol|].
    pose proof Hr as Hr'. apply object_json_inv in Hr' as (_ & ->).
    by eexists.
Qed.

Lemma token_json_inv n h spec sl ed t :
  token_json n h spec sl ed = Some (Some t) ->
  exists tc, columns_json n h spec = Some (Some tc)
             /\ jfield t "columns" = Some tc
             /\ jfield t "scroll_lock" = Some (JBool sl)
             /\ jfield t "editable" = Some (JBool ed).
Proof.
  intros Ht. pose proof Ht as Ht'. apply object_json_inv in Ht' as (Hall & _).
  destruct (Hall "columns" (columns_json n h spec)) as [r Hr];
    [by rewrite lookup_insert_eq|].
  pose proof Hr as Hr'. apply object_json_inv in Hr' as (_ & ->).
  eexists. split; [exact Hr|].
  rewrite !(object_json_field _ _ _ Ht).
  rewrite lookup_insert_eq, Hr.
  rewrite (lookup_insert_ne _ "columns" "scroll_lock") by discriminate.
  rewrite lookup_insert_eq.
  rewrite (lookup_insert_ne _ "columns" "editable") by discriminate.
  rewrite (lookup_insert_ne _ "scroll_lock" "editable") by discriminate.
  rewrite lookup_insert_eq. by repeat split.
Qed.

(** The token's entry for a column, and the fields of the entry. *)
Lemma token_json_columns n h spec sl ed t col :
  token_json n h spec sl ed = Some (Some t) ->
  jpath t ["columns"; col]
  = spec !! col ≫= fun entry => text_of (entry_json n h entry).
Proof.
  intros (tc & Htc & Hf & _)%token_json_inv.
  rewrite !jpath_cons, Hf. simpl.
  rewrite (proj1 (columns_json_inv _ _ _ _ Htc) col).
  destruct (spec !! col) as [entry|]; simpl; [|done].
  by destruct (text_of (entry_json n h entry)).
Qed.

Lemma token_json_field n h spec sl ed t col entry f :
  token_json n h spec sl ed = Some (Some t) ->
  spec !! col = Some entry ->
  jpath t ["columns"; col; f]
  = entry !! f ≫= fun v => text_of (stringify n h v).
Proof.
  intros (tc & Htc & Hf & _)%token_json_inv Hcol.
  destruct (columns_json_inv _ _ _ _ Htc) as [Hfields Hentries].
  destruct (Hentries _ _ Hcol) as [te Hte].
  rewrite !jpath_cons, Hf. simpl. rewrite Hfields, Hcol. simpl.
  rewrite Hte. simpl. rewrite (entry_json_inv _ _ _ _ Hte f).
  destruct (entry !! f) as [v|]; simpl; [|done].
  by destruct (text_of (stringify n h v)).
Qed.











Lemma saved_json_token n h ov this datagrid configs overrides :
  regular_table this = Some datagrid ->
  entries h (plugin_symbol datagrid) = Some configs ->
  entries h ov = Some overrides ->
  saved_json n h ov this
  = token_json n h (saved_columns h configs overrides)
      (truthy (_is_scroll_lock this)) (truthy (_is_edit_mode this)).
Proof.
  intros Hrt Hec Heo. unfold saved_json. rewrite Hrt, Hec.
  cbn [mbind option_bind]. by rewrite Heo.
Qed.




(** The token of the sample state. *)
Example sample_token :
  saved_json 2 Samples.stored Samples.overrides Samples.plugin
  = Some (Some (JObj
      [("scroll_lock", JBool false);
       ("columns",
        JObj
          [("c", JObj [("column_size_override", JNum 50)]);
           ("a",
            JObj
              [("neg_fg_color", JArr [JStr "#f00"; JStr "#0f0"]);
               ("fixed", JNum 2)]);
           ("b",
            JObj
              [("color", JStr "#abc");
               ("column_size_override", JNum 100);
               ("neg_fg_color", JStr "#f00");
               ("pos_fg_color", JStr "#00f")])]);
       ("editable", JBool true)])).
Proof. vm_compute. reflexivity. Qed.

(** The token of the sample with columns named as members of
    [Object.prototype]: [toString], which has a stored configuration, has
    its size override recorded; [constructor], which has none, has no
    entry. *)
Example named_token :
  saved_json 2 Named.named_heap Named.named_overrides Named.named_plugin
  = Some (Some (JObj
      [("scroll_lock", JBool false);
       ("columns",
        JObj
          [("c", JObj [("column_size_override", JNum 50)]);
           ("toString",
            JObj [("column_size_override", JNum 70); ("fixed", JNum 2)])]);
       ("editable", JBool false)]))
  /\ exists v h',
       save 5 Named.named_overrides Named.named_plugin Named.named_heap
       = Some (v, h')
       /\ own_props h' (get_path h' v ["columns"; "toString"])
          = Some (<["column_size_override" := VNum 70]>
                    (<["fixed" := VNum 2]> ∅))
       /\ get_path h' v ["columns"; "constructor"] = VUndef.
Proof.
  split; [vm_compute; reflexivity|].
  eexists _, _. split; [vm_compute; reflexivity|].
  split; vm_compute; reflexivity.
Qed.





End SaveFacts.
(* ===================================================================== *)
(** * Facts: what cell styling leaves alone                               *)
(* ===================================================================== *)

Module CellStyleMarkerFacts.
Import Js CellStyle CellStyleFacts.

Section Facts.

Variables numeric boolean string_ datetime : type_rule.
Variable row_header : header_rule.
Variable this : Model.
Variable plugins : gmap string Plugin.

Abbreviation listener :=
  (table_cell_style_listener numeric boolean string_ datetime row_header
     this plugins).
Abbreviation style_td :=
  (style_td numeric boolean string_ datetime row_header this plugins).
Abbreviation dispatch := (dispatch numeric boolean string_ datetime this).

(** The surface of a data cell after the loop body: the four toggles on
    top of what the type dispatch left. *)
Lemma style_td_data regularTable td :
  tagName td <> "TH" ->
  surface (style_td regularTable td)
  = toggle "psp-color-mode-bar"
      (number_fg_mode_is_bar (plugin_of plugins td)
       && is_numeric_type (type_of this td))
      (toggle "psp-align-left" (negb (is_numeric_type (type_of this td)))
         (toggle "psp-align-right" (is_numeric_type (type_of this td))
            (toggle "psp-bool-type"
               (type_is (type_of this td) "boolean"
                && negb (strict_eq (user (meta td)) VNull))
               (dispatch (type_of this td) (plugin_of plugins td) td
                  (meta td))))).
Proof.
  intros Hth. apply String.eqb_neq in Hth.
  rewrite style_td_unfold. cbn [surface with_surface].
  unfold headed, typed. by rewrite Hth.
Qed.

Lemma type_is_exclusive type s1 s2 :
  s1 <> s2 -> type_is type s1 = true -> type_is type s2 = false.
Proof.
  intros Hne H1. apply type_is_true in H1 as ->. simpl.
  apply String.eqb_neq. done.
Qed.

(** X6: on a data cell the markers are consistent after a pass: the cell is
    never both a boolean and a bar-mode cell, a bar-mode cell is
    right-aligned and a boolean cell left-aligned. *)
Theorem data_cell_markers_consistent (g : Grid) i j td :
  cell_at g i j = Some td ->
  tagName td <> "TH" ->
  exists td',
    cell_at (listener g) i j = Some td'
    /\ ~ ("psp-bool-type" ∈ classList (surface td')
          /\ "psp-color-mode-bar" ∈ classList (surface td'))
    /\ ("psp-color-mode-bar" ∈ classList (surface td')
        -> "psp-align-right" ∈ classList (surface td'))
    /\ ("psp-bool-type" ∈ classList (surface td')
        -> "psp-align-left" ∈ classList (surface td')).
Proof.
  intros H Hth.
  destruct (listener_cell_at numeric boolean string_ datetime row_header
              this plugins g i j td H) as [rt Hrt].
  eexists. split; [exact Hrt|].
  rewrite (style_td_data rt td Hth), !elem_of_toggle.
  unfold is_numeric_type.
  destruct (type_is (type_of this td) "boolean") eqn:Eb.
  - rewrite (type_is_exclusive _ "boolean" "integer"),
      (type_is_exclusive _ "boolean" "float") by done.
    rewrite andb_false_r. simpl. intuition congruence.
  - simpl.
    destruct (type_is (type_of this td) "integer"
              || type_is (type_of this td) "float");
      destruct (number_fg_mode_is_bar (plugin_of plugins td));
      simpl; intuition congruence.
Qed.

(** X7: a data cell of no known type keeps everything but its two colours
    and the four markers: every other class and every other inline style
    property is after the pass as it was before. *)
Theorem unknown_type_keeps_rest (g : Grid) i j td :
  cell_at g i j = Some td ->
  tagName td <> "TH" ->
  is_known_type (get_psp_type this (meta td)) = false ->
  exists td',
    cell_at (listener g) i j = Some td'
    /\ style_other (surface td') = style_other (surface td)
    /\ forall c, c ∉ markers ->
         c ∈ classList (surface td') <-> c ∈ classList (surface td).
Proof.
  intros H Hth Hu.
  destruct (listener_cell_at numeric boolean string_ datetime row_header
              this plugins g i j td H) as [rt Hrt].
  eexists. split; [exact Hrt|].
  rewrite (style_td_data rt td Hth).
  unfold type_of. rewrite dispatch_unknown by exact Hu.
  split; [reflexivity|].
  intros c Hc. rewrite !elem_of_toggle. cbn [clear_colors classList].
  unfold markers in Hc. rewrite !not_elem_of_cons in Hc.
  intuition congruence.
Qed.

End Facts.

Lemma data_cell_markers_consistent_witness :
  exists td',
    cell_at (Samples.listener Samples.grid) 0 1 = Some td'
    /\ ~ ("psp-bool-type" ∈ classList (surface td')
          /\ "psp-color-mode-bar" ∈ classList (surface td'))
    /\ ("psp-color-mode-bar" ∈ classList (surface td')
        -> "psp-align-right" ∈ classList (surface td'))
    /\ ("psp-bool-type" ∈ classList (surface td')
        -> "psp-align-left" ∈ classList (surface td')).
Proof.
  apply (data_cell_markers_consistent Samples.numeric_rule Samples.boolean_rule
           Samples.string_rule Samples.datetime_rule Samples.row_header_rule
           Samples.model Samples.plugins Samples.grid 0 1
           (Samples.price (VNum (-3)))).
  - reflexivity.
  - discriminate.
Defined.

Lemma unknown_type_keeps_rest_witness :
  exists td',
    cell_at (Samples.listener Samples.grid) 0 4 = Some td'
    /\ style_other (surface td') = style_other (surface (Samples.odd 3))
    /\ forall c, c ∉ markers ->
         c ∈ classList (surface td')
         <-> c ∈ classList (surface (Samples.odd 3)).
Proof.
  apply (unknown_type_keeps_rest Samples.numeric_rule Samples.boolean_rule
           Samples.string_rule Samples.datetime_rule Samples.row_header_rule
           Samples.model Samples.plugins Samples.grid 0 4 (Samples.odd 3)).
  - reflexivity.
  - discriminate.
  - reflexivity.
Defined.

End CellStyleMarkerFacts.

(* ===================================================================== *)
(** * Facts: guards, errors and sequences of clicks                       *)
(* ===================================================================== *)

Module RowSelectEventFacts.
Import Js RowSelect RowSelectFacts.

Section Facts.

Variable FilterTerm : Type.
Variable getCellConfig : Model -> option Z -> option Z -> list FilterTerm.

Abbreviation selectionListener := (selectionListener getCellConfig).

(** A click that the listener does not act on leaves the world as it is. *)
Lemma not_acted this regularTable selectable meta which (w : World FilterTerm) :
  acts_on selectable meta which w = false ->
  selectionListener this regularTable selectable meta which w = Resolved w.
Proof.
  unfold acts_on, RowSelect.selectionListener.
  destruct selectable; [|done]. destruct (event_handled w); [done|].
  destruct (which =? 1)%Z; [|done]. simpl.
  destruct meta as [m|]; [|done]. by intros ->.
Qed.

(** A click that the listener acts on. *)
Lemma acted this regularTable selectable meta which (w : World FilterTerm) :
  acts_on selectable meta which w = true ->
  exists m,
    meta = Some m /\ event_handled w = false
    /\ selectionListener this regularTable selectable meta which w
       = match is_deselect (map_get (selected_rows_map w) regularTable)
                 (row_id this m) with
         | None => TypeError
         | Some d =>
             Resolved
               {| selected_rows_map :=
                    if d then delete regularTable (selected_rows_map w)
                    else <[regularTable := row_id this m]>
                           (selected_rows_map w);
                  event_handled := true;
                  dispatched :=
                    dispatched w
                    ++ [select_event (negb d)
                          (if d then []
                           else getCellConfig this (y m) (x m))];
                  draws := S (draws w) |}
         end.
Proof.
  unfold acts_on, RowSelect.selectionListener, row_id.
  destruct selectable; [|done]. destruct (event_handled w) eqn:Eh; [done|].
  destruct (which =? 1)%Z; [|done]. simpl.
  destruct meta as [m|]; [|done]. intros ->.
  exists m. split; [done|]. split; [done|].
  destruct (is_deselect _ _) as [[]|]; reflexivity.
Qed.

(** X8: the guards, in full: the listener returns the world as it found it
    exactly when the viewer is not selectable, or the event is handled, or
    the button is not the primary one, or there is no metadata, or the
    target is no cell of a data row; none of these throws, whatever the
    rows' key sequences. *)
Theorem click_ignored_iff this regularTable selectable meta which
    (w : World FilterTerm) :
  selectionListener this regularTable selectable meta which w = Resolved w
  <-> selectable = false \/ event_handled w = true \/ which <> 1%Z
      \/ meta = None
      \/ exists m, meta = Some m /\ forall yv, y m = Some yv -> (yv < 0)%Z.
Proof.
  destruct (acts_on selectable meta which w) eqn:Ea.
  - destruct (acted this regularTable _ _ _ _ Ea) as (m & -> & Hh & ->).
    unfold acts_on in Ea.
    repeat (apply andb_true_iff in Ea as [Ea ?]).
    split.
    + destruct (is_deselect _ _) as [d|]; [|done].
      intros [= Hw]. apply (f_equal event_handled) in Hw.
      simpl in Hw. congruence.
    + intros [-> | [Hw | [Hw | [Hm | (m' & [= <-] & Hy)]]]]; try done.
      * congruence.
      * apply Z.eqb_eq in H0. done.
      * unfold ge0 in H. destruct (y m) as [yv|]; [|done].
        apply Z.leb_le in H. specialize (Hy yv eq_refl). lia.
  - rewrite (not_acted _ _ _ _ _ _ Ea). split; [intros _ | done].
    unfold acts_on in Ea.
    destruct selectable; [|by left]. right.
    destruct (event_handled w); [by left|]. right.
    destruct (which =? 1)%Z eqn:Ew; [|left; by apply Z.eqb_neq]. right.
    destruct meta as [m|]; [|by left]. right.
    exists m. split; [done|]. simpl in Ea. intros yv Hy.
    rewrite Hy in Ea. simpl in Ea. apply Z.leb_gt in Ea. done.
Qed.

(** X9: the one error: the promise is rejected exactly when the listener
    acts on a click, a selection is stored for the table, and the clicked
    row has no key sequence. *)
Theorem click_throws_iff this regularTable selectable meta which
    (w : World FilterTerm) :
  selectionListener this regularTable selectable meta which w = TypeError
  <-> selectable = true /\ event_handled w = false /\ which = 1%Z
      /\ exists m yv selected,
          meta = Some m /\ y m = Some yv /\ (0 <= yv)%Z
          /\ map_get (selected_rows_map w) regularTable = Some selected
          /\ array_get (_ids this) (Some (yv - y0 m)%Z) = None.
Proof.
  destruct (acts_on selectable meta which w) eqn:Ea.
  - destruct (acted this regularTable _ _ _ _ Ea) as (m & -> & Hh & ->).
    unfold acts_on in Ea.
    repeat (apply andb_true_iff in Ea as [Ea ?]).
    apply Z.eqb_eq in H0. subst which. destruct selectable; [|done].
    unfold ge0 in H. destruct (y m) as [yv|] eqn:Ey; [|done].
    apply Z.leb_le in H.
    unfold row_id. rewrite Ey. cbn [fmap option_fmap option_map].
    split.
    + intros Ht. split; [done|]. split; [done|]. split; [done|].
      exists m, yv.
      destruct (map_get (selected_rows_map w) regularTable) as [sel|];
        [|done].
      exists sel.
      destruct (array_get (_ids this) (Some (yv - y0 m)%Z)); [done|].
      done.
    + intros (_ & _ & _ & m' & yv' & sel & [= <-] & Hy & _ & -> & Hid).
      assert (yv' = yv) as -> by congruence. by rewrite Hid.
  - rewrite (not_acted _ _ _ _ _ _ Ea). split; [done|].
    intros (-> & Hh & -> & m & yv & sel & -> & Hy & H0 & _).
    unfold acts_on in Ea. rewrite Hh, Hy in Ea. simpl in Ea.
    apply Z.leb_gt in Ea. lia.
Qed.

(** X10: one event is acted on once: a second call of the listener for the
    same event, on the world that the first call left, changes nothing. *)
Theorem same_event_once this regularTable selectable meta which
    (w w1 : World FilterTerm) :
  selectionListener this regularTable selectable meta which w = Resolved w1 ->
  selectionListener this regularTable selectable meta which w1 = Resolved w1.
Proof.
  intros H1.
  destruct (acts_on selectable meta which w) eqn:Ea.
  - destruct (acted this regularTable _ _ _ _ Ea) as (m & -> & Hh & Hr).
    rewrite Hr in H1.
    destruct (is_deselect _ _) as [d|]; [|done].
    injection H1 as <-. apply not_acted.
    unfold acts_on. simpl. by rewrite andb_false_r.
  - rewrite (not_acted _ _ _ _ _ _ Ea) in H1. injection H1 as <-.
    by apply not_acted.
Qed.

(** X11: what a call may change: the selections of other tables are never
    touched, and either the world is as it was, or exactly one
    [perspective-select] event was dispatched after exactly one draw and the
    event was marked handled. *)
Theorem click_frame this regularTable selectable meta which
    (w w1 : World FilterTerm) :
  selectionListener this regularTable selectable meta which w = Resolved w1 ->
  (forall other, other <> regularTable ->
                 selected_rows_map w1 !! other = selected_rows_map w !! other)
  /\ (w1 = w
      \/ exists selected filter,
           dispatched w1 = dispatched w ++ [select_event selected filter]
           /\ draws w1 = S (draws w)
           /\ event_handled w1 = true
           /\ (selected = true
               <-> regularTable ∈ dom (selected_rows_map w1))).
Proof.
  intros H1.
  destruct (acts_on selectable meta which w) eqn:Ea.
  - destruct (acted this regularTable _ _ _ _ Ea) as (m & -> & Hh & Hr).
    rewrite Hr in H1.
    destruct (is_deselect _ _) as [d|]; [|done].
    injection H1 as <-. cbn [selected_rows_map dispatched draws event_handled].
    split.
    + intros other Hne. destruct d.
      * by rewrite lookup_delete_ne.
      * by rewrite lookup_insert_ne.
    + right. eexists _, _. split; [reflexivity|]. split; [done|].
      split; [done|]. rewrite elem_of_dom. destruct d; simpl.
      * rewrite lookup_delete_eq. split; [done | by intros [? ?]].
      * rewrite lookup_insert_eq. split; [by eexists | done].
  - rewrite (not_acted _ _ _ _ _ _ Ea) in H1. injection H1 as <-.
    split; [done | by left].
Qed.




End Facts.

Lemma same_event_once_witness :
  selectionListener Samples.config Samples.model 7 true (Some Samples.meta) 1
    (mkWorld
       (<[7%nat := Some [VStr "Europe"; VStr "Spain"]]>
          (selected_rows_map Samples.world))
       true [select_event true [Some 11%Z; Some 2%Z]] 1)
  = Resolved
      (mkWorld
         (<[7%nat := Some [VStr "Europe"; VStr "Spain"]]>
            (selected_rows_map Samples.world))
         true [select_event true [Some 11%Z; Some 2%Z]] 1).
Proof.
  apply (same_event_once (option Z) Samples.config Samples.model 7 true
           (Some Samples.meta) 1 Samples.world).
  reflexivity.
Defined.

Lemma click_frame_witness :
  let w1 : World (option Z) :=
    mkWorld
      (<[7%nat := Some [VStr "Europe"; VStr "Spain"]]>
         (selected_rows_map Samples.world))
      true [select_event true [Some 11%Z; Some 2%Z]] 1 in
  (forall other, other <> 7%nat ->
     selected_rows_map w1 !! other = selected_rows_map Samples.world !! other)
  /\ (w1 = Samples.world
      \/ exists selected filter,
           dispatched w1
           = dispatched Samples.world ++ [select_event selected filter]
           /\ draws w1 = S (draws Samples.world)
           /\ event_handled w1 = true
           /\ (selected = true <-> 7%nat ∈ dom (selected_rows_map w1))).
Proof.
  apply (click_frame (option Z) Samples.config Samples.model 7 true
           (Some Samples.meta) 1 Samples.world).
  reflexivity.
Defined.



End RowSelectEventFacts.

(* ===================================================================== *)
(** * Facts: the fields of the token, and when [save] throws              *)
(* ===================================================================== *)

Module SaveTokenFacts.
Import Js Save SaveFacts.

(** The token of a well-formed state, with the entries that it is the
    text of. *)
Lemma save_token n h0 ov this datagrid :
  regular_table this = Some datagrid ->
  well_formed n h0 ov datagrid = true ->
  exists configs overrides t,
    entries h0 (plugin_symbol datagrid) = Some configs
    /\ entries h0 ov = Some overrides
    /\ saves_as n h0 ov this t
    /\ token_json n h0 (saved_columns h0 configs overrides)
         (truthy (_is_scroll_lock this)) (truthy (_is_edit_mode this))
       = Some (Some t)
    /\ (forall col src, configs !! col = Some src ->
          exists props rp,
            own_props h0 src = Some props
            /\ props_fine n h0 props
            /\ reduced_props h0 props = Some rp)
    /\ props_fine n h0 overrides.
Proof.
  intros Hrt Hwf.
  destruct (save_returns n h0 ov this datagrid Hrt Hwf)
    as (v & h' & t & Hs & Hj & Hrep & _).
  destruct (well_formed_inv _ _ _ _ Hwf)
    as (configs & overrides & Hec & Heo & Hc & Ho).
  exists configs, overrides, t.
  split; [exact Hec|]. split; [exact Heo|].
  split; [by exists v, h'|].
  split; [by rewrite <- (saved_json_token _ _ _ _ _ _ _ Hrt Hec Heo)|].
  split; [|exact Ho].
  intros col src Hcol. destruct (Hc _ _ Hcol) as (props & Hown & Hfine).
  destruct (reduced_props_fine n h0 props Hfine) as (rp & Hrp & _).
  by exists props, rp.
Qed.



(** The token of a well-formed state as a value: the object that [save]
    returns, the text that it reads as, and the entries that it is the text
    of. *)
Lemma save_token_value n h0 ov this datagrid configs overrides :
  regular_table this = Some datagrid ->
  well_formed n h0 ov datagrid = true ->
  entries h0 (plugin_symbol datagrid) = Some configs ->
  entries h0 ov = Some overrides ->
  exists v h' t,
    saves_token n h0 ov this v h' t
    /\ token_json n h0 (saved_columns h0 configs overrides)
         (truthy (_is_scroll_lock this)) (truthy (_is_edit_mode this))
       = Some (Some t)
    /\ (forall col src, configs !! col = Some src ->
          exists props rp,
            own_props h0 src = Some props
            /\ props_fine n h0 props
            /\ reduced_props h0 props = Some rp).
Proof.
  intros Hrt Hwf Hec Heo.
  destruct (save_returns n h0 ov this datagrid Hrt Hwf)
    as (v & h' & t & Hs & Hj & Hrep & _).
  destruct (well_formed_inv _ _ _ _ Hwf)
    as (configs' & overrides' & Hec' & Heo' & Hc & _).
  assert (configs' = configs) as -> by congruence.
  exists v, h', t.
  split; [by split|].
  split; [by rewrite <- (saved_json_token _ _ _ _ _ _ _ Hrt Hec Heo)|].
  intros col src Hcol. destruct (Hc _ _ Hcol) as (props & Hown & Hfine).
  destruct (reduced_props_fine n h0 props Hfine) as (rp & Hrp & _).
  by exists props, rp.
Qed.

(** The columns that have an entry in the token. *)
Lemma saved_columns_keys n h0 configs overrides col :
  (forall col src, configs !! col = Some src ->
     exists props rp,
       own_props h0 src = Some props
       /\ props_fine n h0 props
       /\ reduced_props h0 props = Some rp) ->
  is_Some (saved_columns h0 configs overrides !! col)
  <-> is_Some (configs !! col)
      \/ (is_Some (overrides !! col) /\ col ∉ object_prototype).
Proof.
  intros Hc. rewrite lookup_saved_columns.
  destruct (configs !! col) as [src|] eqn:Hcol.
  - destruct (Hc _ _ Hcol) as (props & rp & Hown & _ & Hrp).
    cbn [mbind option_bind]. unfold config_entry. rewrite Hown.
    cbn [mbind option_bind]. rewrite Hrp.
    split; [intros _; left | intros _]; by eexists.
  - cbn [mbind option_bind].
    destruct (overrides !! col) as [size|].
    + destruct (decide (col ∈ object_prototype)) as [Hin | Hin].
      * rewrite bool_decide_eq_true_2 by done.
        split; [by intros [? ?]|]. intros [[? ?] | [_ ?]]; done.
      * rewrite bool_decide_eq_false_2 by done.
        split; [intros _; right; split; [by eexists | done] | by eexists].
    + split; [by intros [? ?]|]. by intros [[? ?] | [[? ?] _]].
Qed.

(** An object that reads as an object text has the fields of the text,
    and no other property. *)
Lemma represents_fields_elem h props fs k t :
  represents_fields h props fs = true -> (k, t) ∈ fs ->
  exists w, props !! k = Some w /\ represents h w t = true.
Proof.
  induction fs as [|[k' t'] fs IH]; intros H Hin.
  - by apply elem_of_nil in Hin.
  - cbn [represents_fields] in H. apply andb_true_iff in H as [H1 H2].
    apply elem_of_cons in Hin as [Heq | Hin]; [|by apply IH].
    injection Heq as -> ->.
    destruct (props !! k') as [w|]; [by exists w | done].
Qed.

Lemma represents_object h v fs :
  represents h v (JObj fs) = true ->
  exists l props,
    v = VRef l /\ h !! l = Some (Obj props)
    /\ forall k,
         match jfield (JObj fs) k with
         | Some t => exists w, props !! k = Some w /\ represents h w t = true
         | None => props !! k = None
         end.
Proof.
  rewrite represents_obj. destruct v as [| | | | |l]; try done.
  destruct (h !! l) as [[props|]|] eqn:Hl; try done.
  intros H. apply andb_true_iff in H as [H Hf].
  apply andb_true_iff in H as [Hnd Hsz].
  apply bool_decide_eq_true in Hnd. apply bool_decide_eq_true in Hsz.
  exists l, props. split; [done|]. split; [done|].
  assert ((list_to_set fs.*1 : gset string) ⊆ dom props) as Hsub.
  { intros k Hk. apply elem_of_list_to_set in Hk.
    apply list_elem_of_fmap in Hk as ([k' t] & -> & Hin).
    destruct (represents_fields_elem _ _ _ _ _ Hf Hin) as (w & Hw & _).
    apply elem_of_dom. by exists w. }
  assert ((list_to_set fs.*1 : gset string) = dom props) as Heq.
  { apply set_subseteq_size_eq; [done|].
    rewrite size_dom, size_list_to_set by done.
    rewrite length_fmap. lia. }
  intros k. cbn [jfield].
  destruct ((list_to_map fs : gmap string json) !! k) as [t|] eqn:E.
  - apply elem_of_list_to_map_2 in E.
    by apply (represents_fields_elem _ _ _ _ _ Hf).
  - apply not_elem_of_list_to_map in E. apply not_elem_of_dom.
    rewrite <- Heq. by rewrite elem_of_list_to_set.
Qed.

Lemma represents_field h v t k tk :
  represents h v t = true -> jfield t k = Some tk ->
  represents h (field h v k) tk = true.
Proof.
  intros Hrep Hk. destruct t as [| | | | |fs]; try done.
  destruct (represents_object _ _ _ Hrep) as (l & props & -> & Hl & Hall).
  specialize (Hall k). rewrite Hk in Hall. destruct Hall as (w & Hw & Hrw).
  unfold field, own_props, prop. by rewrite Hl, Hw.
Qed.

(** Reading a path of the text is reading the same path of the value. *)
Lemma represents_jpath h path : forall v t t',
  represents h v t = true -> jpath t path = Some t' ->
  represents h (get_path h v path) t' = true.
Proof.
  induction path as [|k rest IH]; intros v t t' Hrep Hp;
    cbn [jpath get_path] in *.
  - by injection Hp as <-.
  - destruct (jfield t k) as [tk|] eqn:E; [|done].
    apply (IH _ tk); [|done]. by apply (represents_field _ _ t).
Qed.

(** Where a path of the text ends in an object text, the same path of the
    value ends in an object with the fields of that text. *)
Lemma represents_jpath_object h path v t fs :
  represents h v t = true -> jpath t path = Some (JObj fs) ->
  exists l props,
    get_path h v path = VRef l /\ h !! l = Some (Obj props)
    /\ forall k,
         match jfield (JObj fs) k with
         | Some tk => exists w, props !! k = Some w
                                /\ represents h w tk = true
         | None => props !! k = None
         end.
Proof.
  intros Hrep Hp. apply represents_object.
  by apply (represents_jpath _ _ _ t).
Qed.

Lemma get_path_snoc h path : forall v k,
  get_path h v (path ++ [k]) = field h (get_path h v path) k.
Proof.
  induction path as [|k' rest IH]; intros v k; cbn [get_path app]; [done|].
  apply IH.
Qed.

(** A field of an object of the text, read off the value. *)
Lemma represents_jpath_field h path v t fs k :
  represents h v t = true -> jpath t path = Some (JObj fs) ->
  reads_as h (get_path h v (path ++ [k])) (jfield (JObj fs) k).
Proof.
  intros Hrep Hp.
  destruct (represents_jpath_object _ _ _ _ _ Hrep Hp)
    as (l & props & Hl & Hh & Hall).
  specialize (Hall k). rewrite get_path_snoc, Hl.
  unfold reads_as, field, own_props, prop. rewrite Hh.
  destruct (jfield (JObj fs) k) as [tk|].
  - destruct Hall as (w & -> & Hw). exact Hw.
  - by rewrite Hall.
Qed.

(** The entry of a column in the token is an object text, with the texts
    of the properties of the entry as fields. *)
Lemma token_json_entry n h spec sl ed t col entry :
  token_json n h spec sl ed = Some (Some t) ->
  spec !! col = Some entry ->
  exists fs,
    jpath t ["columns"; col] = Some (JObj fs)
    /\ forall f, jfield (JObj fs) f
                 = entry !! f ≫= fun v => text_of (stringify n h v).
Proof.
  intros Ht Hcol.
  pose proof (token_json_columns _ _ _ _ _ _ col Ht) as Hp.
  destruct (token_json_inv _ _ _ _ _ _ Ht) as (tc & Htc & _).
  destruct (columns_json_inv _ _ _ _ Htc) as [_ Hentries].
  destruct (Hentries _ _ Hcol) as [te Hte].
  clear Ht Htc Hentries.
  rewrite Hcol in Hp. cbn [mbind option_bind] in Hp.
  rewrite Hte in Hp. cbn [text_of] in Hp.
  pose proof (entry_json_inv _ _ _ _ Hte) as Hf.
  unfold entry_json in Hte. apply object_json_inv in Hte as [_ Hte].
  injection Hte as ->. by eexists.
Qed.










(** X14: the token that [save] returns for a well-formed state with no
    column named [__proto__] is an object with the three properties of the
    object literal and no other: [scroll_lock] and [editable] hold the
    booleans [!!this._is_scroll_lock] and [!!this._is_edit_mode], whatever
    kind of value the two properties of [this] hold, and [columns] holds an
    object.  The text of the token has the same three fields. *)
Theorem token_flags n h0 ov this datagrid configs overrides :
  regular_table this = Some datagrid ->
  well_formed n h0 ov datagrid = true ->
  entries h0 (plugin_symbol datagrid) = Some configs ->
  entries h0 ov = Some overrides ->
  configs !! "__proto__" = None ->
  overrides !! "__proto__" = None ->
  exists v h' t l props,
    saves_token n h0 ov this v h' t
    /\ v = VRef l /\ h' !! l = Some (Obj props)
    /\ (forall k, is_Some (props !! k)
                  <-> k ∈ ["columns"; "scroll_lock"; "editable"])
    /\ props !! "scroll_lock" = Some (VBool (truthy (_is_scroll_lock this)))
    /\ props !! "editable" = Some (VBool (truthy (_is_edit_mode this)))
    /\ (exists lc cp,
          props !! "columns" = Some (VRef lc) /\ h' !! lc = Some (Obj cp))
    /\ jfield t "scroll_lock" = Some (JBool (truthy (_is_scroll_lock this)))
    /\ jfield t "editable" = Some (JBool (truthy (_is_edit_mode this)))
    /\ (exists fs, jfield t "columns" = Some (JObj fs))
    /\ forall k, k ∉ ["columns"; "scroll_lock"; "editable"] ->
                 jfield t k = None.
Proof.
  intros Hrt Hwf Hec Heo _ _.
  destruct (save_token_value n h0 ov this datagrid configs overrides
              Hrt Hwf Hec Heo) as (v & h' & t & Hs & Ht & _).
  destruct (token_json_inv _ _ _ _ _ _ Ht) as (tc & Htc & Hfc & Hfs & Hfe).
  assert (exists fsc, tc = JObj fsc) as [fsc Htco].
  { apply object_json_inv in Htc as [_ Htc]. injection Htc as Htc.
    eexists. exact Htc. }
  assert (forall k, k ∉ ["columns"; "scroll_lock"; "editable"] ->
                    jfield t k = None) as Hother.
  { intros k Hk. rewrite !not_elem_of_cons in Hk.
    destruct Hk as (Hk1 & Hk2 & Hk3 & _).
    rewrite (object_json_field _ _ k Ht). clear Ht Htc Htco.
    rewrite (lookup_insert_ne _ "columns" k) by congruence.
    rewrite (lookup_insert_ne _ "scroll_lock" k) by congruence.
    rewrite (lookup_insert_ne _ "editable" k) by congruence.
    reflexivity. }
  clear Ht Htc. subst tc.
  destruct t as [| | | | |fs]; try discriminate Hfc.
  destruct Hs as [Hs Hrep].
  destruct (represents_object _ _ _ Hrep) as (l & props & -> & Hl & Hall).
  pose proof (Hall "columns") as Hpc. rewrite Hfc in Hpc.
  destruct Hpc as (wc & Hwc & Hrc).
  destruct (represents_object _ _ _ Hrc) as (lc & cp & -> & Hlc & _).
  pose proof (Hall "scroll_lock") as Hps. rewrite Hfs in Hps.
  destruct Hps as (ws & Hws & Hrs). cbn [represents] in Hrs.
  apply bool_decide_eq_true in Hrs as ->.
  pose proof (Hall "editable") as Hpe. rewrite Hfe in Hpe.
  destruct Hpe as (we & Hwe & Hre). cbn [represents] in Hre.
  apply bool_decide_eq_true in Hre as ->.
  exists (VRef l), h', (JObj fs), l, props.
  split; [by split|]. split; [done|]. split; [done|].
  split; [|split; [done|split; [done|split; [by exists lc, cp|]]]].
  - intros k. split.
    + intros Hk.
      destruct (decide (k ∈ ["columns"; "scroll_lock"; "editable"]))
        as [Hin | Hin]; [done|].
      specialize (Hall k). rewrite (Hother k Hin) in Hall.
      rewrite Hall in Hk. by destruct Hk.
    + intros Hk.
      repeat (apply elem_of_cons in Hk as [-> | Hk]);
        [by eexists | by eexists | by eexists | by apply elem_of_nil in Hk].
  - split; [done|]. split; [done|]. split; [by eexists | done].
Qed.

Lemma token_flags_witness :
  exists v h' t l props,
    saves_token 2 Samples.stored Samples.overrides Samples.plugin v h' t
    /\ v = VRef l /\ h' !! l = Some (Obj props)
    /\ (forall k, is_Some (props !! k)
                  <-> k ∈ ["columns"; "scroll_lock"; "editable"])
    /\ props !! "scroll_lock"
       = Some (VBool (truthy (_is_scroll_lock Samples.plugin)))
    /\ props !! "editable"
       = Some (VBool (truthy (_is_edit_mode Samples.plugin)))
    /\ (exists lc cp,
          props !! "columns" = Some (VRef lc) /\ h' !! lc = Some (Obj cp))
    /\ jfield t "scroll_lock"
       = Some (JBool (truthy (_is_scroll_lock Samples.plugin)))
    /\ jfield t "editable"
       = Some (JBool (truthy (_is_edit_mode Samples.plugin)))
    /\ (exists fs, jfield t "columns" = Some (JObj fs))
    /\ forall k, k ∉ ["columns"; "scroll_lock"; "editable"] ->
                 jfield t k = None.
Proof.
  apply (token_flags 2 Samples.stored Samples.overrides Samples.plugin
           (mkDatagrid (VRef 5)) Samples.configs Samples.override_sizes).
  - reflexivity.
  - vm_compute. reflexivity.
  - reflexivity.
  - reflexivity.
  - reflexivity.
  - reflexivity.
Defined.

(** X15: in the token that [save] returns for a well-formed state with no
    column named [__proto__], [columns] is an object with one property for
    each column that has a stored configuration, one for each column that
    has a size override and is not named as a member of [Object.prototype],
    and no other property; the text of the token has an entry for the same
    columns. *)
Theorem token_column_keys n h0 ov this datagrid configs overrides :
  regular_table this = Some datagrid ->
  well_formed n h0 ov datagrid = true ->
  entries h0 (plugin_symbol datagrid) = Some configs ->
  entries h0 ov = Some overrides ->
  configs !! "__proto__" = None ->
  overrides !! "__proto__" = None ->
  exists v h' t lc cp,
    saves_token n h0 ov this v h' t
    /\ field h' v "columns" = VRef lc /\ h' !! lc = Some (Obj cp)
    /\ forall col,
         (is_Some (cp !! col)
          <-> is_Some (configs !! col)
              \/ (is_Some (overrides !! col) /\ col ∉ object_prototype))
         /\ (is_Some (jpath t ["columns"; col]) <-> is_Some (cp !! col)).
Proof.
  intros Hrt Hwf Hec Heo _ _.
  destruct (save_token_value n h0 ov this datagrid configs overrides
              Hrt Hwf Hec Heo) as (v & h' & t & Hs & Ht & Hc).
  destruct (token_json_inv _ _ _ _ _ _ Ht) as (tc & Htc & Hfc & _).
  destruct (columns_json_inv _ _ _ _ Htc) as [Hfield Hentries].
  assert (exists fsc, tc = JObj fsc) as [fsc Htco].
  { apply object_json_inv in Htc as [_ Htc]. injection Htc as Htc.
    eexists. exact Htc. }
  clear Ht Htc. subst tc.
  assert (forall col, jpath t ["columns"; col] = jfield (JObj fsc) col)
    as Hpath.
  { intros col. cbn [jpath]. rewrite Hfc.
    by destruct (jfield (JObj fsc) col). }
  assert (forall col,
            is_Some (jfield (JObj fsc) col)
            <-> is_Some (saved_columns h0 configs overrides !! col)) as Hkeys.
  { intros col. rewrite Hfield.
    destruct (saved_columns h0 configs overrides !! col) as [entry|] eqn:E;
      cbn [mbind option_bind].
    - destruct (Hentries _ _ E) as [te ->]. cbn [text_of].
      split; intros _; by eexists.
    - done. }
  clear Hfield Hentries. destruct Hs as [Hs Hrep].
  destruct (represents_jpath_object h' ["columns"] v t fsc Hrep)
    as (lc & cp & Hlc & Hh & Hall).
  { cbn [jpath]. by rewrite Hfc. }
  cbn [get_path] in Hlc.
  exists v, h', t, lc, cp. split; [by split|]. split; [done|].
  split; [done|]. intros col.
  assert (is_Some (cp !! col) <-> is_Some (jfield (JObj fsc) col)) as Hcp.
  { specialize (Hall col). destruct (jfield (JObj fsc) col) as [tk|].
    - destruct Hall as (w & -> & _). split; intros _; by eexists.
    - rewrite Hall. done. }
  split.
  - rewrite Hcp, Hkeys. by apply (saved_columns_keys n).
  - by rewrite Hpath, Hcp.
Qed.

Lemma token_column_keys_witness :
  exists v h' t lc cp,
    saves_token 2 Named.named_heap Named.named_overrides Named.named_plugin
      v h' t
    /\ field h' v "columns" = VRef lc /\ h' !! lc = Some (Obj cp)
    /\ forall col,
         (is_Some (cp !! col)
          <-> is_Some (Named.named_configs !! col)
              \/ (is_Some (Named.named_sizes !! col)
                  /\ col ∉ object_prototype))
         /\ (is_Some (jpath t ["columns"; col]) <-> is_Some (cp !! col)).
Proof.
  apply (token_column_keys 2 Named.named_heap Named.named_overrides
           Named.named_plugin (mkDatagrid (VRef 1)) Named.named_configs
           Named.named_sizes).
  - reflexivity.
  - vm_compute. reflexivity.
  - reflexivity.
  - reflexivity.
  - reflexivity.
  - reflexivity.
Defined.

(** X16: in a well-formed state with no column named [__proto__], the size
    override of a column that has a stored configuration, or is not named
    as a member of [Object.prototype], is recorded under
    [column_size_override] in the entry of the column, in place of a
    [column_size_override] that the configuration may hold itself: the
    property of the returned token reads as the text of the size, and is
    [undefined] when the size has no text. *)
Theorem override_recorded n h0 ov this datagrid configs overrides :
  regular_table this = Some datagrid ->
  well_formed n h0 ov datagrid = true ->
  entries h0 (plugin_symbol datagrid) = Some configs ->
  entries h0 ov = Some overrides ->
  configs !! "__proto__" = None ->
  overrides !! "__proto__" = None ->
  exists v h' t,
    saves_token n h0 ov this v h' t
    /\ forall col size,
         overrides !! col = Some size ->
         is_Some (configs !! col) \/ col ∉ object_prototype ->
         jpath t ["columns"; col; "column_size_override"]
         = text_of (stringify n h0 size)
         /\ reads_as h'
              (get_path h' v ["columns"; col; "column_size_override"])
              (text_of (stringify n h0 size)).
Proof.
  intros Hrt Hwf Hec Heo _ _.
  destruct (save_token_value n h0 ov this datagrid configs overrides
              Hrt Hwf Hec Heo) as (v & h' & t & Hs & Ht & Hc).
  exists v, h', t. split; [exact Hs|]. intros col size Hsize Hcol.
  assert (exists e, saved_columns h0 configs overrides !! col
                    = Some (<["column_size_override" := size]> e))
    as [e He].
  { clear Ht. rewrite lookup_saved_columns, Hsize.
    destruct (configs !! col) as [src|] eqn:Hsrc.
    - destruct (Hc _ _ Hsrc) as (props & rp & Hown & _ & Hrp).
      cbn [mbind option_bind]. unfold config_entry. rewrite Hown.
      cbn [mbind option_bind]. rewrite Hrp. by eexists.
    - cbn [mbind option_bind]. destruct Hcol as [[? ?] | Hcol]; [done|].
      rewrite bool_decide_eq_false_2 by done. by eexists. }
  destruct (token_json_entry _ _ _ _ _ _ _ _ Ht He) as (fs & Hp & Hf).
  pose proof (token_json_field _ _ _ _ _ _ _ _ "column_size_override" Ht He)
    as Hpf.
  clear Ht. rewrite lookup_insert_eq in Hpf. cbn [mbind option_bind] in Hpf.
  split; [exact Hpf|].
  destruct Hs as [_ Hrep].
  pose proof (represents_jpath_field h' ["columns"; col] v t fs
                "column_size_override" Hrep Hp) as Hr.
  rewrite Hf, lookup_insert_eq in Hr. exact Hr.
Qed.

Lemma override_recorded_witness :
  exists v h' t,
    saves_token 2 Named.named_heap Named.named_overrides Named.named_plugin
      v h' t
    /\ forall col size,
         Named.named_sizes !! col = Some size ->
         is_Some (Named.named_configs !! col) \/ col ∉ object_prototype ->
         jpath t ["columns"; col; "column_size_override"]
         = text_of (stringify 2 Named.named_heap size)
         /\ reads_as h'
              (get_path h' v ["columns"; col; "column_size_override"])
              (text_of (stringify 2 Named.named_heap size)).
Proof.
  apply (override_recorded 2 Named.named_heap Named.named_overrides
           Named.named_plugin (mkDatagrid (VRef 1)) Named.named_configs
           Named.named_sizes).
  - reflexivity.
  - vm_compute. reflexivity.
  - reflexivity.
  - reflexivity.
  - reflexivity.
  - reflexivity.
Defined.












(** The sample token: the colour is cut to "#", the two foreground colours
    are gone. *)
Example plain_token :
  saved_json 2 Plain.plain_heap VUndef Plain.plain_plugin
  = Some (Some (JObj
      [("scroll_lock", JBool true);
       ("columns",
        JObj [("a", JObj [("color", JStr "#"); ("fixed", JNum 2)])]);
       ("editable", JBool false)])).
Proof. vm_compute. reflexivity. Qed.

(** X21: without stored configurations and without size overrides, in any
    heap, [save] returns the token [{columns: {}, scroll_lock, editable}]. *)
Theorem save_empty_state ov this datagrid :
  regular_table this = Some datagrid ->
  truthy (plugin_symbol datagrid) = false ->
  truthy ov = false ->
  forall h0,
  exists t,
    saves_as 0 h0 ov this t
    /\ jfield t "columns" = Some (JObj [])
    /\ jfield t "scroll_lock" = Some (JBool (truthy (_is_scroll_lock this)))
    /\ jfield t "editable" = Some (JBool (truthy (_is_edit_mode this))).
Proof.
  intros Hrt Hp Ho h0.
  assert (entries h0 (plugin_symbol datagrid) = Some ∅) as Hec
    by (unfold entries; by rewrite Hp).
  assert (entries h0 ov = Some ∅) as Heo by (unfold entries; by rewrite Ho).
  assert (well_formed 0 h0 ov datagrid = true) as Hwf.
  { unfold well_formed. rewrite Hec, Heo. unfold props_ok.
    by rewrite map_to_list_empty. }
  destruct (save_token 0 h0 ov this datagrid Hrt Hwf)
    as (configs & overrides & t & Hec' & Heo' & Hs & Ht & _).
  assert (configs = ∅) as -> by congruence.
  assert (overrides = ∅) as -> by congruence.
  exists t. split; [exact Hs|].
  destruct (token_json_inv _ _ _ _ _ _ Ht) as (tc & Htc & Hfc & Hfs & Hfe).
  clear Ht. split; [|by split].
  rewrite Hfc. f_equal.
  assert (saved_columns h0 ∅ ∅ = ∅) as Hsc.
  { apply map_eq. intros col. unfold saved_columns.
    by rewrite lookup_token_columns, lookup_omap, !lookup_empty. }
  rewrite Hsc in Htc. unfold columns_json in Htc.
  rewrite fmap_empty in Htc. unfold object_json in Htc.
  rewrite map_to_list_empty in Htc. cbn in Htc. congruence.
Qed.

Lemma save_empty_state_witness :
  exists t,
    saves_as 0 Samples.stored VNull Plain.bare_plugin t
    /\ jfield t "columns" = Some (JObj [])
    /\ jfield t "scroll_lock"
       = Some (JBool (truthy (_is_scroll_lock Plain.bare_plugin)))
    /\ jfield t "editable"
       = Some (JBool (truthy (_is_edit_mode Plain.bare_plugin))).
Proof.
  apply (save_empty_state VNull Plain.bare_plugin (mkDatagrid VUndef));
    reflexivity.
Defined.

End SaveTokenFacts.

Module SaveCycleFacts.
Import Js Save SaveFacts.

(** ** Texts and cycles *)








(** ** The two loop bodies, as heap updates *)








(** ** The invariants of the loops *)















End SaveCycleFacts.
